(** * The Minetest audio system (src/audio.cpp), embedded in Rocq

    The translation unit keeps one process-wide decode cache
    ([SoundBuffer::cache]) and one [Audio] object with three registries:
    named sources, ambient sounds and ambient slots.  All of it is mutable
    and shared through pointers, so the program state is modelled as one
    record holding the cache, three typed heaps and the members of [Audio];
    the member functions become computations in a state monad that can also
    stop with an access violation.

    What the file calls but does not define (the file system, the Ogg Vorbis
    decoder, the OpenAL device) is an environment [Env] of oracles; every
    statement below is quantified over it.  What audio.h declares (the
    classes, [isAvailable], the methods of [AmbientSound]) is missing and
    modelled from the spec, each time under a comment that says so.

    The file has three parts: the program; the vocabulary of the
    statements (outcomes of the lookups, frames, invariants, and concrete
    machines to run the program on); the proofs, with one theorem per
    claim, C1 to C10, followed by further properties of the code, X1 to
    X28. *)

From Stdlib Require Import ZArith List Lia.
From Stdlib Require Import Floats.SpecFloat.
From stdpp Require Import gmap strings list fin_maps.

Local Open Scope Z_scope.

(** ** Values *)

(** [ALfloat] and irrlicht's [f32] are IEEE 754 binary32. *)
Definition f32 : Type := spec_float.
Definition f32_sub : f32 -> f32 -> f32 := SFsub 24 128.
Definition f32_zero : f32 := S754_zero false.
(** The literals [0.7] and [0.3] once converted to [ALfloat]. *)
Definition f32_0_7 : f32 := S754_finite false 11744051 (-24).
Definition f32_0_3 : f32 := S754_finite false 10066330 (-25).

Record v3f := mk_v3f { X : f32; Y : f32; Z_ : f32 }.

Abbreviation ALuint := Z (only parsing).
Abbreviation ALenum := Z (only parsing).
Abbreviation ALCenum := Z (only parsing).

(** Objects live in typed heaps; a pointer is [None] (the null pointer) or
    [Some l] with [l] an index into the heap of its type. *)
Abbreviation loc := nat (only parsing).

(** Constants of the OpenAL headers. *)
Definition AL_NO_ERROR : ALenum := 0.
Definition AL_INVALID_NAME : ALenum := 0xA001.
Definition AL_INVALID_ENUM : ALenum := 0xA002.
Definition AL_INVALID_VALUE : ALenum := 0xA003.
Definition AL_INVALID_OPERATION : ALenum := 0xA004.
Definition AL_OUT_OF_MEMORY : ALenum := 0xA005.
Definition AL_FORMAT_MONO16 : ALenum := 0x1101.
Definition AL_FORMAT_STEREO16 : ALenum := 0x1103.

Definition ALC_NO_ERROR : ALCenum := 0.
Definition ALC_INVALID_DEVICE : ALCenum := 0xA001.
Definition ALC_INVALID_CONTEXT : ALCenum := 0xA002.
Definition ALC_INVALID_ENUM : ALCenum := 0xA003.
Definition ALC_INVALID_VALUE : ALCenum := 0xA004.
Definition ALC_OUT_OF_MEMORY : ALCenum := 0xA005.

(** Parameter names passed to the device; only their identity matters. *)
Inductive ALparam :=
| AL_BUFFER | AL_POSITION | AL_VELOCITY | AL_ROLLOFF_FACTOR
| AL_SOURCE_RELATIVE | AL_ORIENTATION | AL_GAIN | AL_EXPONENT_DISTANCE.

Definition BUFFER_SIZE : Z := 32768.

Definition alcErrorString (err : ALCenum) : string :=
  if err =? ALC_NO_ERROR then "no error"
  else if err =? ALC_INVALID_DEVICE then "invalid device"
  else if err =? ALC_INVALID_CONTEXT then "invalid context"
  else if err =? ALC_INVALID_ENUM then "invalid enum"
  else if err =? ALC_INVALID_VALUE then "invalid value"
  else if err =? ALC_OUT_OF_MEMORY then "out of memory"
  else "<unknown OpenAL error>".

Definition alErrorString (err : ALenum) : string :=
  if err =? AL_NO_ERROR then "no error"
  else if err =? AL_INVALID_NAME then "invalid name"
  else if err =? AL_INVALID_ENUM then "invalid enum"
  else if err =? AL_INVALID_VALUE then "invalid value"
  else if err =? AL_INVALID_OPERATION then "invalid operation"
  else if err =? AL_OUT_OF_MEMORY then "out of memory"
  else "<unknown OpenAL error>".

(** ** Objects *)

(** Modelled from the spec: the class [SoundBuffer] is declared in audio.h,
    which is missing.  The spec gives it as
    [{ channelFormat, sampleRate: int, pcmBytes, deviceBufferHandle }];
    the members carry the names [loadOggFile] assigns them by. *)
Record SoundBuffer := mkSoundBuffer {
  format : ALenum;
  freq : Z;
  bufferID : ALuint;
  buffer : list Byte.byte
}.

(** Modelled from the spec: the class [SoundSource] is declared in audio.h,
    which is missing.  These are the members its constructor in audio.cpp
    assigns (position and velocity live in the device); [sourceID] stays
    unset ([None]) in a source built on the null buffer, the spec's inert
    placeholder. *)
Record SoundSource := mkSoundSource {
  m_buffer : option loc;
  m_relative : bool;
  sourceID : option ALuint
}.

(** Modelled from the spec: the class [AmbientSound] is declared in audio.h,
    which is missing.  The spec gives it as a wrapper
    [{ source: exclusively owned SoundSource, playing: bool }] whose state
    changes only through [play()] and [stop()], exposing [isPlaying]. *)
Record AmbientSound := mkAmbientSound {
  source : SoundSource;
  playing : bool
}.

(** ** The collaborators *)

(** An opened Ogg Vorbis stream: what [ov_info] reports and what the
    successive [ov_read] calls will return, each as the returned [long] and
    the contents of [array] after the call.  Past the end of the list
    [ov_read] returns 0 (end of stream), as it does on a finite file. *)
Record OggVorbis_File := mkOgg {
  channels : Z;
  rate : Z;
  reads : list (Z * list Byte.byte)
}.

Record Env := mkEnv {
  PathExists : string -> bool;
  ov_fopen : string -> option OggVorbis_File;
  alcOpenDevice : option Z;
  alcIsExtensionPresent : bool;
  alcCreateContext : option Z;
  alcMakeContextCurrent : option Z -> bool;
  alcGetError : option Z -> ALCenum;
  (** the error the device holds after the upload into a buffer name *)
  alGetError : ALuint -> ALenum;
  alGetString_AL_VERSION : string;
  alcGetString_DEVICE_SPECIFIER : option Z -> string
}.

(** The calls made on the collaborators, in order.  [play_call] and
    [stop_call] are the calls [snd->play()] and [oldsnd->stop()] on an
    ambient sound. *)
Inductive Call :=
| ov_fopen_call (fname : string)
| ov_clear_call (fname : string)
| alGenBuffers_call (id : ALuint)
| alBufferData_call (id : ALuint) (fmt : ALenum) (data : list Byte.byte)
    (size : Z) (frq : Z)
| alGenSources_call (id : ALuint)
| alSourcei_call (src : ALuint) (param : ALparam) (value : Z)
| alSource3f_call (src : ALuint) (param : ALparam) (x y z : f32)
| alSourcef_call (src : ALuint) (param : ALparam) (value : f32)
| alSourcePlay_call (src : ALuint)
| alSourceStop_call (src : ALuint)
| alListenerfv_call (param : ALparam) (values : list f32)
| alListenerf_call (param : ALparam) (value : f32)
| alDistanceModel_call (model : ALparam)
| alc_call (fn : string) (handle : option Z)
| play_call (snd : loc)
| stop_call (snd : loc).

Record ICameraSceneNode := mkCamera {
  getPosition : v3f;
  getTarget : v3f;
  getUpVector : v3f
}.

(** ** The program state *)

(** The members of [Audio] are declared in audio.h, which is missing;
    their types are read off their uses in audio.cpp.  The three registries
    are irrlicht maps from names to pointers; as allocation is taken to
    succeed, the pointers stored in them are never null. *)

#[projections(primitive)] Record State := mkState {
  (** [SoundBuffer::cache] *)
  cache : gmap string loc;
  (** the heaps of [SoundBuffer], [SoundSource] and [AmbientSound] objects *)
  buffers : list SoundBuffer;
  sources : list SoundSource;
  ambients : list AmbientSound;
  (** the members of the [Audio] object *)
  m_device : option Z;
  m_context : option Z;
  m_can_vorbis : bool;
  m_path : string;
  m_sound_source : gmap string loc;
  m_ambient_sound : gmap string loc;
  m_ambient_slot : gmap string loc;
  m_listener : list f32;
  (** the lines written to [infostream] *)
  infostream : list string;
  (** the next name the device hands out, and the calls made so far *)
  al_names : ALuint;
  calls : list Call
}.

(** The state at process start: empty cache and registries, nothing
    allocated, the members of [Audio] not yet constructed. *)
Definition process_start (listener : list f32) : State :=
  mkState ∅ [] [] [] None None false EmptyString ∅ ∅ ∅ listener [] 1 [].

Definition set_cache (f : gmap string loc -> gmap string loc) (s : State) : State :=
  mkState (f (cache s)) (buffers s) (sources s) (ambients s) (m_device s)
    (m_context s) (m_can_vorbis s) (m_path s) (m_sound_source s)
    (m_ambient_sound s) (m_ambient_slot s) (m_listener s) (infostream s)
    (al_names s) (calls s).
Definition set_buffers (f : list SoundBuffer -> list SoundBuffer) (s : State) : State :=
  mkState (cache s) (f (buffers s)) (sources s) (ambients s) (m_device s)
    (m_context s) (m_can_vorbis s) (m_path s) (m_sound_source s)
    (m_ambient_sound s) (m_ambient_slot s) (m_listener s) (infostream s)
    (al_names s) (calls s).
Definition set_sources (f : list SoundSource -> list SoundSource) (s : State) : State :=
  mkState (cache s) (buffers s) (f (sources s)) (ambients s) (m_device s)
    (m_context s) (m_can_vorbis s) (m_path s) (m_sound_source s)
    (m_ambient_sound s) (m_ambient_slot s) (m_listener s) (infostream s)
    (al_names s) (calls s).
Definition set_ambients (f : list AmbientSound -> list AmbientSound) (s : State)
  : State :=
  mkState (cache s) (buffers s) (sources s) (f (ambients s)) (m_device s)
    (m_context s) (m_can_vorbis s) (m_path s) (m_sound_source s)
    (m_ambient_sound s) (m_ambient_slot s) (m_listener s) (infostream s)
    (al_names s) (calls s).
Definition set_m_device (d : option Z) (s : State) : State :=
  mkState (cache s) (buffers s) (sources s) (ambients s) d
    (m_context s) (m_can_vorbis s) (m_path s) (m_sound_source s)
    (m_ambient_sound s) (m_ambient_slot s) (m_listener s) (infostream s)
    (al_names s) (calls s).
Definition set_m_context (c : option Z) (s : State) : State :=
  mkState (cache s) (buffers s) (sources s) (ambients s) (m_device s)
    c (m_can_vorbis s) (m_path s) (m_sound_source s)
    (m_ambient_sound s) (m_ambient_slot s) (m_listener s) (infostream s)
    (al_names s) (calls s).
Definition set_m_can_vorbis (b : bool) (s : State) : State :=
  mkState (cache s) (buffers s) (sources s) (ambients s) (m_device s)
    (m_context s) b (m_path s) (m_sound_source s)
    (m_ambient_sound s) (m_ambient_slot s) (m_listener s) (infostream s)
    (al_names s) (calls s).
Definition set_m_path (p : string) (s : State) : State :=
  mkState (cache s) (buffers s) (sources s) (ambients s) (m_device s)
    (m_context s) (m_can_vorbis s) p (m_sound_source s)
    (m_ambient_sound s) (m_ambient_slot s) (m_listener s) (infostream s)
    (al_names s) (calls s).
Definition set_m_sound_source (f : gmap string loc -> gmap string loc)
    (s : State) : State :=
  mkState (cache s) (buffers s) (sources s) (ambients s) (m_device s)
    (m_context s) (m_can_vorbis s) (m_path s) (f (m_sound_source s))
    (m_ambient_sound s) (m_ambient_slot s) (m_listener s) (infostream s)
    (al_names s) (calls s).
Definition set_m_ambient_sound (f : gmap string loc -> gmap string loc)
    (s : State) : State :=
  mkState (cache s) (buffers s) (sources s) (ambients s) (m_device s)
    (m_context s) (m_can_vorbis s) (m_path s) (m_sound_source s)
    (f (m_ambient_sound s)) (m_ambient_slot s) (m_listener s) (infostream s)
    (al_names s) (calls s).
Definition set_m_ambient_slot (f : gmap string loc -> gmap string loc)
    (s : State) : State :=
  mkState (cache s) (buffers s) (sources s) (ambients s) (m_device s)
    (m_context s) (m_can_vorbis s) (m_path s) (m_sound_source s)
    (m_ambient_sound s) (f (m_ambient_slot s)) (m_listener s) (infostream s)
    (al_names s) (calls s).
Definition set_m_listener (l : list f32) (s : State) : State :=
  mkState (cache s) (buffers s) (sources s) (ambients s) (m_device s)
    (m_context s) (m_can_vorbis s) (m_path s) (m_sound_source s)
    (m_ambient_sound s) (m_ambient_slot s) l (infostream s)
    (al_names s) (calls s).
Definition set_infostream (f : list string -> list string) (s : State) : State :=
  mkState (cache s) (buffers s) (sources s) (ambients s) (m_device s)
    (m_context s) (m_can_vorbis s) (m_path s) (m_sound_source s)
    (m_ambient_sound s) (m_ambient_slot s) (m_listener s) (f (infostream s))
    (al_names s) (calls s).
Definition set_al_names (n : ALuint) (s : State) : State :=
  mkState (cache s) (buffers s) (sources s) (ambients s) (m_device s)
    (m_context s) (m_can_vorbis s) (m_path s) (m_sound_source s)
    (m_ambient_sound s) (m_ambient_slot s) (m_listener s) (infostream s)
    n (calls s).
Definition set_calls (f : list Call -> list Call) (s : State) : State :=
  mkState (cache s) (buffers s) (sources s) (ambients s) (m_device s)
    (m_context s) (m_can_vorbis s) (m_path s) (m_sound_source s)
    (m_ambient_sound s) (m_ambient_slot s) (m_listener s) (infostream s)
    (al_names s) (f (calls s)).

(** ** The monad: state, and [None] for an access violation *)

Definition M (A : Type) : Type := State -> option (A * State).

#[global] Instance M_ret : MRet M := fun A a s => Some (a, s).
#[global] Instance M_bind : MBind M := fun A B k m s =>
  match m s with
  | Some (a, s') => k a s'
  | None => None
  end.
Definition crash {A} : M A := fun _ => None.
Definition gets {A} (f : State -> A) : M A := fun s => Some (f s, s).
Definition modify (f : State -> State) : M unit := fun s => Some (tt, f s).

(** [infostream << ... << std::endl] *)
Definition log (line : string) : M unit :=
  modify (set_infostream (fun l => l ++ [line])).
Definition call (c : Call) : M unit :=
  modify (set_calls (fun l => l ++ [c])).
Definition when (b : bool) (m : M unit) : M unit := if b then m else mret tt.

(** Reading through a pointer that must be valid. *)
Definition deref {A} (heap : State -> list A) (l : loc) : M A :=
  fun s => match heap s !! l with
           | Some a => Some (a, s)
           | None => None
           end.

(** [new T(...)]: allocation is taken to succeed, also for
    [new (nothrow)]; the object gets the next free index of its heap. *)
Definition new_SoundBuffer (b : SoundBuffer) : M loc :=
  l ← gets (fun s => length (buffers s));
  modify (set_buffers (fun h => h ++ [b]));;
  mret l.
Definition new_SoundSource (x : SoundSource) : M loc :=
  l ← gets (fun s => length (sources s));
  modify (set_sources (fun h => h ++ [x]));;
  mret l.
Definition new_AmbientSound (x : AmbientSound) : M loc :=
  l ← gets (fun s => length (ambients s));
  modify (set_ambients (fun h => h ++ [x]));;
  mret l.

(** [alGenBuffers(1, &id)] and [alGenSources(1, &id)]: the device hands out
    the next unused name. *)
Definition al_gen_name : M ALuint :=
  n ← gets al_names;
  modify (set_al_names (n + 1));;
  mret n.

(** Reading [m[key]] from an irrlicht [core::map]: the value of the node
    that [find] returns, an access violation when there is none. *)
Definition map_read (m : State -> gmap string loc) (key : string) : M loc :=
  fun s => match m s !! key with
           | Some v => Some (v, s)
           | None => None
           end.

(** ** Availability *)

(** Modelled from the spec: [isAvailable] is defined in audio.h, which is
    missing.  The spec's Unavailable states are those without a context
    (each failure path of the constructor, and [shutdown], leave
    [m_context] null), so the system is available exactly when [m_context]
    is set. *)
Definition isAvailable (s : State) : bool :=
  match m_context s with
  | Some _ => true
  | None => false
  end.

Section Program.

Variable env : Env.

(** ** Sound buffer *)

Inductive decode_result :=
| DecodeError (partial : list Byte.byte)
| DecodeDone (pcm : list Byte.byte).

(** The do-while loop of [loadOggFile]: one [ov_read] per iteration, a
    negative count aborts, the first [bytes] chars of [array] are appended,
    and the loop goes on while the count is positive. *)
Fixpoint read_loop (rs : list (Z * list Byte.byte)) (buf : list Byte.byte)
  : decode_result :=
  match rs with
  | [] => DecodeDone buf
  | (bytes, array) :: rs' =>
      if bytes <? 0 then DecodeError buf
      else
        let buf' := buf ++ take (Z.to_nat bytes) array in
        if 0 <? bytes then read_loop rs' buf' else DecodeDone buf'
  end.

(** [SoundBuffer::loadOggFile].  The object [snd] is built in a local and
    put on the heap once its members are final (no other allocation happens
    in between); on a decoding error the half-filled object stays
    allocated, as in the source, and its buffer name stays unset (0).
    The upload is modelled on the payload as a list, with its size and the
    rate as they are.  The source passes the address of the first byte of
    the payload, which is there only when the payload is not empty, and the
    device takes the size and the rate as 32-bit [ALsizei]: a statement
    that needs the upload of every stream to be defined, or the size to
    reach the device as it is, assumes [has_samples] of the stream
    ([streams_have_samples], for all of them) or [fits_ALsizei]. *)
Definition loadOggFile (fname : string) : M (option loc) :=
  hit ← gets (fun s => cache s !! fname);
  match hit with
  | Some b =>
      log ("Ogg file " +:+ fname +:+ " loaded from cache");;
      mret (Some b)
  | None =>
      call (ov_fopen_call fname);;
      match ov_fopen env fname with
      | None =>
          log ("Error opening " +:+ fname +:+ " for decoding");;
          mret None
      | Some oggFile =>
          let fmt := if channels oggFile =? 1 then AL_FORMAT_MONO16
                     else AL_FORMAT_STEREO16 in
          let frq := rate oggFile in
          match read_loop (reads oggFile) [] with
          | DecodeError partial =>
              new_SoundBuffer (mkSoundBuffer fmt frq 0 partial);;
              call (ov_clear_call fname);;
              log ("Error decoding " +:+ fname);;
              mret None
          | DecodeDone pcm =>
              id ← al_gen_name;
              call (alGenBuffers_call id);;
              call (alBufferData_call id fmt pcm (Z.of_nat (length pcm)) frq);;
              let error := alGetError env id in
              when (negb (error =? AL_NO_ERROR))
                (log ("OpenAL error: " +:+ alErrorString error
                      +:+ "preparing sound buffer"));;
              log ("Audio file " +:+ fname +:+ " loaded");;
              snd ← new_SoundBuffer (mkSoundBuffer fmt frq id pcm);
              modify (set_cache (insert fname snd));;
              call (ov_clear_call fname);;
              r ← map_read cache fname;
              mret (Some r)
          end
      end
  end.

(** ** Sound sources *)

(** [SoundSource::SoundSource(const SoundBuffer *buf)]; [_SOURCE_CHECK]
    returns before any device call when [buf] is null. *)
Definition SoundSource_ctor (buf : option loc) : M SoundSource :=
  match buf with
  | None => mret (mkSoundSource None false None)
  | Some b =>
      id ← al_gen_name;
      call (alGenSources_call id);;
      sb ← deref buffers b;
      call (alSourcei_call id AL_BUFFER (bufferID sb));;
      call (alSource3f_call id AL_POSITION f32_zero f32_zero f32_zero);;
      call (alSource3f_call id AL_VELOCITY f32_zero f32_zero f32_zero);;
      call (alSourcef_call id AL_ROLLOFF_FACTOR f32_0_7);;
      mret (mkSoundSource (Some b) false (Some id))
  end.

(** Modelled from the spec: the constructor and the methods of
    [AmbientSound] are in audio.h, which is missing.  The wrapper builds
    its own source on the given buffer and starts not playing; [play()] and
    [stop()] are the only transitions of [playing], and reach the device
    only for a source that has a buffer (playback on an empty source is a
    no-op). *)
Definition AmbientSound_ctor (buf : option loc) : M AmbientSound :=
  src ← SoundSource_ctor buf;
  mret (mkAmbientSound src false).

Definition AmbientSound_isPlaying (snd : loc) : M bool :=
  a ← deref ambients snd;
  mret (playing a).

Definition AmbientSound_play (snd : loc) : M unit :=
  a ← deref ambients snd;
  call (play_call snd);;
  match sourceID (source a) with
  | Some id => call (alSourcePlay_call id)
  | None => mret tt
  end;;
  modify (set_ambients (fun h => <[snd := mkAmbientSound (source a) true]> h)).

Definition AmbientSound_stop (snd : loc) : M unit :=
  a ← deref ambients snd;
  call (stop_call snd);;
  match sourceID (source a) with
  | Some id => call (alSourceStop_call id)
  | None => mret tt
  end;;
  modify (set_ambients (fun h => <[snd := mkAmbientSound (source a) false]> h)).

(** ** Audio system *)

Definition shutdown : M unit :=
  call (alc_call "alcMakeContextCurrent" None);;
  ctx ← gets m_context;
  call (alc_call "alcDestroyContext" ctx);;
  modify (set_m_context None);;
  dev ← gets m_device;
  call (alc_call "alcCloseDevice" dev);;
  modify (set_m_device None);;
  log "OpenAL context and devices cleared".

(** [Audio::Audio()].  In the condition of the second [if], [error] is
    assigned the truth value of the comparison, as the source is
    parenthesised.  The last line takes the version from [alGetString], an
    oracle that answers whatever context is current; the device has an
    answer only while a context is current, so nothing is stated about the
    text of that line on the paths that leave none. *)
Definition Audio_ctor : M unit :=
  modify (set_m_device None);;
  modify (set_m_context None);;
  modify (set_m_can_vorbis false);;
  log "Initializing audio system";;
  call (alc_call "alcOpenDevice" None);;
  modify (set_m_device (alcOpenDevice env));;
  match alcOpenDevice env with
  | None => log "No audio device available, audio system not initialized"
  | Some dev =>
      (if alcIsExtensionPresent env
       then log "Vorbis extension present, good";;
            modify (set_m_can_vorbis true)
       else log "Vorbis extension NOT present";;
            modify (set_m_can_vorbis false));;
      call (alc_call "alcCreateContext" (Some dev));;
      modify (set_m_context (alcCreateContext env));;
      error ← match alcCreateContext env with
              | Some _ => mret ALC_NO_ERROR
              | None =>
                  let error := alcGetError env (Some dev) in
                  log ("Unable to initialize audio context, "
                       +:+ "aborting audio initialization"
                       +:+ " (" +:+ alcErrorString error +:+ ")");;
                  call (alc_call "alcCloseDevice" (Some dev));;
                  modify (set_m_device None);;
                  mret error
              end;
      ctx ← gets m_context;
      dev' ← gets m_device;
      call (alc_call "alcMakeContextCurrent" ctx);;
      (if negb (alcMakeContextCurrent env ctx)
       then log ("Error setting audio context, aborting audio initialization"
                 +:+ " (" +:+ alcErrorString error +:+ ")");;
            shutdown
       else
         let error' : ALCenum :=
           if negb (alcGetError env dev' =? ALC_NO_ERROR) then 1 else 0 in
         if negb (error' =? 0)
         then log ("Error setting audio context, aborting audio initialization"
                   +:+ " (" +:+ alcErrorString error' +:+ ")");;
              shutdown
         else mret tt);;
      call (alDistanceModel_call AL_EXPONENT_DISTANCE);;
      dev'' ← gets m_device;
      log ("Audio system initialized: OpenAL " +:+ alGetString_AL_VERSION env
           +:+ ", using " +:+ alcGetString_DEVICE_SPECIFIER env dev'')
  end.

Definition init (path : string) : M unit :=
  (if PathExists env path
   then modify (set_m_path path);;
        log ("Audio: using sound path " +:+ path)
   else log ("WARNING: audio path " +:+ path
             +:+ " not found, sounds will not be available."));;
  a ← AmbientSound_ctor None;
  snd ← new_AmbientSound a;
  modify (set_m_ambient_sound (insert EmptyString snd)).

(** [enum LoaderFormat], held in a [u8]. *)
Definition LOADER_VORBIS : Z := 0.
Definition LOADER_WAV : Z := 1.
Definition LOADER_UNK : Z := 2.

Definition extensions : list string := ["ogg"; "wav"].

(** The [while] loop of [findSoundFile] over the table; [++fmt] wraps as a [u8]. *)
Fixpoint findSoundFile_loop (base : string) (ext : list string) (fmt : Z)
  : string * Z :=
  match ext with
  | [] => (EmptyString, fmt)
  | e :: ext' =>
      let candidate := base +:+ e in
      if PathExists env candidate then (candidate, fmt)
      else findSoundFile_loop base ext' ((fmt + 1) mod 256)
  end.

Definition findSoundFile (basename : string) : M (string * Z) :=
  path ← gets m_path;
  mret (findSoundFile_loop ((path +:+ basename) +:+ ".") extensions LOADER_VORBIS).

Definition loadSound (basename : string) : M (option loc) :=
  avail ← gets isAvailable;
  if negb avail then mret None
  else
    '(fname, fmt) ← findSoundFile basename;
    if bool_decide (fname = EmptyString) then mret None
    else
      log ("Audio file '" +:+ basename +:+ "' found as " +:+ fname);;
      if fmt =? LOADER_VORBIS then loadOggFile fname
      else
        log ("WARNING: no appropriate loader found " +:+ " for audio file "
             +:+ fname);;
        mret None.

Definition getAmbientSound (basename : string) : M (option loc) :=
  avail ← gets isAvailable;
  if negb avail then mret None
  else
    cached ← gets (fun s => m_ambient_sound s !! basename);
    match cached with
    | Some v => mret (Some v)
    | None =>
        data ← loadSound basename;
        match data with
        | None => mret None
        | Some d =>
            a ← AmbientSound_ctor (Some d);
            snd ← new_AmbientSound a;
            modify (set_m_ambient_sound (insert basename snd));;
            mret (Some snd)
        end
    end.

(** [Audio::setAmbient].  The first block yields [None] for the early
    [return] and otherwise the value of [was_playing] after it. *)
Definition setAmbient (slotname basename : string) (autoplay : bool) : M unit :=
  avail ← gets isAvailable;
  if negb avail then mret tt
  else
    snd ← getAmbientSound basename;
    occupant ← gets (fun s => m_ambient_slot s !! slotname);
    cont ← match occupant with
           | Some oldsnd =>
               if bool_decide (Some oldsnd = snd) then mret None
               else
                 was_playing ← AmbientSound_isPlaying oldsnd;
                 when was_playing (AmbientSound_stop oldsnd);;
                 mret (Some was_playing)
           | None => mret (Some autoplay)
           end;
    match cont with
    | None => mret tt
    | Some was_playing =>
        match snd with
        | Some n =>
            when (was_playing || autoplay) (AmbientSound_play n);;
            modify (set_m_ambient_slot (insert slotname n));;
            log ("Ambient " +:+ slotname +:+ " switched to " +:+ basename)
        | None =>
            e ← map_read m_ambient_sound EmptyString;
            modify (set_m_ambient_slot (insert slotname e))
        end
    end.

Definition createSource (sourcename basename : string) : M (option loc) :=
  present ← gets (fun s => m_sound_source s !! sourcename);
  match present with
  | Some v =>
      log ("WARNING: attempt to re-create sound source " +:+ sourcename);;
      mret (Some v)
  | None =>
      data ← loadSound basename;
      when (bool_decide (data = None))
        (log ("Sound source " +:+ sourcename +:+ " not available: "
              +:+ basename +:+ " could not be loaded"));;
      x ← SoundSource_ctor data;
      snd ← new_SoundSource x;
      modify (set_m_sound_source (insert sourcename snd));;
      mret (Some snd)
  end.

Definition getSource (sourcename : string) : M (option loc) :=
  present ← gets (fun s => m_sound_source s !! sourcename);
  match present with
  | Some v => mret (Some v)
  | None =>
      log ("WARNING: attempt to get sound source " +:+ sourcename
           +:+ " before it was created! Creating an empty one");;
      x ← SoundSource_ctor None;
      snd ← new_SoundSource x;
      modify (set_m_sound_source (insert sourcename snd));;
      mret (Some snd)
  end.

Definition updateListener (cam : ICameraSceneNode) (vel : v3f) : M unit :=
  avail ← gets isAvailable;
  if negb avail then mret tt
  else
    let pos := getPosition cam in
    let at_ := getTarget cam in
    let up := getUpVector cam in
    let listener :=
      [ X pos; Y pos; Z_ pos;
        X vel; Y vel; Z_ vel;
        f32_sub (X pos) (X at_); f32_sub (Y pos) (Y at_); f32_sub (Z_ at_) (Z_ pos);
        X up; Y up; Z_ up ] in
    modify (set_m_listener listener);;
    call (alListenerfv_call AL_POSITION (take 3 listener));;
    call (alListenerfv_call AL_VELOCITY (take 3 (drop 3 listener)));;
    call (alListenerfv_call AL_ORIENTATION (drop 6 listener));;
    call (alListenerf_call AL_GAIN f32_0_3).

(** ** Histories: the public operations in any order *)

Inductive Op :=
| op_init (path : string)
| op_findSoundFile (basename : string)
| op_loadSound (basename : string)
| op_loadOggFile (fname : string)
| op_getAmbientSound (basename : string)
| op_setAmbient (slotname basename : string) (autoplay : bool)
| op_createSource (sourcename basename : string)
| op_getSource (sourcename : string)
| op_updateListener (cam : ICameraSceneNode) (vel : v3f)
| op_shutdown.

Definition run_op (o : Op) : M unit :=
  match o with
  | op_init path => init path
  | op_findSoundFile b => findSoundFile b;; mret tt
  | op_loadSound b => loadSound b;; mret tt
  | op_loadOggFile f => loadOggFile f;; mret tt
  | op_getAmbientSound b => getAmbientSound b;; mret tt
  | op_setAmbient sl b ap => setAmbient sl b ap
  | op_createSource n b => createSource n b;; mret tt
  | op_getSource n => getSource n;; mret tt
  | op_updateListener cam vel => updateListener cam vel
  | op_shutdown => shutdown
  end.

Fixpoint run_ops (os : list Op) : M unit :=
  match os with
  | [] => mret tt
  | o :: os' => run_op o;; run_ops os'
  end.

End Program.

(** ** The destructor and the singleton *)

(** [Audio::~Audio()]; [_CHECK_AVAIL] returns before [shutdown()] when the
    system is not available. *)
Definition Audio_dtor : M unit :=
  avail ← gets isAvailable;
  if negb avail then mret tt else shutdown.

(** The static [Audio::m_system] beside the state of the one [Audio]
    object it can point to: null ([false]) or set ([true]). *)
Record Process := mkProcess {
  m_system : bool;
  audio : State
}.

(** [new Audio()]: the members with a default constructor (the search path
    and the three registries) start empty, then the constructor body
    runs. *)
Definition new_Audio (env : Env) : M unit :=
  modify (set_m_path EmptyString);;
  modify (set_m_sound_source (fun _ => ∅));;
  modify (set_m_ambient_sound (fun _ => ∅));;
  modify (set_m_ambient_slot (fun _ => ∅));;
  Audio_ctor env.

(** [Audio::system()]; the pointer it returns is [m_system] of the
    process it leaves. *)
Definition system (env : Env) (p : Process) : option Process :=
  if m_system p then Some p
  else
    match new_Audio env (audio p) with
    | Some (_, s) => Some (mkProcess true s)
    | None => None
    end.

(** * Specification vocabulary *)

Section Specification.

Variable env : Env.

(** The chars one read contributes: the first [bytes] chars of [array]. *)
Definition chunk_data (r : Z * list Byte.byte) : list Byte.byte :=
  take (Z.to_nat r.1) r.2.

(** What a stream that decodes delivers: positive reads [chunks], then the
    end of the stream, a read of zero bytes (listed, or the one past the
    end of the list). *)
Definition reads_until_eos (rs chunks : list (Z * list Byte.byte)) : Prop :=
  Forall (fun r => 0 < r.1) chunks /\
  (rs = chunks \/ exists array rest, rs = chunks ++ (0, array) :: rest).

(** A read reports a negative count, after positive reads only: the loop
    gets to it. *)
Definition negative_read (rs : list (Z * list Byte.byte)) : Prop :=
  exists chunks bytes array rest,
    Forall (fun r => 0 < r.1) chunks /\ bytes < 0 /\
    rs = chunks ++ (bytes, array) :: rest.

(** The format [loadOggFile] picks from the channel count. *)
Definition ogg_format (f : OggVorbis_File) : ALenum :=
  if channels f =? 1 then AL_FORMAT_MONO16 else AL_FORMAT_STEREO16.

(** The line logged after the upload, if the device holds an error. *)
Definition upload_log (error : ALenum) : list string :=
  if negb (error =? AL_NO_ERROR)
  then ["OpenAL error: " +:+ alErrorString error +:+ "preparing sound buffer"]
  else [].

(** ** Relations between the state before and after a computation *)

(** Every run of [m] relates the state before to the state after. *)
Definition steps (R : relation State) {A} (m : M A) : Prop :=
  forall s a s', m s = Some (a, s') -> R s s'.

(** Nothing is ever removed: entries of the decode cache and of the source
    registry stay what they are, and so do the buffer and source objects. *)
Definition extends (s s' : State) : Prop :=
  cache s ⊆ cache s' /\
  buffers s `prefix_of` buffers s' /\
  m_sound_source s ⊆ m_sound_source s' /\
  sources s `prefix_of` sources s'.

(** The source [SoundSource(NULL)] builds. *)
Definition empty_source : SoundSource := mkSoundSource None false None.

(** The device calls of [SoundSource(buf)] on a buffer. *)
Definition source_calls (id : ALuint) (sb : SoundBuffer) : list Call :=
  [ alGenSources_call id;
    alSourcei_call id AL_BUFFER (bufferID sb);
    alSource3f_call id AL_POSITION f32_zero f32_zero f32_zero;
    alSource3f_call id AL_VELOCITY f32_zero f32_zero f32_zero;
    alSourcef_call id AL_ROLLOFF_FACTOR f32_0_7 ].

(** The state after a successful decode of [fname]. *)
Definition decoded_state (fname : string) (f : OggVorbis_File)
    (pcm : list Byte.byte) (st : State) : State :=
  let id := al_names st in
  mkState (<[fname := length (buffers st)]> (cache st))
    (buffers st ++ [mkSoundBuffer (ogg_format f) (rate f) id pcm])
    (sources st) (ambients st) (m_device st) (m_context st)
    (m_can_vorbis st) (m_path st) (m_sound_source st)
    (m_ambient_sound st) (m_ambient_slot st) (m_listener st)
    (infostream st ++ upload_log (alGetError env id)
       ++ ["Audio file " +:+ fname +:+ " loaded"])
    (id + 1)
    (calls st ++ [ov_fopen_call fname; alGenBuffers_call id;
                  alBufferData_call id (ogg_format f) pcm
                    (Z.of_nat (length pcm)) (rate f);
                  ov_clear_call fname]).

(** The four ways [loadOggFile] ends, each with its result and the state it
    leaves. *)
Inductive loadOggFile_outcome (fname : string) (st : State)
  : option loc -> State -> Prop :=
| ogg_cached b :
    cache st !! fname = Some b ->
    loadOggFile_outcome fname st (Some b)
      (set_infostream
         (fun l => l ++ ["Ogg file " +:+ fname +:+ " loaded from cache"]) st)
| ogg_open_error :
    cache st !! fname = None ->
    ov_fopen env fname = None ->
    loadOggFile_outcome fname st None
      (set_infostream
         (fun l => l ++ ["Error opening " +:+ fname +:+ " for decoding"])
         (set_calls (fun l => l ++ [ov_fopen_call fname]) st))
| ogg_decode_error f partial :
    cache st !! fname = None ->
    ov_fopen env fname = Some f ->
    read_loop (reads f) [] = DecodeError partial ->
    loadOggFile_outcome fname st None
      (set_infostream (fun l => l ++ ["Error decoding " +:+ fname])
         (set_calls (fun l => l ++ [ov_clear_call fname])
            (set_buffers
               (fun h => h ++ [mkSoundBuffer (ogg_format f) (rate f) 0 partial])
               (set_calls (fun l => l ++ [ov_fopen_call fname]) st))))
| ogg_decoded f pcm :
    cache st !! fname = None ->
    ov_fopen env fname = Some f ->
    read_loop (reads f) [] = DecodeDone pcm ->
    loadOggFile_outcome fname st (Some (length (buffers st)))
      (decoded_state fname f pcm st).

(** The prefix of the candidates of [findSoundFile]. *)
Definition sound_base (st : State) (basename : string) : string :=
  (m_path st +:+ basename) +:+ ".".

(** The lines [loadSound] logs. *)
Definition found_line (basename fname : string) : string :=
  "Audio file '" +:+ basename +:+ "' found as " +:+ fname.
Definition no_loader_line (fname : string) : string :=
  "WARNING: no appropriate loader found " +:+ " for audio file " +:+ fname.

(** The four ways [loadSound] ends. *)
Inductive loadSound_outcome (basename : string) (st : State)
  : option loc -> State -> Prop :=
| sound_unavailable :
    isAvailable st = false ->
    loadSound_outcome basename st None st
| sound_not_found :
    isAvailable st = true ->
    PathExists env (sound_base st basename +:+ "ogg") = false ->
    PathExists env (sound_base st basename +:+ "wav") = false ->
    loadSound_outcome basename st None st
| sound_no_loader :
    isAvailable st = true ->
    PathExists env (sound_base st basename +:+ "ogg") = false ->
    PathExists env (sound_base st basename +:+ "wav") = true ->
    loadSound_outcome basename st None
      (set_infostream
         (fun l => l ++ [no_loader_line (sound_base st basename +:+ "wav")])
         (set_infostream
            (fun l => l ++ [found_line basename (sound_base st basename +:+ "wav")])
            st))
| sound_vorbis r st' :
    isAvailable st = true ->
    PathExists env (sound_base st basename +:+ "ogg") = true ->
    loadOggFile_outcome (sound_base st basename +:+ "ogg")
      (set_infostream
         (fun l => l ++ [found_line basename (sound_base st basename +:+ "ogg")])
         st) r st' ->
    loadSound_outcome basename st r st'.

(** ** What a lookup leaves alone *)

(** The calls on ambient sounds, as opposed to decoder and device calls. *)
Definition is_playback (c : Call) : bool :=
  match c with
  | play_call _ | stop_call _ => true
  | _ => false
  end.

(** The [play()] and [stop()] calls among the calls made. *)
Definition playback (cs : list Call) : list Call := List.filter is_playback cs.

(** The [Audio] object and the source and ambient objects are the same. *)
Definition same_audio (s s' : State) : Prop :=
  sources s' = sources s /\ ambients s' = ambients s /\
  m_device s' = m_device s /\ m_context s' = m_context s /\
  m_can_vorbis s' = m_can_vorbis s /\ m_path s' = m_path s /\
  m_sound_source s' = m_sound_source s /\
  m_ambient_sound s' = m_ambient_sound s /\
  m_ambient_slot s' = m_ambient_slot s /\ m_listener s' = m_listener s.

(** Every cached pointer points to a buffer object. *)
Definition wf_cache (s : State) : Prop :=
  map_Forall (fun _ b => is_Some (buffers s !! b)) (cache s).

(** What [loadOggFile] and [loadSound] guarantee whatever the outcome. *)
Record load_frame (st : State) (r : option loc) (st' : State) : Prop := {
  lf_audio : same_audio st st';
  lf_quiet : playback (calls st') = playback (calls st);
  lf_wf : wf_cache st -> wf_cache st';
  lf_some : forall d, r = Some d -> exists fname, cache st' !! fname = Some d;
  lf_none : r = None -> cache st' = cache st /\ al_names st' = al_names st
}.

(** The ambient sound object and its methods *)

(** The device calls of [play()] and [stop()]: none on an empty source. *)
Definition device_play (a : AmbientSound) : list Call :=
  match sourceID (source a) with
  | Some id => [alSourcePlay_call id]
  | None => []
  end.
Definition device_stop (a : AmbientSound) : list Call :=
  match sourceID (source a) with
  | Some id => [alSourceStop_call id]
  | None => []
  end.

(** The object [init] registers under the empty name. *)
Definition placeholder : AmbientSound := mkAmbientSound empty_source false.

(** The state after [new AmbientSound(data)] is registered under
    [basename]. *)
Definition ambient_created (basename : string) (d : loc) (sb : SoundBuffer)
    (st : State) : State :=
  set_m_ambient_sound (insert basename (length (ambients st)))
    (set_ambients
       (fun h => h ++ [mkAmbientSound
                         (mkSoundSource (Some d) false (Some (al_names st)))
                         false])
       (set_calls (fun l => l ++ source_calls (al_names st) sb)
          (set_al_names (al_names st + 1) st))).

(** The four ways [getAmbientSound] ends. *)
Inductive getAmbientSound_outcome (basename : string) (st : State)
  : option loc -> State -> Prop :=
| ambient_unavailable :
    isAvailable st = false ->
    getAmbientSound_outcome basename st None st
| ambient_cached v :
    isAvailable st = true ->
    m_ambient_sound st !! basename = Some v ->
    getAmbientSound_outcome basename st (Some v) st
| ambient_unloadable st1 :
    isAvailable st = true ->
    m_ambient_sound st !! basename = None ->
    loadSound_outcome basename st None st1 ->
    getAmbientSound_outcome basename st None st1
| ambient_new d st1 sb :
    isAvailable st = true ->
    m_ambient_sound st !! basename = None ->
    loadSound_outcome basename st (Some d) st1 ->
    buffers st1 !! d = Some sb ->
    getAmbientSound_outcome basename st (Some (length (ambients st1)))
      (ambient_created basename d sb st1).

(** ** Switching an ambient slot *)

(** [oldsnd->isPlaying()] for the occupant of the slot, false for a free
    slot. *)
Definition occupant_playing (slotname : string) (st : State) : bool :=
  match m_ambient_slot st !! slotname with
  | Some old =>
      match ambients st !! old with
      | Some a => playing a
      | None => false
      end
  | None => false
  end.

(** [oldsnd->stop()] on the occupant of the slot, when it is playing. *)
Definition stop_occupant (slotname : string) (st : State) : State :=
  match m_ambient_slot st !! slotname with
  | Some old =>
      match ambients st !! old with
      | Some a =>
          if playing a
          then set_ambients (fun h => <[old := mkAmbientSound (source a) false]> h)
                 (set_calls (fun l => l ++ stop_call old :: device_stop a) st)
          else st
      | None => st
      end
  | None => st
  end.

(** [snd->play()] *)
Definition play_sound (n : loc) (st : State) : State :=
  match ambients st !! n with
  | Some a =>
      set_ambients (fun h => <[n := mkAmbientSound (source a) true]> h)
        (set_calls (fun l => l ++ play_call n :: device_play a) st)
  | None => st
  end.

(** The line [setAmbient] logs when it installs a resolved sound. *)
Definition switched_line (slotname basename : string) : string :=
  "Ambient " +:+ slotname +:+ " switched to " +:+ basename.

(** The state [setAmbient] leaves when it does not return early: [snd] is
    what [getAmbientSound] returned, [e] the placeholder registered under
    the empty name, [sa] the state after the lookup. *)
Definition switched (slotname basename : string) (autoplay : bool)
    (snd : option loc) (e : loc) (sa : State) : State :=
  let s1 := stop_occupant slotname sa in
  match snd with
  | Some n =>
      set_infostream (fun l => l ++ [switched_line slotname basename])
        (set_m_ambient_slot (insert slotname n)
           (if occupant_playing slotname sa || autoplay
            then play_sound n s1 else s1))
  | None => set_m_ambient_slot (insert slotname e) s1
  end.

(** Everything but the ambient objects, the calls and the log is the
    same, and no ambient object appeared or disappeared. *)
Definition same_but_playing (s s' : State) : Prop :=
  cache s' = cache s /\ buffers s' = buffers s /\ sources s' = sources s /\
  m_device s' = m_device s /\ m_context s' = m_context s /\
  m_can_vorbis s' = m_can_vorbis s /\ m_path s' = m_path s /\
  m_sound_source s' = m_sound_source s /\
  m_ambient_sound s' = m_ambient_sound s /\
  m_listener s' = m_listener s /\ al_names s' = al_names s /\
  length (ambients s') = length (ambients s).

(** ** The ambient registries *)

(** Every pointer held by the cache, the ambient registry and the slots
    points to an object. *)
Definition wf (s : State) : Prop :=
  wf_cache s /\
  map_Forall (fun _ a => is_Some (ambients s !! a)) (m_ambient_sound s) /\
  map_Forall (fun _ a => is_Some (ambients s !! a)) (m_ambient_slot s).

(** What [getAmbientSound] guarantees whatever the outcome. *)
Record ambient_frame (basename : string) (st : State) (r : option loc)
    (st' : State) : Prop := {
  af_slot : m_ambient_slot st' = m_ambient_slot st;
  af_context : m_context st' = m_context st;
  af_path : m_path st' = m_path st;
  af_ambients : ambients st `prefix_of` ambients st';
  af_sounds : m_ambient_sound st ⊆ m_ambient_sound st';
  af_quiet : playback (calls st') = playback (calls st);
  af_wf : wf st -> wf st';
  af_some : forall n, r = Some n -> m_ambient_sound st' !! basename = Some n;
  af_none : r = None ->
            m_ambient_sound st' = m_ambient_sound st /\
            ambients st' = ambients st /\ cache st' = cache st
}.

(** The line a cache hit logs. *)
Definition cached_line (fname : string) : string :=
  "Ogg file " +:+ fname +:+ " loaded from cache".

(** The warning of [createSource] on a registered name. *)
Definition recreate_line (sourcename : string) : string :=
  "WARNING: attempt to re-create sound source " +:+ sourcename.

(** Once unavailable, always unavailable: no operation sets [m_context]. *)
Definition stays_down (s s' : State) : Prop :=
  isAvailable s = false -> isAvailable s' = false.

(** The line [createSource] logs when the sound could not be loaded. *)
Definition not_available_line (sourcename basename : string) : string :=
  "Sound source " +:+ sourcename +:+ " not available: "
    +:+ basename +:+ " could not be loaded".

(** The [playing] flag of an ambient sound object. *)
Definition is_playing (l : nat) (s : State) : bool :=
  match ambients s !! l with
  | Some a => playing a
  | None => false
  end.

(** The [stop()] that [setAmbient] issues on the occupant of the slot. *)
Definition occupant_stops (slotname : string) (st : State) : list Call :=
  match m_ambient_slot st !! slotname with
  | Some old => if occupant_playing slotname st then [stop_call old] else []
  | None => []
  end.

(** The [play()] that [setAmbient] issues on the sound it installs. *)
Definition sound_plays (slotname : string) (autoplay : bool)
    (snd : option nat) (st : State) : list Call :=
  match snd with
  | Some n => if occupant_playing slotname st || autoplay then [play_call n] else []
  | None => []
  end.

(** The placeholder registered under the empty name is never removed. *)
Definition keeps_placeholder (s s' : State) : Prop :=
  is_Some (m_ambient_sound s !! EmptyString) ->
  is_Some (m_ambient_sound s' !! EmptyString).

(** Well-formedness is kept. *)
Definition keeps_wf (s s' : State) : Prop := wf s -> wf s'.

(** The operation registers a source under [name] through
    [createSource]. *)
Definition creates (name : string) (o : Op) : Prop :=
  match o with
  | op_createSource n _ => n = name
  | _ => False
  end.

Definition never_created (name : string) (os : list Op) : Prop :=
  Forall (fun o => ~ creates name o) os.

(** The entry of the source registry under [name] is the same. *)
Definition same_entry (name : string) (s s' : State) : Prop :=
  m_sound_source s' !! name = m_sound_source s !! name.

(** A name registered without [createSource] names an empty source. *)
Definition placeholder_entry (name : string) (s : State) : Prop :=
  forall l, m_sound_source s !! name = Some l ->
            sources s !! l = Some empty_source.

End Specification.

(** ** What a lookup by name depends on *)

(** The context and the search path are what they were. *)
Definition same_lookup (s s' : State) : Prop :=
  m_context s' = m_context s /\ m_path s' = m_path s.


(** ** Streams with samples, sizes that fit *)

(** The stream delivers bytes before it ends: its first read does not
    report the end of the stream, and when it reports bytes the array
    holds some.  The payload [loadOggFile] uploads is then not empty. *)
Definition has_samples (f : OggVorbis_File) : Prop :=
  match reads f with
  | (bytes, array) :: _ => bytes <> 0 /\ (0 < bytes -> array <> [])
  | [] => False
  end.

(** Every stream the decoder opens has samples. *)
Definition streams_have_samples (env : Env) : Prop :=
  forall fname f, ov_fopen env fname = Some f -> has_samples f.

(** The value reaches the device unchanged as an [ALsizei], a 32-bit
    [int]. *)
Definition fits_ALsizei (z : Z) : Prop := -2147483648 <= z <= 2147483647.

(** The call is not the upload of an empty payload, for which the source
    takes the address of a byte that is not there. *)
Definition upload_ok (c : Call) : Prop :=
  match c with
  | alBufferData_call _ _ data _ _ => data <> []
  | _ => True
  end.

(** No empty payload has been uploaded. *)
Definition uploads_ok (s : State) : Prop := Forall upload_ok (calls s).

(** No empty payload is uploaded. *)
Definition keeps_uploads (s s' : State) : Prop := uploads_ok s -> uploads_ok s'.

(** ** The lifetime of the device *)



(** The device and the context handles are what they were. *)
Definition same_handles (s s' : State) : Prop :=
  m_device s' = m_device s /\ m_context s' = m_context s.

(** The calls of [shutdown()] on handles [dev] and [ctx]. *)
Definition shutdown_calls (dev ctx : option Z) : list Call :=
  [ alc_call "alcMakeContextCurrent" None;
    alc_call "alcDestroyContext" ctx;
    alc_call "alcCloseDevice" dev ].

(** [n] successive calls of [Audio::system()]. *)
Fixpoint system_calls (env : Env) (n : nat) (p : Process) : option Process :=
  match n with
  | O => Some p
  | S n' =>
      match system env p with
      | Some p' => system_calls env n' p'
      | None => None
      end
  end.

(** The calls that open the device among the calls made. *)
Definition device_opens (cs : list Call) : nat :=
  length (List.filter (fun c => match c with
                                | alc_call fn _ => bool_decide (fn = "alcOpenDevice")
                                | _ => false
                                end) cs).

(** ** Decoding *)

(** The bytes the reads report in total. *)
Definition total_bytes (chunks : list (Z * list Byte.byte)) : Z :=
  foldr (fun r acc => r.1 + acc) 0 chunks.

(** The calls that open [fname] for decoding among the calls made. *)
Definition decoder_opens (fname : string) (cs : list Call) : nat :=
  length (List.filter (fun c => match c with
                                | ov_fopen_call f => bool_decide (f = fname)
                                | _ => false
                                end) cs).

(** ** Ambient sounds over a history *)

(** The ambient sounds registered under a name other than the empty one
    stay registered, with the same object. *)
Definition keeps_ambient_names (s s' : State) : Prop :=
  forall k v, k <> EmptyString ->
              m_ambient_sound s !! k = Some v -> m_ambient_sound s' !! k = Some v.

(** ** The listener and the unavailable system *)

(** The twelve values [updateListener] stores: position, velocity, the
    direction and the up vector. *)
Definition listener_vector (cam : ICameraSceneNode) (vel : v3f) : list f32 :=
  let pos := getPosition cam in
  let at_ := getTarget cam in
  let up := getUpVector cam in
  [ X pos; Y pos; Z_ pos;
    X vel; Y vel; Z_ vel;
    f32_sub (X pos) (X at_); f32_sub (Y pos) (Y at_); f32_sub (Z_ at_) (Z_ pos);
    X up; Y up; Z_ up ].

(** The operation is an [updateListener]. *)
Definition updates_listener (o : Op) : Prop :=
  match o with
  | op_updateListener _ _ => True
  | _ => False
  end.

(** The listener values are what they were. *)
Definition same_listener (s s' : State) : Prop := m_listener s' = m_listener s.

(** The operations that reach the decoder and the device only behind
    [_CHECK_AVAIL], or not at all: all but [SoundBuffer::loadOggFile],
    which does not check, and [shutdown]. *)
Definition checks_availability (o : Op) : Prop :=
  match o with
  | op_loadOggFile _ | op_shutdown => False
  | _ => True
  end.

(** Nothing reached the decoder or the device, and nothing was decoded. *)
Definition silent (s s' : State) : Prop :=
  isAvailable s' = false /\ calls s' = calls s /\ cache s' = cache s /\
  buffers s' = buffers s /\ al_names s' = al_names s /\
  m_ambient_slot s' = m_ambient_slot s /\ m_listener s' = m_listener s.

(** ** The source objects *)

(** A source object is bound to a buffer object that exists and then holds
    a device name, or it is empty and holds none. *)
Definition source_ok (s : State) (x : SoundSource) : Prop :=
  match m_buffer x with
  | Some d => is_Some (buffers s !! d) /\ is_Some (sourceID x)
  | None => sourceID x = None
  end.

(** Every source object, registered or owned by an ambient sound, is in
    order, and every registered source pointer points to an object. *)
Definition live (s : State) : Prop :=
  Forall (source_ok s) (sources s) /\
  Forall (fun a => source_ok s (source a)) (ambients s) /\
  map_Forall (fun _ l => is_Some (sources s !! l)) (m_sound_source s).

(** The invariant is kept. *)
Definition keeps_live (s s' : State) : Prop := live s -> live s'.

(** * Concrete environments and states *)

(** Three streams: mono in two chunks; one whose second read fails; stereo
    in one chunk, ending with the file. *)
Definition birds_ogg : OggVorbis_File :=
  mkOgg 1 44100 [(2, [Byte.x01; Byte.x02; Byte.x03]); (1, [Byte.x04]); (0, [])].
Definition torn_ogg : OggVorbis_File :=
  mkOgg 2 22050 [(1, [Byte.x05]); (-3, [])].

Definition rain_ogg : OggVorbis_File :=
  mkOgg 2 48000 [(4, [Byte.x10; Byte.x11; Byte.x12; Byte.x13])].

Definition demo_files : list string :=
  ["snd/"; "snd/birds.ogg"; "snd/rain.ogg"; "snd/torn.ogg"; "snd/hiss.ogg";
   "snd/wind.wav"].

(** A machine with a device, on which every upload leaves an error. *)
Definition env_demo : Env :=
  mkEnv (fun p => bool_decide (p ∈ demo_files))
        (fun p => if bool_decide (p = "snd/birds.ogg") then Some birds_ogg
                  else if bool_decide (p = "snd/rain.ogg") then Some rain_ogg
                  else if bool_decide (p = "snd/torn.ogg") then Some torn_ogg
                  else None)
        (Some 7) true (Some 9) (fun _ => true) (fun _ => ALC_NO_ERROR)
        (fun _ => AL_INVALID_VALUE) "1.1" (fun _ => "OpenAL Soft").

(** A machine without an audio device. *)
Definition env_nodev : Env :=
  mkEnv (fun _ => false) (fun _ => None) None false None (fun _ => false)
        (fun _ => ALC_INVALID_DEVICE) (fun _ => AL_NO_ERROR)
        EmptyString (fun _ => EmptyString).

(** The state a computation leaves. *)
Definition run_from {A} (m : M A) (s : State) : State :=
  match m s with
  | Some (_, s') => s'
  | None => s
  end.

(** After the constructor and [init], with and without a device. *)
Definition st_demo : State :=
  Eval vm_compute in
    run_from (Audio_ctor env_demo ≫= fun _ => init env_demo "snd/")
      (process_start (replicate 12 f32_zero)).

Definition st_nodev : State :=
  Eval vm_compute in
    run_from (Audio_ctor env_nodev ≫= fun _ => init env_nodev "snd/")
      (process_start (replicate 12 f32_zero)).

Definition st_birds : State :=
  Eval vm_compute in run_from (loadOggFile env_demo "snd/birds.ogg") st_demo.

Definition st_birds_loaded : State :=
  Eval vm_compute in run_from (loadSound env_demo "birds") st_demo.

Definition st_steps : State :=
  Eval vm_compute in run_from (createSource env_demo "steps" "birds") st_demo.

(** The placeholder is playing: a slot was assigned the empty name with
    autoplay. *)
Definition st_hum : State :=
  Eval vm_compute in run_from (setAmbient env_demo "menu" EmptyString true) st_demo.

Definition st_ghost : State :=
  Eval vm_compute in
    run_from (run_ops env_demo [op_getSource "ghost"; op_createSource "steps" "birds"])
      st_demo.

Definition ghost_history : list Op :=
  [op_init "snd/"; op_getSource "ghost"; op_createSource "steps" "birds"].

(** C1 as stated, for one call: null is returned and the cache and the
    registries are what they were. *)
Definition returns_null_untouched (m : M (option nat)) (st : State) : Prop :=
  exists st', m st = Some (None, st') /\
              cache st' = cache st /\
              m_sound_source st' = m_sound_source st /\
              m_ambient_sound st' = m_ambient_sound st /\
              m_ambient_slot st' = m_ambient_slot st.

(** C8 as stated: the second of two identical calls leaves the occupant
    and issues neither [stop()] nor [play()]. *)
Definition second_call_is_noop (env : Env) (slotname basename : string)
    (autoplay : bool) (st : State) : Prop :=
  forall st1 st2,
    setAmbient env slotname basename autoplay st = Some (tt, st1) ->
    setAmbient env slotname basename autoplay st1 = Some (tt, st2) ->
    m_ambient_slot st2 = m_ambient_slot st1 /\
    playback (calls st2) = playback (calls st1).

Definition st_hum1 : State :=
  Eval vm_compute in run_from (setAmbient env_demo "cave" "drip" false) st_hum.
Definition st_hum2 : State :=
  Eval vm_compute in run_from (setAmbient env_demo "cave" "drip" false) st_hum1.

(** The positive reads of [birds_ogg]. *)
Definition birds_chunks : list (Z * list Byte.byte) :=
  [(2, [Byte.x01; Byte.x02; Byte.x03]); (1, [Byte.x04])].

(** The slot [weather] holds the rain sound, playing. *)
Definition st_rain : State :=
  Eval vm_compute in run_from (setAmbient env_demo "weather" "rain" true) st_demo.


(** A history that ends with [shutdown], and the state it leaves. *)
Definition closing_history : list Op :=
  [op_init "snd/"; op_setAmbient "weather" "rain" true; op_shutdown].

Definition st_closed : State :=
  Eval vm_compute in
    run_from (Audio_ctor env_demo ≫= fun _ => run_ops env_demo closing_history)
      (process_start (replicate 12 f32_zero)).

(** A process in which [Audio::system()] has not been called. *)
Definition process_nodev : Process :=
  mkProcess false (process_start (replicate 12 f32_zero)).





(** The rain sound is registered. *)
Definition st_rain_registered : State :=
  Eval vm_compute in run_from (getAmbientSound env_demo "rain") st_demo.

(** The slots [weather] and [cave] both hold the rain sound, playing. *)
Definition st_shared : State :=
  Eval vm_compute in run_from (setAmbient env_demo "cave" "rain" false) st_rain.

(** A camera at (1, 2, 3) looking at (1, 2, 4), and a velocity. *)
Definition f32_1 : f32 := S754_finite false 8388608 (-23).
Definition f32_2 : f32 := S754_finite false 8388608 (-22).
Definition f32_3 : f32 := S754_finite false 12582912 (-22).
Definition f32_4 : f32 := S754_finite false 8388608 (-21).

Definition cam_demo : ICameraSceneNode :=
  mkCamera (mk_v3f f32_1 f32_2 f32_3) (mk_v3f f32_1 f32_2 f32_4)
    (mk_v3f f32_zero f32_1 f32_zero).

Definition vel_demo : v3f := mk_v3f f32_zero f32_zero f32_zero.

Definition st_listening : State :=
  Eval vm_compute in
    run_from (run_ops env_demo [op_updateListener cam_demo vel_demo;
                                op_getSource "ghost"]) st_demo.

(** Operations on the machine without a device. *)
Definition nodev_history : list Op :=
  [op_createSource "steps" "birds"; op_setAmbient "weather" "rain" true;
   op_updateListener cam_demo vel_demo; op_loadSound "birds"].

Definition st_nodev_after : State :=
  Eval vm_compute in run_from (run_ops env_nodev nodev_history) st_nodev.

(** The machine with a device after the constructor, before [init]. *)
Definition st_constructed : State :=
  Eval vm_compute in
    run_from (Audio_ctor env_demo) (process_start (replicate 12 f32_zero)).

(** * Proofs *)

Ltac state_simpl :=
  cbv beta iota delta
    [set_cache set_buffers set_sources set_ambients set_m_device
     set_m_context set_m_can_vorbis set_m_path set_m_sound_source
     set_m_ambient_sound set_m_ambient_slot set_m_listener set_infostream
     set_al_names set_calls
     cache buffers sources ambients m_device m_context m_can_vorbis m_path
     m_sound_source m_ambient_sound m_ambient_slot m_listener infostream
     al_names calls] in *.

Ltac munfold :=
  unfold new_SoundBuffer, new_SoundSource, new_AmbientSound, al_gen_name,
    log, call, when, crash, deref, map_read in *;
  unfold gets, modify in *;
  unfold mbind, M_bind, mret, M_ret in *;
  cbv beta iota in *;
  state_simpl.

(** ** The decoding loop and the equations of [loadOggFile] *)

Section LoadOgg.
Variable env : Env.

Lemma read_loop_done rs chunks acc :
  reads_until_eos rs chunks ->
  read_loop rs acc = DecodeDone (acc ++ concat (map chunk_data chunks)).
Proof.
  intros [Hpos Hrs]. revert rs acc Hrs.
  induction Hpos as [|[n a] chunks Hn Hpos IH]; intros rs acc Hrs.
  - destruct Hrs as [-> | (array & rest & ->)]; simpl.
    + by rewrite app_nil_r.
    + by rewrite !app_nil_r.
  - simpl in Hn.
    assert (Hrs' : exists rs', rs = (n, a) :: rs' /\
      (rs' = chunks \/ exists array rest, rs' = chunks ++ (0, array) :: rest)).
    { destruct Hrs as [-> | (array & rest & ->)]; eexists; split; eauto. }
    destruct Hrs' as (rs' & -> & Hrs'). simpl.
    destruct (Z.ltb_spec n 0); [lia|].
    destruct (Z.ltb_spec 0 n); [|lia].
    rewrite (IH rs' _ Hrs'). unfold chunk_data at 2. simpl.
    by rewrite app_assoc.
Qed.

Lemma read_loop_error rs acc :
  negative_read rs -> exists partial, read_loop rs acc = DecodeError partial.
Proof.
  intros (chunks & bytes & array & rest & Hpos & Hneg & ->). revert acc.
  induction Hpos as [|[n a] chunks Hn Hpos IH]; intros acc; simpl.
  - destruct (Z.ltb_spec bytes 0); [eauto|lia].
  - simpl in Hn. destruct (Z.ltb_spec n 0); [lia|].
    destruct (Z.ltb_spec 0 n); [|lia]. apply IH.
Qed.

Lemma read_loop_inv rs acc :
  match read_loop rs acc with
  | DecodeDone pcm =>
      exists chunks, reads_until_eos rs chunks /\
                     pcm = acc ++ concat (map chunk_data chunks)
  | DecodeError _ => negative_read rs
  end.
Proof.
  revert acc. induction rs as [|[n a] rs IH]; intros acc; simpl.
  - exists []. split; [split; [constructor|by left]|]. simpl. by rewrite app_nil_r.
  - destruct (Z.ltb_spec n 0).
    + exists [], n, a, rs. split; [constructor|]. done.
    + destruct (Z.ltb_spec 0 n).
      * specialize (IH (acc ++ take (Z.to_nat n) a)).
        destruct (read_loop rs (acc ++ take (Z.to_nat n) a)).
        -- destruct IH as (chunks & bytes & array & rest & Hpos & Hneg & ->).
           exists ((n, a) :: chunks), bytes, array, rest.
           split; [by constructor|]. done.
        -- destruct IH as (chunks & [Hpos Hrs] & ->).
           exists ((n, a) :: chunks). split.
           ++ split; [by constructor|].
              destruct Hrs as [-> | (array & rest & ->)]; [by left|right; eauto].
           ++ simpl. unfold chunk_data at 2. simpl. by rewrite app_assoc.
      * assert (n = 0) as -> by lia.
        exists []. split; [split; [constructor|right; eauto]|].
        simpl. by rewrite !app_nil_r.
Qed.

Lemma loadOggFile_hit fname st b :
  cache st !! fname = Some b ->
  loadOggFile env fname st =
    Some (Some b,
          set_infostream
            (fun l => l ++ ["Ogg file " +:+ fname +:+ " loaded from cache"]) st).
Proof. intros H. unfold loadOggFile. munfold. by rewrite H. Qed.

Lemma loadOggFile_open_error fname st :
  cache st !! fname = None ->
  ov_fopen env fname = None ->
  loadOggFile env fname st =
    Some (None,
          set_infostream
            (fun l => l ++ ["Error opening " +:+ fname +:+ " for decoding"])
            (set_calls (fun l => l ++ [ov_fopen_call fname]) st)).
Proof. intros H1 H2. unfold loadOggFile. munfold. by rewrite H1, H2. Qed.

Lemma loadOggFile_decode_error fname st f partial :
  cache st !! fname = None ->
  ov_fopen env fname = Some f ->
  read_loop (reads f) [] = DecodeError partial ->
  loadOggFile env fname st =
    Some (None,
          set_infostream (fun l => l ++ ["Error decoding " +:+ fname])
            (set_calls (fun l => l ++ [ov_clear_call fname])
              (set_buffers
                 (fun h => h ++ [mkSoundBuffer (ogg_format f) (rate f) 0 partial])
                 (set_calls (fun l => l ++ [ov_fopen_call fname]) st)))).
Proof. intros H1 H2 H3. unfold loadOggFile. munfold. by rewrite H1, H2, H3. Qed.

Lemma loadOggFile_decoded fname st f pcm :
  cache st !! fname = None ->
  ov_fopen env fname = Some f ->
  read_loop (reads f) [] = DecodeDone pcm ->
  let id := al_names st in
  let snd := length (buffers st) in
  loadOggFile env fname st =
    Some (Some snd,
          mkState (<[fname := snd]> (cache st))
            (buffers st ++ [mkSoundBuffer (ogg_format f) (rate f) id pcm])
            (sources st) (ambients st) (m_device st) (m_context st)
            (m_can_vorbis st) (m_path st) (m_sound_source st)
            (m_ambient_sound st) (m_ambient_slot st) (m_listener st)
            (infostream st ++ upload_log (alGetError env id)
               ++ ["Audio file " +:+ fname +:+ " loaded"])
            (id + 1)
            (calls st ++ [ov_fopen_call fname; alGenBuffers_call id;
                          alBufferData_call id (ogg_format f) pcm
                            (Z.of_nat (length pcm)) (rate f);
                          ov_clear_call fname])).
Proof.
  intros H1 H2 H3. unfold loadOggFile. munfold. rewrite H1, H2, H3.
  unfold upload_log. destruct (negb _); cbv beta iota; state_simpl;
    rewrite lookup_insert_eq; repeat rewrite <- app_assoc; reflexivity.
Qed.

End LoadOgg.

(** ** Rules for [steps] *)

Section Steps.
Context (R : relation State) `{!PreOrder R}.

Lemma steps_ret {A} (a : A) : steps R (mret a).
Proof. intros s a' s' [= _ <-]. reflexivity. Qed.

Lemma steps_bind {A B} (m : M A) (k : A -> M B) :
  steps R m -> (forall a, steps R (k a)) -> steps R (m ≫= k).
Proof.
  intros Hm Hk s b s' Hrun. unfold mbind, M_bind in Hrun.
  destruct (m s) as [[a s1]|] eqn:E; [|done].
  transitivity s1; [by eapply Hm | by eapply Hk].
Qed.

Lemma steps_gets {A} (f : State -> A) : steps R (gets f).
Proof. intros s a s' [= _ <-]. reflexivity. Qed.

Lemma steps_crash {A} : steps R (@crash A).
Proof. intros s a s' [=]. Qed.

Lemma steps_deref {A} (heap : State -> list A) l : steps R (deref heap l).
Proof.
  intros s a s' Hrun. unfold deref in Hrun.
  destruct (heap s !! l); [|done]. injection Hrun as _ <-. reflexivity.
Qed.

Lemma steps_map_read m key : steps R (map_read m key).
Proof.
  intros s a s' Hrun. unfold map_read in Hrun.
  destruct (m s !! key); [|done]. injection Hrun as _ <-. reflexivity.
Qed.

Lemma steps_modify (f : State -> State) :
  (forall s, R s (f s)) -> steps R (modify f).
Proof. intros Hf s a s' [= _ <-]. apply Hf. Qed.

Lemma steps_when (b : bool) (m : M unit) : steps R m -> steps R (when b m).
Proof. destruct b; [done|]. intros _. apply steps_ret. Qed.

End Steps.

Lemma extends_refl s : extends s s.
Proof. unfold extends. split_and!; reflexivity. Qed.

Lemma extends_trans s1 s2 s3 : extends s1 s2 -> extends s2 s3 -> extends s1 s3.
Proof.
  intros (?&?&?&?) (?&?&?&?). unfold extends. split_and!; by etrans.
Qed.

#[global] Instance extends_preorder : PreOrder extends.
Proof. split; [exact extends_refl | exact extends_trans]. Qed.

Lemma extends_same s s' :
  cache s' = cache s -> buffers s' = buffers s ->
  m_sound_source s' = m_sound_source s -> sources s' = sources s ->
  extends s s'.
Proof. intros E1 E2 E3 E4. unfold extends. by rewrite E1, E2, E3, E4. Qed.

Ltac steps_step :=
  lazymatch goal with
  | |- steps _ (mret _) => apply (steps_ret _)
  | |- steps _ (gets _) => apply (steps_gets _)
  | |- steps _ crash => apply (steps_crash _)
  | |- steps _ (deref _ _) => apply (steps_deref _)
  | |- steps _ (map_read _ _) => apply (steps_map_read _)
  | |- steps _ (when _ _) => apply (steps_when _)
  | |- steps _ (_ ≫= _) => apply (steps_bind _); [|intros ?]
  | |- steps _ (match ?x with _ => _ end) => destruct x
  end.

Ltac steps_same :=
  lazymatch goal with
  | |- steps _ (modify _) =>
      apply (steps_modify _); intros ?; apply extends_same; reflexivity
  end.

Create HintDb ext.

(** ** Nothing is removed: [extends] along the operations *)

Section Extends.
Variable env : Env.

Lemma extends_log line : steps extends (log line).
Proof. unfold log. steps_same. Qed.

Lemma extends_call c : steps extends (call c).
Proof. unfold call. steps_same. Qed.

Lemma extends_al_gen_name : steps extends al_gen_name.
Proof. unfold al_gen_name. repeat steps_step. steps_same. Qed.

Lemma extends_new_SoundBuffer b : steps extends (new_SoundBuffer b).
Proof.
  unfold new_SoundBuffer. repeat steps_step.
  apply (steps_modify _). intros s.
  unfold extends. split_and!; try reflexivity. by apply prefix_app_r.
Qed.

Lemma extends_new_SoundSource x : steps extends (new_SoundSource x).
Proof.
  unfold new_SoundSource. repeat steps_step.
  apply (steps_modify _). intros s.
  unfold extends. split_and!; try reflexivity. by apply prefix_app_r.
Qed.

Lemma extends_new_AmbientSound x : steps extends (new_AmbientSound x).
Proof. unfold new_AmbientSound. repeat steps_step. steps_same. Qed.

Hint Resolve extends_log extends_call extends_al_gen_name
  extends_new_SoundBuffer extends_new_SoundSource extends_new_AmbientSound
  : ext.

Ltac ext_bind :=
  repeat first [ steps_step | steps_same | solve [auto with ext] ].

Lemma extends_loadOggFile fname : steps extends (loadOggFile env fname).
Proof.
  intros s r s' Hrun.
  destruct (cache s !! fname) as [b|] eqn:Hc.
  { rewrite (loadOggFile_hit env _ _ _ Hc) in Hrun. injection Hrun as _ <-.
    by apply extends_same. }
  destruct (ov_fopen env fname) as [f|] eqn:Ho.
  2:{ rewrite (loadOggFile_open_error env _ _ Hc Ho) in Hrun.
      injection Hrun as _ <-. by apply extends_same. }
  destruct (read_loop (reads f) []) as [partial|pcm] eqn:Hr.
  - rewrite (loadOggFile_decode_error env _ _ _ _ Hc Ho Hr) in Hrun.
    injection Hrun as _ <-. unfold extends. split_and!; try reflexivity.
    by apply prefix_app_r.
  - rewrite (loadOggFile_decoded env _ _ _ _ Hc Ho Hr) in Hrun.
    injection Hrun as _ <-. unfold extends. split_and!; try reflexivity.
    + by apply insert_subseteq.
    + by apply prefix_app_r.
Qed.

Lemma extends_findSoundFile b : steps extends (findSoundFile env b).
Proof. unfold findSoundFile. ext_bind. Qed.

Lemma extends_loadSound b : steps extends (loadSound env b).
Proof.
  pose proof extends_loadOggFile. pose proof extends_findSoundFile.
  unfold loadSound. ext_bind.
Qed.

Lemma extends_SoundSource_ctor buf : steps extends (SoundSource_ctor buf).
Proof. unfold SoundSource_ctor. ext_bind. Qed.

Lemma extends_AmbientSound_ctor buf : steps extends (AmbientSound_ctor buf).
Proof. pose proof extends_SoundSource_ctor. unfold AmbientSound_ctor. ext_bind. Qed.

Lemma extends_AmbientSound_isPlaying snd : steps extends (AmbientSound_isPlaying snd).
Proof. unfold AmbientSound_isPlaying. ext_bind. Qed.

Lemma extends_AmbientSound_play snd : steps extends (AmbientSound_play snd).
Proof. unfold AmbientSound_play. ext_bind. Qed.

Lemma extends_AmbientSound_stop snd : steps extends (AmbientSound_stop snd).
Proof. unfold AmbientSound_stop. ext_bind. Qed.

Lemma extends_getAmbientSound b : steps extends (getAmbientSound env b).
Proof.
  pose proof extends_loadSound. pose proof extends_AmbientSound_ctor.
  unfold getAmbientSound. ext_bind.
Qed.

Lemma extends_setAmbient slot b ap : steps extends (setAmbient env slot b ap).
Proof.
  pose proof extends_getAmbientSound. pose proof extends_AmbientSound_isPlaying.
  pose proof extends_AmbientSound_play. pose proof extends_AmbientSound_stop.
  unfold setAmbient. ext_bind.
Qed.

Lemma extends_init path : steps extends (init env path).
Proof. pose proof extends_AmbientSound_ctor. unfold init. ext_bind. Qed.

Lemma extends_shutdown : steps extends shutdown.
Proof. unfold shutdown. ext_bind. Qed.

Lemma extends_updateListener cam vel : steps extends (updateListener cam vel).
Proof. unfold updateListener. ext_bind. Qed.

End Extends.

(** ** The equations of [getSource] and [createSource] *)

Section Sources.
Variable env : Env.

Lemma getSource_present name st v :
  m_sound_source st !! name = Some v ->
  getSource name st = Some (Some v, st).
Proof. intros H. unfold getSource. munfold. by rewrite H. Qed.

Lemma getSource_absent name st :
  m_sound_source st !! name = None ->
  getSource name st =
    Some (Some (length (sources st)),
          set_m_sound_source (insert name (length (sources st)))
            (set_sources (fun h => h ++ [empty_source])
               (set_infostream
                  (fun l => l ++ ["WARNING: attempt to get sound source " +:+ name
                     +:+ " before it was created! Creating an empty one"])
                  st))).
Proof. intros H. unfold getSource, SoundSource_ctor. munfold. by rewrite H. Qed.

Lemma createSource_present name b st v :
  m_sound_source st !! name = Some v ->
  createSource env name b st =
    Some (Some v,
          set_infostream
            (fun l => l ++ ["WARNING: attempt to re-create sound source " +:+ name])
            st).
Proof. intros H. unfold createSource. munfold. by rewrite H. Qed.

Lemma createSource_absent_unloadable name b st st1 :
  m_sound_source st !! name = None ->
  loadSound env b st = Some (None, st1) ->
  createSource env name b st =
    Some (Some (length (sources st1)),
          set_m_sound_source (insert name (length (sources st1)))
            (set_sources (fun h => h ++ [empty_source])
               (set_infostream
                  (fun l => l ++ ["Sound source " +:+ name +:+ " not available: "
                     +:+ b +:+ " could not be loaded"])
                  st1))).
Proof.
  intros H1 H2. unfold createSource, SoundSource_ctor. munfold.
  by rewrite H1, H2.
Qed.

Lemma SoundSource_ctor_buffer d st sb :
  buffers st !! d = Some sb ->
  SoundSource_ctor (Some d) st =
    Some (mkSoundSource (Some d) false (Some (al_names st)),
          set_calls (fun l => l ++ source_calls (al_names st) sb)
            (set_al_names (al_names st + 1) st)).
Proof.
  intros H. unfold SoundSource_ctor. munfold. state_simpl. rewrite H.
  unfold source_calls. repeat rewrite <- app_assoc. reflexivity.
Qed.

Lemma createSource_absent_loaded name b st d st1 sb :
  m_sound_source st !! name = None ->
  loadSound env b st = Some (Some d, st1) ->
  buffers st1 !! d = Some sb ->
  createSource env name b st =
    Some (Some (length (sources st1)),
          set_m_sound_source (insert name (length (sources st1)))
            (set_sources
               (fun h => h ++ [mkSoundSource (Some d) false (Some (al_names st1))])
               (set_calls (fun l => l ++ source_calls (al_names st1) sb)
                  (set_al_names (al_names st1 + 1) st1)))).
Proof.
  intros H1 H2 H3. unfold createSource. munfold. rewrite H1, H2.
  rewrite (bool_decide_eq_false_2 (Some d = None)) by done. cbv beta iota.
  rewrite (SoundSource_ctor_buffer _ _ _ H3). reflexivity.
Qed.

End Sources.

(** ** Outcomes of a lookup *)

Section Outcomes.
Variable env : Env.

Lemma loadOggFile_runs fname st :
  exists r st', loadOggFile env fname st = Some (r, st') /\
                loadOggFile_outcome env fname st r st'.
Proof.
  destruct (cache st !! fname) as [b|] eqn:Hc.
  { eexists _, _. split; [by apply loadOggFile_hit | by constructor]. }
  destruct (ov_fopen env fname) as [f|] eqn:Ho.
  2:{ eexists _, _. split; [by apply loadOggFile_open_error | by constructor]. }
  destruct (read_loop (reads f) []) as [partial|pcm] eqn:Hr.
  - eexists _, _. split; [by eapply loadOggFile_decode_error | by econstructor].
  - eexists _, _. split; [by eapply loadOggFile_decoded | by econstructor].
Qed.

Lemma loadOggFile_inv fname st r st' :
  loadOggFile env fname st = Some (r, st') -> loadOggFile_outcome env fname st r st'.
Proof.
  intros Hrun. destruct (loadOggFile_runs fname st) as (r0 & st0 & Hrun0 & Hout).
  rewrite Hrun in Hrun0. by injection Hrun0 as <- <-.
Qed.

Lemma findSoundFile_eq basename st :
  findSoundFile env basename st =
    Some (if PathExists env (sound_base st basename +:+ "ogg")
          then (sound_base st basename +:+ "ogg", LOADER_VORBIS)
          else if PathExists env (sound_base st basename +:+ "wav")
               then (sound_base st basename +:+ "wav", LOADER_WAV)
               else (EmptyString, LOADER_UNK),
          st).
Proof.
  unfold findSoundFile. munfold. unfold sound_base, extensions.
  cbv beta iota zeta delta [findSoundFile_loop]. reflexivity.
Qed.

Lemma append_nonempty (a b : string) : b <> EmptyString -> a +:+ b <> EmptyString.
Proof. intros Hb. destruct a; [done|]. simpl. discriminate. Qed.

Lemma loadSound_runs basename st :
  exists r st', loadSound env basename st = Some (r, st') /\
                loadSound_outcome env basename st r st'.
Proof.
  unfold loadSound.
  destruct (isAvailable st) eqn:Hav.
  2:{ eexists _, _. split; [|by constructor]. munfold. by rewrite Hav. }
  unfold mbind at 1, M_bind at 1, gets at 1. rewrite Hav. cbv beta iota delta [negb].
  unfold mbind at 1, M_bind at 1. rewrite findSoundFile_eq.
  destruct (PathExists env (sound_base st basename +:+ "ogg")) eqn:Hogg.
  - rewrite bool_decide_eq_false_2 by (by apply append_nonempty).
    change (LOADER_VORBIS =? LOADER_VORBIS) with true. cbv beta iota.
    unfold mbind at 1, M_bind at 1, log at 1, modify at 1.
    destruct (loadOggFile_runs (sound_base st basename +:+ "ogg")
      (set_infostream
         (fun l => l ++ [found_line basename (sound_base st basename +:+ "ogg")])
         st)) as (r & st' & Hrun & Hout).
    exists r, st'. split; [exact Hrun | by constructor].
  - destruct (PathExists env (sound_base st basename +:+ "wav")) eqn:Hwav.
    + rewrite bool_decide_eq_false_2 by (by apply append_nonempty).
      change (LOADER_WAV =? LOADER_VORBIS) with false. cbv beta iota.
      eexists _, _. split; [|by apply sound_no_loader]. munfold. reflexivity.
    + rewrite bool_decide_eq_true_2 by done.
      eexists _, _. split; [|by apply sound_not_found]. reflexivity.
Qed.

Lemma loadSound_inv basename st r st' :
  loadSound env basename st = Some (r, st') -> loadSound_outcome env basename st r st'.
Proof.
  intros Hrun. destruct (loadSound_runs basename st) as (r0 & st0 & Hrun0 & Hout).
  rewrite Hrun in Hrun0. by injection Hrun0 as <- <-.
Qed.

End Outcomes.

Ltac same_audio_tac := unfold same_audio; split_and!; reflexivity.

(** ** What the lookups leave alone *)

Section Frames.
Variable env : Env.

Lemma playback_app cs cs' : playback (cs ++ cs') = playback cs ++ playback cs'.
Proof. apply List.filter_app. Qed.

Lemma same_audio_refl s : same_audio s s.
Proof. unfold same_audio. by split_and!. Qed.

Lemma wf_cache_grow s b : wf_cache s ->
  map_Forall (fun _ d => is_Some ((buffers s ++ [b]) !! d)) (cache s).
Proof.
  intros Hwf k d Hk. destruct (Hwf k d Hk) as [x Hx].
  exists x. apply lookup_app_l_Some. exact Hx.
Qed.

Lemma loadOggFile_frame fname st r st' :
  loadOggFile_outcome env fname st r st' -> load_frame st r st'.
Proof.
  intros [b Hb | Hc Ho | f partial Hc Ho Hr | f pcm Hc Ho Hr]; split.
  - same_audio_tac.
  - reflexivity.
  - done.
  - intros d [= <-]. by exists fname.
  - done.
  - same_audio_tac.
  - state_simpl. rewrite playback_app. simpl. by rewrite app_nil_r.
  - done.
  - done.
  - done.
  - same_audio_tac.
  - state_simpl. rewrite !playback_app. simpl. by rewrite !app_nil_r.
  - intros Hwf. unfold wf_cache. state_simpl. by apply wf_cache_grow.
  - done.
  - done.
  - same_audio_tac.
  - unfold decoded_state. state_simpl. rewrite playback_app. simpl.
    by rewrite app_nil_r.
  - intros Hwf. unfold wf_cache, decoded_state. state_simpl.
    apply map_Forall_insert_2.
    + rewrite lookup_app_r by lia. rewrite Nat.sub_diag. by eexists.
    + by apply wf_cache_grow.
  - intros d [= <-]. exists fname. unfold decoded_state. state_simpl.
    by rewrite lookup_insert_eq.
  - done.
Qed.

Lemma loadSound_frame basename st r st' :
  loadSound_outcome env basename st r st' -> load_frame st r st'.
Proof.
  intros [Hav | Hav Hogg Hwav | Hav Hogg Hwav | r' st'' Hav Hogg Hout].
  - split; [same_audio_tac|done..].
  - split; [same_audio_tac|done..].
  - split; [same_audio_tac|done..].
  - apply loadOggFile_frame in Hout. destruct Hout as [H1 H2 H3 H4 H5].
    split; done.
Qed.

End Frames.

(** ** Ambient sounds *)

Section Ambient.
Variable env : Env.

Lemma loadOggFile_fails_again fname st st' s2 :
  loadOggFile_outcome env fname st None st' ->
  cache s2 !! fname = cache st !! fname ->
  exists s3, loadOggFile_outcome env fname s2 None s3.
Proof.
  intros Hout Hc. inversion Hout as [ | Hm Ho | f partial Hm Ho Hr | ]; subst.
  - eexists. apply ogg_open_error; [congruence | done].
  - eexists. eapply ogg_decode_error; [congruence | done..].
Qed.

Lemma loadSound_fails_again basename st st' s2 :
  loadSound_outcome env basename st None st' ->
  m_context s2 = m_context st -> m_path s2 = m_path st -> cache s2 = cache st ->
  exists s3, loadSound_outcome env basename s2 None s3.
Proof.
  intros Hout Hctx Hpath Hcache.
  assert (Hav : isAvailable s2 = isAvailable st)
    by (unfold isAvailable; by rewrite Hctx).
  assert (Hbase : sound_base s2 basename = sound_base st basename)
    by (unfold sound_base; by rewrite Hpath).
  inversion Hout as [H1 | H1 H2 H3 | H1 H2 H3 | r st'' H1 H2 H3]; subst.
  - eexists. apply sound_unavailable. congruence.
  - eexists. apply sound_not_found; congruence.
  - eexists. apply sound_no_loader; congruence.
  - rewrite <- Hbase in H3.
    eapply (loadOggFile_fails_again _ _ _
      (set_infostream
         (fun l => l ++ [found_line basename (sound_base s2 basename +:+ "ogg")])
         s2)) in H3 as [s3 H3].
    + exists s3. apply sound_vorbis; [congruence | congruence | exact H3].
    + state_simpl. by rewrite Hcache.
Qed.

Lemma AmbientSound_isPlaying_eq snd st a :
  ambients st !! snd = Some a ->
  AmbientSound_isPlaying snd st = Some (playing a, st).
Proof. intros H. unfold AmbientSound_isPlaying. munfold. by rewrite H. Qed.

Lemma AmbientSound_play_eq snd st a :
  ambients st !! snd = Some a ->
  AmbientSound_play snd st =
    Some (tt,
          set_ambients (fun h => <[snd := mkAmbientSound (source a) true]> h)
            (set_calls (fun l => l ++ play_call snd :: device_play a) st)).
Proof.
  intros H. unfold AmbientSound_play, device_play. munfold. rewrite H.
  destruct (sourceID (source a)); cbv beta iota; state_simpl;
    repeat rewrite <- app_assoc; reflexivity.
Qed.

Lemma AmbientSound_stop_eq snd st a :
  ambients st !! snd = Some a ->
  AmbientSound_stop snd st =
    Some (tt,
          set_ambients (fun h => <[snd := mkAmbientSound (source a) false]> h)
            (set_calls (fun l => l ++ stop_call snd :: device_stop a) st)).
Proof.
  intros H. unfold AmbientSound_stop, device_stop. munfold. rewrite H.
  destruct (sourceID (source a)); cbv beta iota; state_simpl;
    repeat rewrite <- app_assoc; reflexivity.
Qed.

Lemma init_eq path st :
  init env path st =
    Some (tt,
          set_m_ambient_sound (insert EmptyString (length (ambients st)))
            (set_ambients (fun h => h ++ [placeholder])
               (if PathExists env path
                then set_infostream
                       (fun l => l ++ ["Audio: using sound path " +:+ path])
                       (set_m_path path st)
                else set_infostream
                       (fun l => l ++ ["WARNING: audio path " +:+ path
                          +:+ " not found, sounds will not be available."])
                       st))).
Proof.
  unfold init, AmbientSound_ctor, SoundSource_ctor. munfold.
  destruct (PathExists env path); reflexivity.
Qed.

Lemma getAmbientSound_inv basename st r st' :
  getAmbientSound env basename st = Some (r, st') ->
  getAmbientSound_outcome env basename st r st'.
Proof.
  unfold getAmbientSound. intros Hrun.
  destruct (isAvailable st) eqn:Hav.
  2:{ munfold. rewrite Hav in Hrun. injection Hrun as <- <-. by constructor. }
  unfold mbind at 1, M_bind at 1, gets at 1 in Hrun. rewrite Hav in Hrun.
  cbv beta iota delta [negb] in Hrun.
  unfold mbind at 1, M_bind at 1, gets at 1 in Hrun.
  destruct (m_ambient_sound st !! basename) as [v|] eqn:Hc.
  { injection Hrun as <- <-. by constructor. }
  unfold mbind at 1, M_bind at 1 in Hrun.
  destruct (loadSound_runs env basename st) as (data & st1 & Hload & Hout).
  rewrite Hload in Hrun. destruct data as [d|].
  2:{ injection Hrun as <- <-. by apply ambient_unloadable. }
  unfold AmbientSound_ctor in Hrun.
  destruct (buffers st1 !! d) as [sb|] eqn:Hd.
  - munfold. rewrite (SoundSource_ctor_buffer _ _ _ Hd) in Hrun.
    injection Hrun as <- <-. by eapply ambient_new.
  - unfold SoundSource_ctor in Hrun. munfold. state_simpl.
    rewrite Hd in Hrun. done.
Qed.

Lemma getAmbientSound_runs basename st :
  wf_cache st ->
  exists r st', getAmbientSound env basename st = Some (r, st').
Proof.
  intros Hwf. unfold getAmbientSound.
  destruct (isAvailable st) eqn:Hav.
  2:{ eexists _, _. munfold. by rewrite Hav. }
  unfold mbind at 1, M_bind at 1, gets at 1. rewrite Hav.
  cbv beta iota delta [negb].
  unfold mbind at 1, M_bind at 1, gets at 1.
  destruct (m_ambient_sound st !! basename) as [v|] eqn:Hc.
  { by eexists _, _. }
  unfold mbind at 1, M_bind at 1.
  destruct (loadSound_runs env basename st) as (data & st1 & Hload & Hout).
  rewrite Hload. destruct data as [d|]; [|by eexists _, _].
  apply loadSound_frame in Hout. destruct Hout as [_ _ Hwf1 Hsome _].
  destruct (Hsome d eq_refl) as [fname Hf].
  destruct (Hwf1 Hwf fname d Hf) as [sb Hd].
  unfold AmbientSound_ctor. munfold.
  rewrite (SoundSource_ctor_buffer _ _ _ Hd). by eexists _, _.
Qed.

End Ambient.

Ltac mrun :=
  repeat (progress
    (munfold;
     repeat match goal with
            | H : ?x = _ |- context [?x] => rewrite H
            end;
     try rewrite list_lookup_insert_ne by done)).

(** ** The equation of [setAmbient] *)

Section Switch.
Variable env : Env.

Lemma same_but_playing_stop slot st : same_but_playing st (stop_occupant slot st).
Proof.
  unfold stop_occupant, same_but_playing.
  destruct (m_ambient_slot st !! slot) as [old|]; [|by split_and!].
  destruct (ambients st !! old) as [a|]; [|by split_and!].
  destruct (playing a); [|by split_and!].
  split_and!; try reflexivity. state_simpl. apply length_insert.
Qed.

Lemma same_but_playing_play n st : same_but_playing st (play_sound n st).
Proof.
  unfold play_sound, same_but_playing.
  destruct (ambients st !! n) as [a|]; [|by split_and!].
  split_and!; try reflexivity. state_simpl. apply length_insert.
Qed.

Lemma slot_stop_occupant slot st :
  m_ambient_slot (stop_occupant slot st) = m_ambient_slot st.
Proof. unfold stop_occupant. by repeat case_match. Qed.

Lemma slot_play_sound n st :
  m_ambient_slot (play_sound n st) = m_ambient_slot st.
Proof. unfold play_sound. by repeat case_match. Qed.

Lemma infostream_stop_occupant slot st :
  infostream (stop_occupant slot st) = infostream st.
Proof. unfold stop_occupant. by repeat case_match. Qed.

Lemma infostream_play_sound n st :
  infostream (play_sound n st) = infostream st.
Proof. unfold play_sound. by repeat case_match. Qed.

Lemma setAmbient_unavailable slot b ap st :
  isAvailable st = false -> setAmbient env slot b ap st = Some (tt, st).
Proof. intros H. unfold setAmbient. munfold. by rewrite H. Qed.

Lemma setAmbient_available slot b ap st snd sa :
  isAvailable st = true ->
  getAmbientSound env b st = Some (snd, sa) ->
  setAmbient env slot b ap st =
    match m_ambient_slot sa !! slot with
    | Some old =>
        if bool_decide (Some old = snd) then Some (tt, sa)
        else
          match ambients sa !! old with
          | None => None
          | Some _ =>
              match snd with
              | Some n =>
                  match ambients sa !! n with
                  | None =>
                      if occupant_playing slot sa || ap then None
                      else Some (tt, switched slot b ap snd n sa)
                  | Some _ => Some (tt, switched slot b ap snd n sa)
                  end
              | None =>
                  match m_ambient_sound sa !! EmptyString with
                  | Some e => Some (tt, switched slot b ap snd e sa)
                  | None => None
                  end
              end
          end
    | None =>
        match snd with
        | Some n =>
            match ambients sa !! n with
            | None => if ap then None else Some (tt, switched slot b ap snd n sa)
            | Some _ => Some (tt, switched slot b ap snd n sa)
            end
        | None =>
            match m_ambient_sound sa !! EmptyString with
            | Some e => Some (tt, switched slot b ap snd e sa)
            | None => None
            end
        end
    end.
Proof.
  intros Hav Hget. unfold setAmbient.
  unfold mbind at 1, M_bind at 1, gets at 1. rewrite Hav.
  cbv beta iota delta [negb].
  unfold mbind at 1, M_bind at 1. rewrite Hget.
  unfold switched, occupant_playing, stop_occupant, play_sound,
    AmbientSound_isPlaying, AmbientSound_play, AmbientSound_stop,
    device_play, device_stop.
  munfold.
  destruct (m_ambient_slot sa !! slot) as [old|] eqn:Hocc.
  - destruct (bool_decide (Some old = snd)) eqn:Hsame; [reflexivity|].
    destruct (ambients sa !! old) as [ao|] eqn:Hold; [|reflexivity].
    destruct snd as [n|].
    + assert (Hne : old <> n).
      { intros ->. by rewrite bool_decide_eq_true_2 in Hsame. }
      destruct (playing ao) eqn:Hplay; cbv beta iota delta [orb]; mrun.
      * destruct (sourceID (source ao)); mrun;
          (destruct (ambients sa !! n) as [an|] eqn:Hn; mrun; [|reflexivity]);
          destruct (sourceID (source an)); mrun;
          repeat rewrite <- app_assoc; reflexivity.
      * destruct ap; mrun; [|by destruct (ambients sa !! n)].
        destruct (ambients sa !! n) as [an|] eqn:Hn; mrun; [|reflexivity].
        destruct (sourceID (source an)); mrun;
          repeat rewrite <- app_assoc; reflexivity.
    + destruct (playing ao) eqn:Hplay; mrun.
      * destruct (sourceID (source ao)); mrun;
          destruct (m_ambient_sound sa !! EmptyString); mrun;
          repeat rewrite <- app_assoc; reflexivity.
      * destruct (m_ambient_sound sa !! EmptyString); reflexivity.
  - destruct snd as [n|]; cbv beta iota delta [orb]; mrun.
    + destruct ap; mrun; [|by destruct (ambients sa !! n)].
      destruct (ambients sa !! n) as [an|] eqn:Hn; mrun; [|reflexivity].
      destruct (sourceID (source an)); mrun;
        repeat rewrite <- app_assoc; reflexivity.
    + destruct (m_ambient_sound sa !! EmptyString); reflexivity.
Qed.

End Switch.

(** ** The frame of [getAmbientSound] *)

Section Registry.
Variable env : Env.

Lemma loadOggFile_outcome_run fname st r st' :
  loadOggFile_outcome env fname st r st' ->
  loadOggFile env fname st = Some (r, st').
Proof.
  intros [b Hb | Hc Ho | f partial Hc Ho Hr | f pcm Hc Ho Hr].
  - by apply loadOggFile_hit.
  - by apply loadOggFile_open_error.
  - by eapply loadOggFile_decode_error.
  - by eapply loadOggFile_decoded.
Qed.

Lemma loadSound_outcome_run basename st r st' :
  loadSound_outcome env basename st r st' ->
  loadSound env basename st = Some (r, st').
Proof.
  intros Hout. destruct (loadSound_runs env basename st) as (r0 & st0 & Hrun & Hout0).
  rewrite Hrun. clear Hrun.
  destruct Hout as [Hav | Hav Hogg Hwav | Hav Hogg Hwav | r' st'' Hav Hogg Hout];
    inversion Hout0 as [Hav0 | Hav0 Hogg0 Hwav0 | Hav0 Hogg0 Hwav0
                        | r0' st0' Hav0 Hogg0 Hout0']; subst;
    try congruence.
  apply loadOggFile_outcome_run in Hout, Hout0'. congruence.
Qed.

Lemma wf_same_audio s s' : same_audio s s' -> (wf_cache s -> wf_cache s') ->
  wf s -> wf s'.
Proof.
  intros (Hs & Ha & _ & _ & _ & _ & _ & Hm & Hsl & _) Hc (H1 & H2 & H3).
  unfold wf. rewrite Ha, Hm, Hsl. auto.
Qed.

Lemma getAmbientSound_frame basename st r st' :
  getAmbientSound_outcome env basename st r st' ->
  ambient_frame basename st r st'.
Proof.
  intros [Hav | v Hav Hc | st1 Hav Hc Hout | d st1 sb Hav Hc Hout Hd].
  - by split.
  - split; try done. by intros n [= <-].
  - apply loadSound_frame in Hout.
    destruct Hout as [Haudio Hquiet Hwf _ Hnone].
    pose proof Haudio as (Hs & Ha & _ & Hctx & _ & Hp & _ & Hm & Hsl & _).
    destruct (Hnone eq_refl) as [Hcache _].
    split; try done.
    + by rewrite Ha.
    + by rewrite Hm.
    + by apply wf_same_audio.
  - apply loadSound_frame in Hout.
    destruct Hout as [Haudio Hquiet Hwf _ _].
    pose proof Haudio as (Hs & Ha & _ & Hctx & _ & Hp & _ & Hm & Hsl & _).
    unfold ambient_created. split; state_simpl; try done.
    + rewrite Ha. by apply prefix_app_r.
    + rewrite Hm. by apply insert_subseteq.
    + rewrite playback_app, Hquiet. simpl. by rewrite app_nil_r.
    + intros Hwfst. pose proof (wf_same_audio _ _ Haudio Hwf Hwfst) as (W1 & W2 & W3).
      unfold wf, wf_cache. state_simpl. split_and!.
      * exact W1.
      * apply map_Forall_insert_2.
        -- rewrite lookup_app_r by lia. rewrite Nat.sub_diag. by eexists.
        -- intros k a Hk. destruct (W2 k a Hk) as [x Hx].
           exists x. by apply lookup_app_l_Some.
      * intros k a Hk. destruct (W3 k a Hk) as [x Hx].
        exists x. by apply lookup_app_l_Some.
    + intros n [= <-]. by rewrite lookup_insert_eq.
Qed.

End Registry.

(** ** Histories *)

Section Histories.
Variable env : Env.

Lemma createSource_inv name b st r st' :
  createSource env name b st = Some (r, st') ->
  exists l, r = Some l /\ m_sound_source st' !! name = Some l /\
            extends st st'.
Proof.
  intros Hrun.
  destruct (m_sound_source st !! name) as [v|] eqn:Hp.
  { rewrite (createSource_present env _ _ _ _ Hp) in Hrun.
    injection Hrun as <- <-. exists v. split_and!; [done..|].
    by apply extends_same. }
  destruct (loadSound_runs env b st) as (data & st1 & Hload & Hout).
  pose proof (extends_loadSound env b _ _ _ Hload) as Hext.
  apply loadSound_frame in Hout.
  destruct Hout as [(Hs & _ & _ & _ & _ & _ & Hm & _) _ _ _ _].
  assert (Hp1 : m_sound_source st1 !! name = None) by (by rewrite Hm).
  destruct data as [d|].
  - destruct (buffers st1 !! d) as [sb|] eqn:Hd.
    + rewrite (createSource_absent_loaded env _ _ _ _ _ _ Hp Hload Hd) in Hrun.
      injection Hrun as <- <-. eexists. split_and!; [done|..].
      * state_simpl. by rewrite lookup_insert_eq.
      * etrans; [exact Hext|]. unfold extends. state_simpl. split_and!; try done.
        -- by apply insert_subseteq.
        -- by apply prefix_app_r.
    + unfold createSource, SoundSource_ctor in Hrun. munfold.
      rewrite Hp, Hload in Hrun.
      rewrite (bool_decide_eq_false_2 (Some d = None)) in Hrun by done.
      cbv beta iota in Hrun. by rewrite Hd in Hrun.
  - rewrite (createSource_absent_unloadable env _ _ _ _ Hp Hload) in Hrun.
    injection Hrun as <- <-. eexists. split_and!; [done|..].
    + state_simpl. by rewrite lookup_insert_eq.
    + etrans; [exact Hext|]. unfold extends. state_simpl. split_and!; try done.
      * by apply insert_subseteq.
      * by apply prefix_app_r.
Qed.

Lemma extends_createSource name b : steps extends (createSource env name b).
Proof.
  intros s r s' Hrun. apply createSource_inv in Hrun as (l & _ & _ & Hext).
  exact Hext.
Qed.

Lemma extends_getSource name : steps extends (getSource name).
Proof.
  intros s r s' Hrun.
  destruct (m_sound_source s !! name) as [v|] eqn:Hp.
  - rewrite (getSource_present _ _ _ Hp) in Hrun. injection Hrun as _ <-.
    apply extends_refl.
  - rewrite (getSource_absent _ _ Hp) in Hrun. injection Hrun as _ <-.
    unfold extends. state_simpl. split_and!; try done.
    + by apply insert_subseteq.
    + by apply prefix_app_r.
Qed.

Lemma extends_run_op o : steps extends (run_op env o).
Proof.
  destruct o; unfold run_op;
    lazymatch goal with
    | |- steps _ (_ ≫= _) => apply (steps_bind _); [|intros ?; apply (steps_ret _)]
    | |- _ => idtac
    end;
    first
      [ apply extends_init | apply extends_findSoundFile
      | apply extends_loadSound | apply extends_loadOggFile
      | apply extends_getAmbientSound | apply extends_setAmbient
      | apply extends_createSource | apply extends_getSource
      | apply extends_updateListener | apply extends_shutdown ].
Qed.

Lemma extends_run_ops os : steps extends (run_ops env os).
Proof.
  induction os as [|o os IH]; simpl.
  - apply (steps_ret _).
  - apply (steps_bind _); [apply extends_run_op | intros _; exact IH].
Qed.

End Histories.

(** ** The context and the search path along the operations *)

#[local] Instance same_lookup_preorder : PreOrder same_lookup.
Proof.
  split; [by intros s | intros s1 s2 s3 [H1 H2] [H3 H4]].
  unfold same_lookup in *. split; congruence.
Qed.


Section SameLookup.
Variable env : Env.







End SameLookup.

(** ** The claims on the cache, the sources and the device *)

Section Claims.
Variable env : Env.


(** C3. When the decode fails, because the decoder cannot open the file or
    because a read reports a negative byte count before the end of the
    stream, [loadOggFile] returns null and the cache is what it was; in
    particular it has no entry for that name. *)
Theorem failed_decode_is_not_cached fname st :
  cache st !! fname = None ->
  (ov_fopen env fname = None \/
   exists f, ov_fopen env fname = Some f /\ negative_read (reads f)) ->
  exists st', loadOggFile env fname st = Some (None, st') /\
              cache st' = cache st /\ cache st' !! fname = None.
Proof.
  intros Hmiss [Hopen | (f & Hopen & Hneg)].
  - rewrite (loadOggFile_open_error env _ _ Hmiss Hopen).
    eexists. split_and!; [done..|]. exact Hmiss.
  - destruct (read_loop_error _ [] Hneg) as [partial Hr].
    rewrite (loadOggFile_decode_error env _ _ _ _ Hmiss Hopen Hr).
    eexists. split_and!; [done..|]. exact Hmiss.
Qed.

Lemma null_result_leaves_cache fname st st' :
  loadOggFile env fname st = Some (None, st') -> cache st' = cache st.
Proof.
  intros Hrun. apply loadOggFile_inv, loadOggFile_frame in Hrun.
  by destruct Hrun as [_ _ _ _ [? _]].
Qed.

(** C4. The buffer of a successfully decoded file has format Mono16
    exactly when the stream has one channel and Stereo16 for every other
    channel count, the sample rate of the stream, and as payload the
    chunks read, in order, up to the read of zero bytes that ends the
    stream. *)
Theorem decoded_buffer_contents fname st b st' :
  cache st !! fname = None ->
  loadOggFile env fname st = Some (Some b, st') ->
  exists f sb chunks,
    ov_fopen env fname = Some f /\
    buffers st' !! b = Some sb /\
    (format sb = AL_FORMAT_MONO16 <-> channels f = 1) /\
    (channels f <> 1 -> format sb = AL_FORMAT_STEREO16) /\
    freq sb = rate f /\
    reads_until_eos (reads f) chunks /\
    buffer sb = concat (map chunk_data chunks).
Proof.
  intros Hmiss Hrun. apply loadOggFile_inv in Hrun.
  inversion Hrun as [b' Hb | | | f pcm Hc Ho Hr]; subst; [congruence|].
  pose proof (read_loop_inv (reads f) []) as Hinv. rewrite Hr in Hinv.
  destruct Hinv as (chunks & Heos & ->).
  exists f, (mkSoundBuffer (ogg_format f) (rate f) (al_names st)
               (concat (map chunk_data chunks))), chunks.
  split_and!; try done.
  - unfold decoded_state. state_simpl. rewrite lookup_app_r by lia.
    by rewrite Nat.sub_diag.
  - simpl. unfold ogg_format. destruct (Z.eqb_spec (channels f) 1); split; done.
  - simpl. unfold ogg_format. by destruct (Z.eqb_spec (channels f) 1).
Qed.


Lemma createSource_runs name b st :
  wf_cache st -> exists r st', createSource env name b st = Some (r, st').
Proof.
  intros Hwf.
  destruct (m_sound_source st !! name) as [v|] eqn:Hp.
  { rewrite (createSource_present env _ _ _ _ Hp). by eexists _, _. }
  destruct (loadSound_runs env b st) as (data & st1 & Hload & Hout).
  apply loadSound_frame in Hout. destruct Hout as [_ _ Hwf1 Hsome _].
  destruct data as [d|].
  - destruct (Hsome d eq_refl) as [fname Hf].
    destruct (Hwf1 Hwf fname d Hf) as [sb Hd].
    rewrite (createSource_absent_loaded env _ _ _ _ _ _ Hp Hload Hd).
    by eexists _, _.
  - rewrite (createSource_absent_unloadable env _ _ _ _ Hp Hload).
    by eexists _, _.
Qed.

(** What [createSource] returns is registered and points to a source
    object. *)
Lemma createSource_registers name b st r st' :
  map_Forall (fun _ l => is_Some (sources st !! l)) (m_sound_source st) ->
  createSource env name b st = Some (r, st') ->
  exists l src,
    r = Some l /\ m_sound_source st' !! name = Some l /\
    sources st' !! l = Some src.
Proof.
  intros Hvalid Hrun.
  assert (Hnew : forall (h : list SoundSource) x, (h ++ [x]) !! length h = Some x).
  { intros h x. rewrite lookup_app_r by lia. by rewrite Nat.sub_diag. }
  destruct (m_sound_source st !! name) as [v|] eqn:Hp.
  { rewrite (createSource_present env _ _ _ _ Hp) in Hrun.
    injection Hrun as <- <-. destruct (Hvalid _ _ Hp) as [src Hsrc].
    by exists v, src. }
  destruct (loadSound_runs env b st) as (data & st1 & Hload & _).
  destruct data as [d|].
  - destruct (buffers st1 !! d) as [sb|] eqn:Hd.
    + rewrite (createSource_absent_loaded env _ _ _ _ _ _ Hp Hload Hd) in Hrun.
      injection Hrun as <- <-. eexists _, _. split; [reflexivity|].
      state_simpl. split; [by rewrite lookup_insert_eq | apply Hnew].
    + unfold createSource, SoundSource_ctor in Hrun. munfold.
      rewrite Hp, Hload in Hrun.
      rewrite (bool_decide_eq_false_2 (Some d = None)) in Hrun by done.
      cbv beta iota in Hrun. by rewrite Hd in Hrun.
  - rewrite (createSource_absent_unloadable env _ _ _ _ Hp Hload) in Hrun.
    injection Hrun as <- <-. eexists _, _. split; [reflexivity|].
    state_simpl. split; [by rewrite lookup_insert_eq | apply Hnew].
Qed.

(** C6. After [createSource(a, x)], the name [a] is registered with the
    source the call returned, a source object on the heap; a call
    [createSource(a, y)] then returns that same source, logs a warning and
    changes nothing else: the registry entry is not overwritten, the
    source object is what it was, so it keeps its buffer, and nothing is
    loaded or sent to the device.  (The registry holds pointers to source
    objects in every state reached from the process start.) *)
Theorem createSource_twice_same_source a x y st r1 st1 :
  map_Forall (fun _ l => is_Some (sources st !! l)) (m_sound_source st) ->
  createSource env a x st = Some (r1, st1) ->
  exists l src,
    r1 = Some l /\
    m_sound_source st1 !! a = Some l /\
    sources st1 !! l = Some src /\
    exists st2,
      createSource env a y st1 = Some (Some l, st2) /\
      m_sound_source st2 !! a = Some l /\
      sources st2 !! l = Some src /\
      infostream st2 = infostream st1 ++ [recreate_line a] /\
      m_sound_source st2 = m_sound_source st1 /\
      sources st2 = sources st1 /\
      cache st2 = cache st1 /\ buffers st2 = buffers st1 /\
      calls st2 = calls st1.
Proof.
  intros Hvalid Hrun.
  destruct (createSource_registers _ _ _ _ _ Hvalid Hrun)
    as (l & src & -> & Hreg & Hsrc).
  exists l, src. split_and!; [done..|].
  rewrite (createSource_present env _ _ _ _ Hreg).
  eexists. split; [reflexivity|]. by split_and!.
Qed.

(** [getSource] on a name that is not registered. *)
Lemma getSource_creates_placeholder name st :
  m_sound_source st !! name = None ->
  exists l st1,
    getSource name st = Some (Some l, st1) /\
    sources st1 !! l = Some empty_source /\
    m_buffer empty_source = None /\
    m_sound_source st1 !! name = Some l /\
    forall os st2,
      run_ops env os st1 = Some (tt, st2) ->
      getSource name st2 = Some (Some l, st2) /\
      sources st2 !! l = Some empty_source.
Proof.
  intros Habsent. rewrite (getSource_absent _ _ Habsent).
  eexists _, _. split; [reflexivity|].
  assert (Hl : forall h : list SoundSource,
             (h ++ [empty_source]) !! length h = Some empty_source).
  { intros h. rewrite lookup_app_r by lia. by rewrite Nat.sub_diag. }
  split_and!.
  - state_simpl. apply Hl.
  - reflexivity.
  - state_simpl. by rewrite lookup_insert_eq.
  - intros os st2 Hops. apply extends_run_ops in Hops as (_ & _ & Hreg & Hsrc).
    split.
    + apply getSource_present. eapply lookup_weaken; [|exact Hreg].
      state_simpl. by rewrite lookup_insert_eq.
    + eapply prefix_lookup_Some; [|exact Hsrc]. state_simpl. apply Hl.
Qed.

(** C10. When no ".ogg" candidate exists but a ".wav" one does,
    [findSoundFile] returns the ".wav" path with the WAV format tag, and
    [loadSound] returns null, after logging that no loader is available
    when the system is available; whatever the name, [loadSound] returns a
    buffer only for a file found with the ".ogg" extension. *)
Theorem wav_is_found_but_never_loaded basename st :
  PathExists env (sound_base st basename +:+ "ogg") = false ->
  PathExists env (sound_base st basename +:+ "wav") = true ->
  findSoundFile env basename st =
    Some ((sound_base st basename +:+ "wav", LOADER_WAV), st) /\
  (exists st',
     loadSound env basename st = Some (None, st') /\
     cache st' = cache st /\ buffers st' = buffers st /\
     calls st' = calls st /\
     (isAvailable st = true ->
      infostream st' =
        infostream st ++
          [found_line basename (sound_base st basename +:+ "wav");
           no_loader_line (sound_base st basename +:+ "wav")])) /\
  (forall name s d s',
     loadSound env name s = Some (Some d, s') ->
     PathExists env (sound_base s name +:+ "ogg") = true).
Proof.
  intros Hogg Hwav. split_and!.
  - rewrite findSoundFile_eq. by rewrite Hogg, Hwav.
  - destruct (isAvailable st) eqn:Hav.
    + eexists. split; [apply loadSound_outcome_run; by apply sound_no_loader|].
      split_and!; try reflexivity. intros _. state_simpl.
      by rewrite <- app_assoc.
    + eexists. split; [apply loadSound_outcome_run; by apply sound_unavailable|].
      split_and!; try reflexivity. done.
  - intros name s d s' Hrun. apply loadSound_inv in Hrun.
    by inversion Hrun; subst.
Qed.

#[local] Instance stays_down_preorder : PreOrder stays_down.
Proof.
  split; [intros s H; exact H | intros s1 s2 s3 H1 H2 H; exact (H2 (H1 H))].
Qed.

Ltac down_bind :=
  repeat first
    [ steps_step
    | lazymatch goal with
      | |- steps _ (modify _) =>
          let Hs := fresh in apply (steps_modify _); intros ? Hs; exact Hs
      end
    | solve [auto] ].

Lemma down_loadOggFile fname : steps stays_down (loadOggFile env fname).
Proof.
  unfold loadOggFile, log, call, new_SoundBuffer, al_gen_name. down_bind.
Qed.

Lemma down_loadSound b : steps stays_down (loadSound env b).
Proof.
  pose proof down_loadOggFile.
  unfold loadSound, findSoundFile, log. down_bind.
Qed.

Lemma down_SoundSource_ctor buf : steps stays_down (SoundSource_ctor buf).
Proof. unfold SoundSource_ctor, call, al_gen_name. down_bind. Qed.

Lemma down_getAmbientSound b : steps stays_down (getAmbientSound env b).
Proof.
  pose proof down_loadSound. pose proof down_SoundSource_ctor.
  unfold getAmbientSound, AmbientSound_ctor, new_AmbientSound. down_bind.
Qed.

Lemma down_run_op o : steps stays_down (run_op env o).
Proof.
  pose proof down_loadOggFile. pose proof down_loadSound.
  pose proof down_SoundSource_ctor. pose proof down_getAmbientSound.
  destruct o; unfold run_op, init, findSoundFile, setAmbient, createSource,
    getSource, updateListener, shutdown, AmbientSound_ctor,
    AmbientSound_isPlaying, AmbientSound_play, AmbientSound_stop,
    new_AmbientSound, new_SoundSource, log, call; down_bind.
  all: apply (steps_modify _); by intros ? _.
Qed.

Lemma down_run_ops os : steps stays_down (run_ops env os).
Proof.
  induction os as [|o os IH]; simpl.
  - apply (steps_ret _).
  - apply (steps_bind _); [apply down_run_op | intros _; exact IH].
Qed.

Lemma Audio_ctor_no_device st :
  alcOpenDevice env = None ->
  exists st', Audio_ctor env st = Some (tt, st') /\ isAvailable st' = false.
Proof.
  intros Hdev. unfold Audio_ctor. rewrite Hdev. munfold.
  eexists. split; reflexivity.
Qed.

Lemma init_keeps_context path st st' :
  init env path st = Some (tt, st') -> m_context st' = m_context st.
Proof.
  rewrite init_eq. intros [= <-]. by destruct (PathExists env path).
Qed.

(** What the three operations do in a state without a context. *)
Lemma unavailable_state_operations st :
  isAvailable st = false ->
  (forall slot s ap, setAmbient env slot s ap st = Some (tt, st)) /\
  (forall cam vel, updateListener cam vel st = Some (tt, st)) /\
  (forall a x,
     match m_sound_source st !! a with
     | Some v =>
         createSource env a x st =
           Some (Some v, set_infostream (fun l => l ++ [recreate_line a]) st)
     | None =>
         createSource env a x st =
           Some (Some (length (sources st)),
                 set_m_sound_source (insert a (length (sources st)))
                   (set_sources (fun h => h ++ [empty_source])
                      (set_infostream
                         (fun l => l ++ [not_available_line a x]) st)))
     end).
Proof.
  intros Hdown. split_and!.
  - intros. by apply setAmbient_unavailable.
  - intros. unfold updateListener. munfold. by rewrite Hdown.
  - intros a x. destruct (m_sound_source st !! a) as [v|] eqn:Hp.
    + by apply createSource_present.
    + apply createSource_absent_unloadable; [done|].
      apply loadSound_outcome_run. by apply sound_unavailable.
Qed.

(** C1, as amended. When the device cannot be opened, the system is
    unavailable after the constructor and [init], and stays so whatever
    operations follow.  In every such state [setAmbient] and
    [updateListener] return without changing the state at all, and
    [createSource] touches neither the cache, the buffers, the ambient
    registries nor the device, but it does return a source, not null: the
    registered one for a registered name, after logging the warning, and
    for a new name an empty source (null buffer) that it registers under
    that name, after logging that the sound could not be loaded. *)
Theorem no_device_operations path os st0 st :
  alcOpenDevice env = None ->
  (Audio_ctor env ≫= fun _ => init env path ≫= fun _ => run_ops env os) st0
    = Some (tt, st) ->
  isAvailable st = false /\
  (forall slot s ap, setAmbient env slot s ap st = Some (tt, st)) /\
  (forall cam vel, updateListener cam vel st = Some (tt, st)) /\
  (forall a x, exists l st',
     createSource env a x st = Some (Some l, st') /\
     isAvailable st' = false /\
     cache st' = cache st /\ buffers st' = buffers st /\
     m_ambient_sound st' = m_ambient_sound st /\
     m_ambient_slot st' = m_ambient_slot st /\
     ambients st' = ambients st /\ calls st' = calls st /\
     match m_sound_source st !! a with
     | Some v =>
         l = v /\ m_sound_source st' = m_sound_source st /\
         sources st' = sources st /\
         infostream st' = infostream st ++ [recreate_line a]
     | None =>
         l = length (sources st) /\
         m_sound_source st' = <[a := l]> (m_sound_source st) /\
         sources st' = sources st ++ [empty_source] /\
         infostream st' = infostream st ++ [not_available_line a x]
     end).
Proof.
  intros Hdev Hrun.
  assert (Hdown : isAvailable st = false).
  { unfold mbind at 1, M_bind at 1 in Hrun.
    destruct (Audio_ctor_no_device st0 Hdev) as (s1 & Hctor & Hs1).
    rewrite Hctor in Hrun. unfold mbind at 1, M_bind at 1 in Hrun.
    destruct (init env path s1) as [[[] s2]|] eqn:Hinit; [|done].
    apply (down_run_ops os _ _ _ Hrun).
    unfold isAvailable. rewrite (init_keeps_context _ _ _ Hinit). exact Hs1. }
  destruct (unavailable_state_operations st Hdown) as (H1 & H2 & H3).
  split_and!; try done.
  intros a x. specialize (H3 a x).
  destruct (m_sound_source st !! a) as [v|] eqn:Hp; rewrite H3;
    eexists _, _; (split; [reflexivity|]); split_and!; try reflexivity;
    exact Hdown.
Qed.

End Claims.

(** ** The state a switch leaves *)

Section SwitchFacts.
Variable env : Env.

Lemma playback_device_stop a : playback (device_stop a) = [].
Proof. unfold device_stop. by destruct (sourceID (source a)). Qed.

Lemma playback_device_play a : playback (device_play a) = [].
Proof. unfold device_play. by destruct (sourceID (source a)). Qed.

Lemma playback_stop_occupant slot st :
  playback (calls (stop_occupant slot st)) =
    playback (calls st) ++ occupant_stops slot st.
Proof.
  unfold stop_occupant, occupant_stops, occupant_playing.
  destruct (m_ambient_slot st !! slot) as [old|]; [|by rewrite app_nil_r].
  destruct (ambients st !! old) as [a|]; [|by rewrite app_nil_r].
  destruct (playing a); [|by rewrite app_nil_r].
  state_simpl. rewrite playback_app. f_equal.
  change (playback (stop_call old :: device_stop a))
    with (stop_call old :: playback (device_stop a)).
  by rewrite playback_device_stop.
Qed.

Lemma playback_play_sound n st :
  is_Some (ambients st !! n) ->
  playback (calls (play_sound n st)) = playback (calls st) ++ [play_call n].
Proof.
  intros [a Ha]. unfold play_sound. rewrite Ha. state_simpl.
  rewrite playback_app. f_equal.
  change (playback (play_call n :: device_play a))
    with (play_call n :: playback (device_play a)).
  by rewrite playback_device_play.
Qed.

Lemma stop_occupant_valid slot st l :
  is_Some (ambients (stop_occupant slot st) !! l) <-> is_Some (ambients st !! l).
Proof.
  destruct (same_but_playing_stop slot st)
    as (_&_&_&_&_&_&_&_&_&_&_&Hlen).
  rewrite !lookup_lt_is_Some. by rewrite Hlen.
Qed.

Lemma switched_slot slot b ap snd e sa :
  m_ambient_slot (switched slot b ap snd e sa) =
    <[slot := default e snd]> (m_ambient_slot sa).
Proof.
  unfold switched. destruct snd as [n|]; state_simpl.
  - destruct (_ || _); [rewrite slot_play_sound|]; by rewrite slot_stop_occupant.
  - by rewrite slot_stop_occupant.
Qed.

Lemma switched_playback slot b ap snd e sa :
  (forall n, snd = Some n -> is_Some (ambients sa !! n)) ->
  playback (calls (switched slot b ap snd e sa)) =
    playback (calls sa) ++ occupant_stops slot sa ++ sound_plays slot ap snd sa.
Proof.
  intros Hvalid. unfold switched, sound_plays.
  destruct snd as [n|]; state_simpl.
  - destruct (_ || _).
    + rewrite playback_play_sound by (apply stop_occupant_valid; eauto).
      rewrite playback_stop_occupant. by rewrite <- app_assoc.
    + rewrite playback_stop_occupant. by rewrite app_nil_r.
  - rewrite playback_stop_occupant. by rewrite app_nil_r.
Qed.

Lemma switched_frame slot b ap snd e sa :
  let s' := switched slot b ap snd e sa in
  cache s' = cache sa /\ buffers s' = buffers sa /\
  m_context s' = m_context sa /\ m_path s' = m_path sa /\
  m_ambient_sound s' = m_ambient_sound sa /\
  length (ambients s') = length (ambients sa).
Proof.
  unfold switched.
  destruct (same_but_playing_stop slot sa)
    as (E1&E2&_&_&E3&_&E4&_&E5&_&_&E6).
  destruct snd as [n|]; state_simpl.
  - destruct (_ || _); [|by split_and!].
    destruct (same_but_playing_play n (stop_occupant slot sa))
      as (F1&F2&_&_&F3&_&F4&_&F5&_&_&F6).
    split_and!; congruence.
  - by split_and!.
Qed.

Lemma is_playing_stop_occupant slot st old :
  m_ambient_slot st !! slot = Some old ->
  is_playing old (stop_occupant slot st) = false.
Proof.
  intros Hocc. unfold stop_occupant, is_playing. rewrite Hocc.
  destruct (ambients st !! old) as [a|] eqn:Ha; [|by rewrite Ha].
  destruct (playing a) eqn:Hp; [|by rewrite Ha].
  state_simpl. rewrite list_lookup_insert_eq; [done|].
  by eapply lookup_lt_Some.
Qed.

Lemma is_playing_play_sound_ne n st l :
  l <> n -> is_playing l (play_sound n st) = is_playing l st.
Proof.
  intros Hne. unfold play_sound, is_playing.
  destruct (ambients st !! n) as [a|]; [|done].
  state_simpl. by rewrite list_lookup_insert_ne.
Qed.

Lemma is_playing_play_sound n st :
  is_Some (ambients st !! n) -> is_playing n (play_sound n st) = true.
Proof.
  intros [a Ha]. unfold play_sound, is_playing. rewrite Ha. state_simpl.
  rewrite list_lookup_insert_eq; [done|]. by eapply lookup_lt_Some.
Qed.

Lemma switched_old_stopped slot b ap snd e sa old :
  m_ambient_slot sa !! slot = Some old ->
  snd <> Some old ->
  is_playing old (switched slot b ap snd e sa) = false.
Proof.
  intros Hocc Hne. unfold switched. destruct snd as [n|].
  - change (is_playing old (set_infostream ?f (set_m_ambient_slot ?g ?s)))
      with (is_playing old s).
    destruct (_ || _); [|by apply is_playing_stop_occupant].
    rewrite is_playing_play_sound_ne by congruence.
    by apply is_playing_stop_occupant.
  - change (is_playing old (set_m_ambient_slot ?g ?s)) with (is_playing old s).
    by apply is_playing_stop_occupant.
Qed.

Lemma switched_new_playing slot b ap n e sa :
  is_Some (ambients sa !! n) ->
  occupant_playing slot sa || ap = true ->
  is_playing n (switched slot b ap (Some n) e sa) = true.
Proof.
  intros Hvalid Hplay. unfold switched. rewrite Hplay.
  change (is_playing n (set_infostream ?f (set_m_ambient_slot ?g ?s)))
    with (is_playing n s).
  apply is_playing_play_sound. by apply stop_occupant_valid.
Qed.

End SwitchFacts.

(** ** The claims on the ambient slots *)

Section SetAmbient.
Variable env : Env.

Lemma getAmbientSound_cached b st v :
  isAvailable st = true ->
  m_ambient_sound st !! b = Some v ->
  getAmbientSound env b st = Some (Some v, st).
Proof.
  intros Hav Hc. unfold getAmbientSound. munfold. rewrite Hav.
  cbv beta iota delta [negb]. by rewrite Hc.
Qed.

Lemma getAmbientSound_unloadable b st st1 :
  isAvailable st = true ->
  m_ambient_sound st !! b = None ->
  loadSound env b st = Some (None, st1) ->
  getAmbientSound env b st = Some (None, st1).
Proof.
  intros Hav Hc Hload. unfold getAmbientSound. munfold. rewrite Hav.
  cbv beta iota delta [negb]. by rewrite Hc, Hload.
Qed.

Lemma setAmbient_runs slot b ap st e :
  isAvailable st = true -> wf st -> m_ambient_sound st !! EmptyString = Some e ->
  exists snd sa,
    getAmbientSound env b st = Some (snd, sa) /\
    getAmbientSound_outcome env b st snd sa /\
    setAmbient env slot b ap st =
      Some (tt,
            if bool_decide (is_Some snd /\ m_ambient_slot sa !! slot = snd)
            then sa
            else switched slot b ap snd (default e snd) sa).
Proof.
  intros Hav Hwf He.
  destruct (getAmbientSound_runs env b st (proj1 Hwf)) as (snd & sa & Hget).
  pose proof (getAmbientSound_inv env _ _ _ _ Hget) as Hout.
  pose proof (getAmbientSound_frame env _ _ _ _ Hout) as [_ _ _ _ Hsub _ Hwfa Hsome _].
  destruct (Hwfa Hwf) as (_ & Hsounds & Hslots).
  exists snd, sa. split_and!; [done..|].
  rewrite (setAmbient_available env _ _ _ _ _ _ Hav Hget).
  assert (Hplace : m_ambient_sound sa !! EmptyString = Some e)
    by (eapply lookup_weaken; eauto).
  assert (Hn : forall n, snd = Some n -> is_Some (ambients sa !! n)).
  { intros n ->. eapply (Hsounds b). by apply Hsome. }
  destruct (m_ambient_slot sa !! slot) as [old|] eqn:Hocc.
  - destruct (Hslots _ _ Hocc) as [ao Hao]. rewrite Hao.
    destruct (decide (Some old = snd)) as [<- | Hne].
    + rewrite !bool_decide_eq_true_2; [done| |done]. split; [by eexists|done].
    + rewrite (bool_decide_eq_false_2 (Some old = snd)) by done.
      rewrite bool_decide_eq_false_2 by (intros [_ ?]; done).
      destruct snd as [n|]; simpl.
      * destruct (Hn n eq_refl) as [an ->]. done.
      * by rewrite Hplace.
  - rewrite bool_decide_eq_false_2 by (intros [[? ->] ?]; done).
    destruct snd as [n|]; simpl.
    + destruct (Hn n eq_refl) as [an ->]. done.
    + by rewrite Hplace.
Qed.

Lemma occupant_same slot st sa :
  m_ambient_slot sa = m_ambient_slot st ->
  ambients st `prefix_of` ambients sa ->
  map_Forall (fun _ a => is_Some (ambients st !! a)) (m_ambient_slot st) ->
  occupant_playing slot sa = occupant_playing slot st /\
  occupant_stops slot sa = occupant_stops slot st.
Proof.
  intros Hslot Hpre Hvalid.
  assert (H : occupant_playing slot sa = occupant_playing slot st).
  { unfold occupant_playing. rewrite Hslot.
    destruct (m_ambient_slot st !! slot) as [old|] eqn:Hocc; [|done].
    destruct (Hvalid _ _ Hocc) as [a Ha]. rewrite Ha.
    by rewrite (prefix_lookup_Some _ _ _ _ Ha Hpre). }
  split; [done|]. unfold occupant_stops. by rewrite Hslot, H.
Qed.

(** C9. In the Active state, once [init] has registered the placeholder,
    a [setAmbient] call whose slot does not already hold the resolved sound
    stops the previous occupant exactly when it is playing; when the name
    resolves it plays the new sound exactly when the previous occupant was
    playing or [autoplay] is set, and installs it; when the name does not
    resolve it installs the placeholder.  The slot is set in either case.
    (The hypotheses hold in every state reached after [init], see
    [reachable_invariant].) *)
Theorem setAmbient_switches_slot slot s ap st e :
  isAvailable st = true -> wf st -> m_ambient_sound st !! EmptyString = Some e ->
  exists snd sa st',
    getAmbientSound env s st = Some (snd, sa) /\
    setAmbient env slot s ap st = Some (tt, st') /\
    ((forall old, m_ambient_slot st !! slot = Some old -> snd <> Some old) ->
     playback (calls st') =
       playback (calls st) ++ occupant_stops slot st ++ sound_plays slot ap snd st /\
     match snd with
     | Some n => m_ambient_slot st' = <[slot := n]> (m_ambient_slot st)
     | None => m_ambient_slot st' = <[slot := e]> (m_ambient_slot st)
     end /\
     (forall old, m_ambient_slot st !! slot = Some old ->
                  is_playing old st' = false) /\
     (forall n, snd = Some n -> occupant_playing slot st || ap = true ->
                is_playing n st' = true)).
Proof.
  intros Hav Hwf He.
  destruct (setAmbient_runs slot s ap st e Hav Hwf He)
    as (snd & sa & Hget & Hout & Hset).
  pose proof (getAmbientSound_frame env _ _ _ _ Hout)
    as [Hslot _ _ Hpre _ Hquiet Hwfa Hsome _].
  destruct (Hwfa Hwf) as (_ & Hsounds & _).
  destruct (occupant_same slot st sa Hslot Hpre (proj2 (proj2 Hwf)))
    as [Hplaying Hstops].
  assert (Hn : forall n, snd = Some n -> is_Some (ambients sa !! n)).
  { intros n ->. eapply (Hsounds s). by apply Hsome. }
  exists snd, sa. eexists. split_and!; [done..|].
  intros Hother.
  rewrite bool_decide_eq_false_2.
  2:{ intros [[n ->] Hheld]. rewrite Hslot in Hheld. by eapply Hother. }
  split_and!.
  - rewrite switched_playback by done. rewrite Hquiet, Hstops.
    unfold sound_plays. by rewrite Hplaying.
  - rewrite switched_slot, Hslot. by destruct snd.
  - intros old Hocc. apply switched_old_stopped; [by rewrite Hslot | eauto].
  - intros n -> Hplay. apply switched_new_playing; [eauto|].
    by rewrite Hplaying.
Qed.

(** C8, as amended. Of two successive [setAmbient] calls with the same
    slot and name, the second never changes the occupant of the slot and
    never plays anything.  When the name resolves, or the system is
    unavailable, the second call changes nothing at all.  When the name
    does not resolve, the slot holds the placeholder and the second call
    does not return early: it stops the placeholder exactly when the
    placeholder is playing. *)
Theorem setAmbient_twice slot s ap st :
  wf st -> is_Some (m_ambient_sound st !! EmptyString) ->
  exists st1 st2,
    setAmbient env slot s ap st = Some (tt, st1) /\
    setAmbient env slot s ap st1 = Some (tt, st2) /\
    m_ambient_slot st2 = m_ambient_slot st1 /\
    (isAvailable st = false \/ is_Some (m_ambient_sound st1 !! s) -> st2 = st1) /\
    (isAvailable st = true -> m_ambient_sound st1 !! s = None ->
     m_ambient_slot st1 !! slot = m_ambient_sound st1 !! EmptyString /\
     playback (calls st2) = playback (calls st1) ++ occupant_stops slot st1).
Proof.
  intros Hwf [e He].
  destruct (isAvailable st) eqn:Hav.
  2:{ exists st, st. rewrite setAmbient_unavailable by done.
      split_and!; try done. }
  destruct (setAmbient_runs slot s ap st e Hav Hwf He)
    as (snd & sa & Hget & Hout & Hset).
  pose proof (getAmbientSound_frame env _ _ _ _ Hout)
    as [Hslot Hctx Hpath Hpre Hsub Hquiet Hwfa Hsome Hnone].
  destruct (Hwfa Hwf) as (Hwfc & Hsounds & Hslots).
  rewrite Hset. clear Hset.
  set (st1 := if bool_decide (is_Some snd /\ m_ambient_slot sa !! slot = snd)
              then sa else switched slot s ap snd (default e snd) sa).
  assert (Hframe : cache st1 = cache sa /\ buffers st1 = buffers sa /\
                   m_context st1 = m_context sa /\ m_path st1 = m_path sa /\
                   m_ambient_sound st1 = m_ambient_sound sa /\
                   length (ambients st1) = length (ambients sa)).
  { unfold st1. case_bool_decide; [by split_and!|]. apply switched_frame. }
  destruct Hframe as (Fc & Fb & Fctx & Fpath & Fsnd & Flen).
  assert (Hav1 : isAvailable st1 = true).
  { unfold isAvailable in *. by rewrite Fctx, Hctx. }
  exists st1. destruct snd as [n|].
  - (* the sound resolved: the second lookup hits, the slot holds it *)
    assert (Hheld : m_ambient_slot st1 !! slot = Some n).
    { unfold st1. case_bool_decide as Hb; [by destruct Hb|].
      rewrite switched_slot. simpl. by rewrite lookup_insert_eq. }
    assert (Hreg : m_ambient_sound st1 !! s = Some n).
    { rewrite Fsnd. by apply Hsome. }
    exists st1. split_and!; try done.
    + rewrite (setAmbient_available env _ _ _ _ _ _ Hav1
                 (getAmbientSound_cached _ _ _ Hav1 Hreg)).
      rewrite Hheld. by rewrite bool_decide_eq_true_2.
    + intros _ Hmiss. congruence.
  - (* unresolved: the slot now holds the placeholder *)
    destruct (Hnone eq_refl) as (Nsnd & Namb & Ncache).
    assert (Hst1 : st1 = switched slot s ap None e sa).
    { unfold st1. rewrite bool_decide_eq_false_2; [done|].
      intros [[? ?] _]. done. }
    assert (Hmiss : m_ambient_sound st !! s = None).
    { inversion Hout; subst; [congruence|done]. }
    assert (Hload : loadSound_outcome env s st None sa).
    { inversion Hout; subst; [congruence|done]. }
    destruct (loadSound_fails_again env s st sa st1 Hload) as [s3 Hload3].
    { by rewrite Fctx. } { by rewrite Fpath. } { by rewrite Fc. }
    pose proof (loadSound_frame env _ _ _ _ Hload3)
      as [(_ & Ga & _ & Gctx & _ & _ & _ & Gsnd & Gslot & _) Gquiet _ _ _].
    assert (Hmiss1 : m_ambient_sound st1 !! s = None)
      by (by rewrite Fsnd, Nsnd).
    assert (Hplace1 : m_ambient_sound st1 !! EmptyString = Some e)
      by (by rewrite Fsnd, Nsnd).
    assert (Hheld : m_ambient_slot st1 !! slot = Some e).
    { rewrite Hst1, switched_slot. simpl. by rewrite lookup_insert_eq. }
    assert (Hvalid : is_Some (ambients st1 !! e)).
    { apply lookup_lt_is_Some. rewrite Flen, Namb.
      apply lookup_lt_is_Some. by apply (proj1 (proj2 Hwf) EmptyString). }
    pose proof (getAmbientSound_unloadable _ _ _ Hav1 Hmiss1
                  (loadSound_outcome_run env _ _ _ _ Hload3)) as Hget3.
    rewrite (setAmbient_available env _ _ _ _ _ _ Hav1 Hget3).
    rewrite Gslot, Hheld, Ga, Gsnd, Hplace1.
    rewrite bool_decide_eq_false_2 by done.
    destruct Hvalid as [ae Hae]. rewrite Hae.
    eexists. split_and!; try done.
    + rewrite switched_slot, Gslot. simpl. by apply insert_id.
    + intros [? | [? ?]]; congruence.
    + intros _ _. split; [congruence|].
      rewrite switched_playback by done. rewrite Gquiet.
      unfold sound_plays. rewrite app_nil_r. f_equal.
      unfold occupant_stops, occupant_playing. by rewrite Gslot, Ga.
Qed.

End SetAmbient.

#[local] Instance keeps_placeholder_preorder : PreOrder keeps_placeholder.
Proof.
  split; [intros s H; exact H | intros s1 s2 s3 H1 H2 H; exact (H2 (H1 H))].
Qed.

#[local] Instance keeps_wf_preorder : PreOrder keeps_wf.
Proof.
  split; [intros s H; exact H | intros s1 s2 s3 H1 H2 H; exact (H2 (H1 H))].
Qed.

Ltac placeholder_bind :=
  repeat first
    [ steps_step
    | lazymatch goal with
      | |- steps _ (modify (set_m_ambient_sound _)) =>
          let Hs := fresh in
          apply (steps_modify _); intros ? Hs;
          apply lookup_insert_is_Some'; right; exact Hs
      | |- steps _ (modify _) =>
          let Hs := fresh in apply (steps_modify _); intros ? Hs; exact Hs
      end
    | solve [auto] ].

(** ** The invariant of the reachable states *)

Section Invariant.
Variable env : Env.

Lemma wf_same s s' :
  cache s' = cache s -> buffers s' = buffers s -> ambients s' = ambients s ->
  m_ambient_sound s' = m_ambient_sound s ->
  m_ambient_slot s' = m_ambient_slot s ->
  wf s -> wf s'.
Proof.
  intros E1 E2 E3 E4 E5. unfold wf, wf_cache. by rewrite E1, E2, E3, E4, E5.
Qed.

Lemma wf_init path st st' :
  init env path st = Some (tt, st') ->
  wf st -> wf st' /\ is_Some (m_ambient_sound st' !! EmptyString).
Proof.
  rewrite init_eq. intros [= <-] (W1 & W2 & W3).
  assert (Hgrow : forall m : gmap string nat,
    map_Forall (fun _ a => is_Some (ambients st !! a)) m ->
    map_Forall (fun _ a => is_Some ((ambients st ++ [placeholder]) !! a)) m).
  { intros m Hm k a Hk. destruct (Hm k a Hk) as [x Hx].
    exists x. by apply lookup_app_l_Some. }
  split.
  - unfold wf, wf_cache.
    destruct (PathExists env path); state_simpl; split_and!; try done;
      try (by apply Hgrow);
      (apply map_Forall_insert_2; [|by apply Hgrow]);
      rewrite lookup_app_r by lia; rewrite Nat.sub_diag; by eexists.
  - state_simpl. rewrite lookup_insert_eq. by eexists.
Qed.

Lemma wf_createSource name b st r st' :
  createSource env name b st = Some (r, st') -> wf st -> wf st'.
Proof.
  intros Hrun Hwf.
  destruct (m_sound_source st !! name) as [v|] eqn:Hp.
  { rewrite (createSource_present env _ _ _ _ Hp) in Hrun.
    injection Hrun as _ <-. revert Hwf. by apply wf_same. }
  destruct (loadSound_runs env b st) as (data & st1 & Hload & Hout).
  apply loadSound_frame in Hout. destruct Hout as [Haudio _ Hwfc _ _].
  pose proof (wf_same_audio _ _ Haudio Hwfc Hwf) as Hwf1.
  destruct data as [d|].
  - destruct (buffers st1 !! d) as [sb|] eqn:Hd.
    + rewrite (createSource_absent_loaded env _ _ _ _ _ _ Hp Hload Hd) in Hrun.
      injection Hrun as _ <-. revert Hwf1. by apply wf_same.
    + unfold createSource, SoundSource_ctor in Hrun. munfold.
      rewrite Hp, Hload in Hrun.
      rewrite (bool_decide_eq_false_2 (Some d = None)) in Hrun by done.
      cbv beta iota in Hrun. by rewrite Hd in Hrun.
  - rewrite (createSource_absent_unloadable env _ _ _ _ Hp Hload) in Hrun.
    injection Hrun as _ <-. revert Hwf1. by apply wf_same.
Qed.

Lemma wf_getSource name st r st' :
  getSource name st = Some (r, st') -> wf st -> wf st'.
Proof.
  intros Hrun.
  destruct (m_sound_source st !! name) as [v|] eqn:Hp.
  - rewrite (getSource_present _ _ _ Hp) in Hrun. by injection Hrun as _ <-.
  - rewrite (getSource_absent _ _ Hp) in Hrun. injection Hrun as _ <-.
    by apply wf_same.
Qed.

Lemma wf_switched slot b ap snd target sa :
  is_Some (ambients sa !! target) -> default target snd = target ->
  wf sa -> wf (switched slot b ap snd target sa).
Proof.
  intros Hvalid Htarget (W1 & W2 & W3).
  pose proof (switched_frame slot b ap snd target sa) as (E1&E2&_&_&E3&E4).
  pose proof (switched_slot slot b ap snd target sa) as E5.
  unfold wf, wf_cache. rewrite E1, E2, E3, E5, Htarget.
  assert (Hlen : forall a, is_Some (ambients sa !! a) ->
            is_Some (ambients (switched slot b ap snd target sa) !! a)).
  { intros a. rewrite !lookup_lt_is_Some. by rewrite E4. }
  split_and!.
  - exact W1.
  - intros k a Hk. apply Hlen. by eapply W2.
  - apply map_Forall_insert_2; [by apply Hlen|].
    intros k a Hk. apply Hlen. by eapply W3.
Qed.

Lemma wf_setAmbient slot b ap st st' :
  setAmbient env slot b ap st = Some (tt, st') -> wf st -> wf st'.
Proof.
  intros Hrun Hwf.
  destruct (isAvailable st) eqn:Hav.
  2:{ rewrite setAmbient_unavailable in Hrun by done. by injection Hrun as <-. }
  destruct (getAmbientSound_runs env b st (proj1 Hwf)) as (snd & sa & Hget).
  pose proof (getAmbientSound_inv env _ _ _ _ Hget) as Hout.
  pose proof (getAmbientSound_frame env _ _ _ _ Hout)
    as [_ _ _ _ _ _ Hwfa Hsome _].
  pose proof (Hwfa Hwf) as Hwfsa. destruct Hwfsa as (_ & Hsounds & _).
  rewrite (setAmbient_available env _ _ _ _ _ _ Hav Hget) in Hrun.
  assert (Hn : forall n, snd = Some n -> is_Some (ambients sa !! n)).
  { intros n ->. eapply (Hsounds b). by apply Hsome. }
  assert (Htail :
    match snd with
    | Some n =>
        match ambients sa !! n with
        | Some _ => Some (tt, switched slot b ap snd n sa)
        | None => None
        end
    | None =>
        match m_ambient_sound sa !! EmptyString with
        | Some e => Some (tt, switched slot b ap snd e sa)
        | None => None
        end
    end = Some (tt, st') -> wf st').
  { destruct snd as [n|].
    - destruct (Hn n eq_refl) as [an Han]. rewrite Han. intros Heq.
      assert (st' = switched slot b ap (Some n) n sa) as -> by congruence.
      apply wf_switched; [by eexists|done|by apply Hwfa].
    - destruct (m_ambient_sound sa !! EmptyString) as [e|] eqn:He; [|done].
      intros Heq.
      assert (st' = switched slot b ap None e sa) as -> by congruence.
      apply wf_switched; [|done|by apply Hwfa].
      by apply (Hsounds EmptyString). }
  destruct (m_ambient_slot sa !! slot) as [old|].
  - destruct (bool_decide (Some old = snd)).
    { injection Hrun as <-. by apply Hwfa. }
    destruct (ambients sa !! old); [|done].
    apply Htail. destruct snd as [n|]; [|done].
    destruct (Hn n eq_refl) as [an Han]. by rewrite Han in *.
  - apply Htail. destruct snd as [n|]; [|done].
    destruct (Hn n eq_refl) as [an Han]. by rewrite Han in *.
Qed.

Lemma wf_run_op o st st' :
  run_op env o st = Some (tt, st') -> wf st -> wf st'.
Proof.
  destruct o; unfold run_op; intros Hrun Hwf.
  - by apply (wf_init _ _ _ Hrun).
  - rewrite findSoundFile_eq in Hrun || (unfold mbind, M_bind in Hrun;
      rewrite findSoundFile_eq in Hrun). by injection Hrun as <-.
  - unfold mbind, M_bind in Hrun.
    destruct (loadSound env basename st) as [[r s1]|] eqn:Hload; [|done].
    injection Hrun as <-. apply loadSound_inv, loadSound_frame in Hload.
    destruct Hload as [Haudio _ Hwfc _ _]. by apply (wf_same_audio st).
  - unfold mbind, M_bind in Hrun.
    destruct (loadOggFile env fname st) as [[r s1]|] eqn:Hload; [|done].
    injection Hrun as <-. apply loadOggFile_inv, loadOggFile_frame in Hload.
    destruct Hload as [Haudio _ Hwfc _ _]. by apply (wf_same_audio st).
  - unfold mbind, M_bind in Hrun.
    destruct (getAmbientSound env basename st) as [[r s1]|] eqn:Hget; [|done].
    injection Hrun as <-. apply getAmbientSound_inv, getAmbientSound_frame in Hget.
    by apply Hget.
  - by apply (wf_setAmbient _ _ _ _ _ Hrun).
  - unfold mbind, M_bind in Hrun.
    destruct (createSource env sourcename basename st) as [[r s1]|] eqn:Hc; [|done].
    injection Hrun as <-. by apply (wf_createSource _ _ _ _ _ Hc).
  - unfold mbind, M_bind in Hrun.
    destruct (getSource sourcename st) as [[r s1]|] eqn:Hc; [|done].
    injection Hrun as <-. by apply (wf_getSource _ _ _ _ Hc).
  - unfold updateListener in Hrun. munfold.
    destruct (isAvailable st); cbv beta iota delta [negb] in Hrun;
      injection Hrun as <-; [revert Hwf; by apply wf_same | done].
  - unfold shutdown in Hrun. munfold. injection Hrun as <-.
    revert Hwf. by apply wf_same.
Qed.

Lemma wf_run_ops os st st' :
  run_ops env os st = Some (tt, st') -> wf st -> wf st'.
Proof.
  revert st. induction os as [|o os IH]; intros st; simpl.
  - by intros [= <-].
  - unfold mbind, M_bind.
    destruct (run_op env o st) as [[[] s1]|] eqn:Hop; [|done].
    intros Hrun Hwf. apply (IH _ Hrun). by apply (wf_run_op _ _ _ Hop).
Qed.

Lemma placeholder_loadOggFile fname :
  steps keeps_placeholder (loadOggFile env fname).
Proof.
  unfold loadOggFile, log, call, new_SoundBuffer, al_gen_name. placeholder_bind.
Qed.

Lemma placeholder_loadSound b : steps keeps_placeholder (loadSound env b).
Proof.
  pose proof placeholder_loadOggFile.
  unfold loadSound, findSoundFile, log. placeholder_bind.
Qed.

Lemma placeholder_SoundSource_ctor buf :
  steps keeps_placeholder (SoundSource_ctor buf).
Proof. unfold SoundSource_ctor, call, al_gen_name. placeholder_bind. Qed.

Lemma placeholder_getAmbientSound b :
  steps keeps_placeholder (getAmbientSound env b).
Proof.
  pose proof placeholder_loadSound. pose proof placeholder_SoundSource_ctor.
  unfold getAmbientSound, AmbientSound_ctor, new_AmbientSound. placeholder_bind.
Qed.

Lemma placeholder_run_op o : steps keeps_placeholder (run_op env o).
Proof.
  pose proof placeholder_loadOggFile. pose proof placeholder_loadSound.
  pose proof placeholder_SoundSource_ctor. pose proof placeholder_getAmbientSound.
  destruct o; unfold run_op, init, findSoundFile, setAmbient, createSource,
    getSource, updateListener, shutdown, AmbientSound_ctor,
    AmbientSound_isPlaying, AmbientSound_play, AmbientSound_stop,
    new_AmbientSound, new_SoundSource, log, call; placeholder_bind.
Qed.

Lemma placeholder_run_ops os : steps keeps_placeholder (run_ops env os).
Proof.
  induction os as [|o os IH]; simpl.
  - apply (steps_ret _).
  - apply (steps_bind _); [apply placeholder_run_op | intros _; exact IH].
Qed.

Lemma keeps_wf_Audio_ctor : steps keeps_wf (Audio_ctor env).
Proof.
  unfold Audio_ctor, shutdown, log, call. cbv zeta.
  repeat first
    [ steps_step
    | lazymatch goal with
      | |- steps _ (modify _) =>
          apply (steps_modify _); intros ?; unfold keeps_wf;
          apply wf_same; reflexivity
      end ].
Qed.

Lemma wf_process_start listener : wf (process_start listener).
Proof. unfold wf, wf_cache, process_start. split_and!; apply map_Forall_empty. Qed.

(** Every state the program reaches once [init] has run is well formed
    and holds the placeholder. *)
Lemma reachable_invariant listener path os st :
  (Audio_ctor env ≫= fun _ => init env path ≫= fun _ => run_ops env os)
    (process_start listener) = Some (tt, st) ->
  wf st /\ is_Some (m_ambient_sound st !! EmptyString).
Proof.
  unfold mbind at 1, M_bind at 1.
  destruct (Audio_ctor env (process_start listener)) as [[[] s1]|] eqn:Hctor; [|done].
  unfold mbind at 1, M_bind at 1.
  destruct (init env path s1) as [[[] s2]|] eqn:Hinit; [|done].
  intros Hrun.
  pose proof (keeps_wf_Audio_ctor _ _ _ Hctor (wf_process_start listener)) as Hwf1.
  destruct (wf_init _ _ _ Hinit Hwf1) as [Hwf2 Hp2].
  split.
  - by apply (wf_run_ops _ _ _ Hrun).
  - by apply (placeholder_run_ops _ _ _ _ Hrun).
Qed.

End Invariant.

#[local] Instance same_entry_preorder name : PreOrder (same_entry name).
Proof.
  split; [by intros s | intros s1 s2 s3 H1 H2].
  unfold same_entry in *. congruence.
Qed.

Ltac entry_bind :=
  repeat first
    [ steps_step
    | lazymatch goal with
      | |- steps _ (modify (set_m_sound_source _)) =>
          apply (steps_modify _); intros ?; unfold same_entry;
          by apply lookup_insert_ne
      | |- steps _ (modify _) =>
          apply (steps_modify _); intros ?; reflexivity
      end
    | solve [auto] ].

(** ** Names never passed to [createSource] *)

Section NeverCreated.
Variable env : Env.

Lemma entry_loadOggFile name fname :
  steps (same_entry name) (loadOggFile env fname).
Proof.
  unfold loadOggFile, log, call, new_SoundBuffer, al_gen_name. entry_bind.
Qed.

Lemma entry_loadSound name b : steps (same_entry name) (loadSound env b).
Proof.
  pose proof (entry_loadOggFile name).
  unfold loadSound, findSoundFile, log. entry_bind.
Qed.

Lemma entry_SoundSource_ctor name buf :
  steps (same_entry name) (SoundSource_ctor buf).
Proof. unfold SoundSource_ctor, call, al_gen_name. entry_bind. Qed.

Lemma entry_getAmbientSound name b :
  steps (same_entry name) (getAmbientSound env b).
Proof.
  pose proof (entry_loadSound name). pose proof (entry_SoundSource_ctor name).
  unfold getAmbientSound, AmbientSound_ctor, new_AmbientSound. entry_bind.
Qed.

Lemma entry_Audio_ctor name : steps (same_entry name) (Audio_ctor env).
Proof. unfold Audio_ctor, shutdown, log, call. cbv zeta. entry_bind. Qed.

Lemma entry_init name path : steps (same_entry name) (init env path).
Proof.
  unfold init, AmbientSound_ctor, SoundSource_ctor, new_AmbientSound, log.
  entry_bind.
Qed.

Lemma entry_run_op name o :
  ~ creates name o -> o <> op_getSource name ->
  steps (same_entry name) (run_op env o).
Proof.
  intros Hc Hg.
  pose proof (entry_loadOggFile name). pose proof (entry_loadSound name).
  pose proof (entry_SoundSource_ctor name).
  pose proof (entry_getAmbientSound name). pose proof (entry_init name).
  destruct o; unfold run_op; try (by auto).
  - unfold findSoundFile. entry_bind.
  - entry_bind.
  - entry_bind.
  - entry_bind.
  - unfold setAmbient, AmbientSound_isPlaying, AmbientSound_play,
      AmbientSound_stop, log, call. entry_bind.
  - assert (sourcename <> name) by (intros ->; by apply Hc).
    unfold createSource, new_SoundSource, log. entry_bind.
  - assert (sourcename <> name) by (intros ->; by apply Hg).
    unfold getSource, SoundSource_ctor, new_SoundSource, log. entry_bind.
  - unfold updateListener, call. entry_bind.
  - unfold shutdown, log, call. entry_bind.
Qed.

Lemma placeholder_entry_run_op name o st st' :
  ~ creates name o ->
  run_op env o st = Some (tt, st') ->
  placeholder_entry name st -> placeholder_entry name st'.
Proof.
  intros Hc Hrun Hinv.
  assert (Hcase : o = op_getSource name \/ o <> op_getSource name).
  { destruct o; try (right; discriminate).
    destruct (decide (sourcename = name)) as [-> | Hne]; [by left|].
    right. congruence. }
  destruct Hcase as [-> | Hg].
  - unfold run_op, mbind, M_bind in Hrun.
    destruct (m_sound_source st !! name) as [v|] eqn:Hp.
    + rewrite (getSource_present _ _ _ Hp) in Hrun. by injection Hrun as <-.
    + rewrite (getSource_absent _ _ Hp) in Hrun. injection Hrun as <-.
      intros l. state_simpl. rewrite lookup_insert_eq. intros [= <-].
      rewrite lookup_app_r by lia. by rewrite Nat.sub_diag.
  - intros l Hl. rewrite (entry_run_op name o Hc Hg _ _ _ Hrun) in Hl.
    destruct (extends_run_op env o _ _ _ Hrun) as (_ & _ & _ & Hsrc).
    eapply prefix_lookup_Some; [|exact Hsrc]. by apply Hinv.
Qed.

Lemma placeholder_entry_run_ops name os st st' :
  never_created name os ->
  run_ops env os st = Some (tt, st') ->
  placeholder_entry name st -> placeholder_entry name st'.
Proof.
  intros Hnever. revert st.
  induction Hnever as [|o os Ho Hos IH]; intros st; simpl.
  - by intros [= <-].
  - unfold mbind, M_bind.
    destruct (run_op env o st) as [[[] s1]|] eqn:Hop; [|done].
    intros Hrun Hinv. apply (IH _ Hrun).
    by apply (placeholder_entry_run_op name o st).
Qed.

(** C7. For a name never passed to [createSource], in any state the
    program reaches, [getSource] returns a source, not null, that is an
    empty placeholder (null buffer) registered under that name; every later
    [getSource] of the name, whatever operations ran in between, returns
    that same object, still empty. *)
Theorem getSource_never_created name listener os st :
  never_created name os ->
  (Audio_ctor env ≫= fun _ => run_ops env os) (process_start listener)
    = Some (tt, st) ->
  exists l st1,
    getSource name st = Some (Some l, st1) /\
    sources st1 !! l = Some empty_source /\
    m_buffer empty_source = None /\
    m_sound_source st1 !! name = Some l /\
    forall os' st2,
      run_ops env os' st1 = Some (tt, st2) ->
      getSource name st2 = Some (Some l, st2) /\
      sources st2 !! l = Some empty_source.
Proof.
  intros Hnever Hrun.
  assert (Hinv : placeholder_entry name st).
  { unfold mbind at 1, M_bind at 1 in Hrun.
    destruct (Audio_ctor env (process_start listener)) as [[[] s1]|] eqn:Hctor;
      [|done].
    apply (placeholder_entry_run_ops name os s1 st Hnever Hrun).
    intros l.
    rewrite (entry_Audio_ctor name _ _ _ Hctor).
    unfold process_start. state_simpl. by rewrite lookup_empty. }
  destruct (m_sound_source st !! name) as [v|] eqn:Hp.
  - exists v, st. split_and!; try done.
    + by apply getSource_present.
    + by apply Hinv.
    + intros os' st2 Hops.
      apply extends_run_ops in Hops as (_ & _ & Hreg & Hsrc). split.
      * apply getSource_present. by eapply lookup_weaken.
      * eapply prefix_lookup_Some; [|exact Hsrc]. by apply Hinv.
  - by apply getSource_creates_placeholder.
Qed.

End NeverCreated.

(** ** Counterexamples and witnesses on the concrete machines *)

#[local] Instance wf_dec s : Decision (wf s).
Proof. unfold wf, wf_cache. apply _. Defined.



(** C1 as stated fails: without a device, [createSource] on a new name
    returns a source and registers it. *)
Lemma createSource_without_device_counterexample :
  isAvailable st_nodev = false /\
  ~ returns_null_untouched (createSource env_nodev "footstep" "step") st_nodev.
Proof.
  split; [reflexivity|]. intros (st' & Hrun & _).
  vm_compute in Hrun. discriminate Hrun.
Qed.

(** C8 as stated fails: with the placeholder playing, the second
    assignment of a name that does not resolve stops it. *)
Lemma setAmbient_twice_counterexample :
  ~ second_call_is_noop env_demo "cave" "drip" false st_hum.
Proof.
  intros Hnoop.
  assert (H1 : setAmbient env_demo "cave" "drip" false st_hum = Some (tt, st_hum1))
    by (vm_compute; reflexivity).
  assert (H2 : setAmbient env_demo "cave" "drip" false st_hum1 = Some (tt, st_hum2))
    by (vm_compute; reflexivity).
  destruct (Hnoop _ _ H1 H2) as [_ Hcalls].
  vm_compute in Hcalls. discriminate Hcalls.
Qed.

Lemma failed_decode_is_not_cached_witness :
  cache st_demo !! "snd/torn.ogg" = None /\
  (exists f, ov_fopen env_demo "snd/torn.ogg" = Some f /\ negative_read (reads f)) /\
  exists st', loadOggFile env_demo "snd/torn.ogg" st_demo = Some (None, st') /\
              cache st' = cache st_demo /\ cache st' !! "snd/torn.ogg" = None.
Proof.
  assert (Hneg : exists f, ov_fopen env_demo "snd/torn.ogg" = Some f /\
                           negative_read (reads f)).
  { exists torn_ogg. split; [vm_compute; reflexivity|].
    exists [(1, [Byte.x05])], (-3), [], []. split_and!.
    - repeat constructor.
    - lia.
    - reflexivity. }
  split; [vm_compute; reflexivity|]. split; [exact Hneg|].
  apply (failed_decode_is_not_cached env_demo "snd/torn.ogg" st_demo).
  - vm_compute; reflexivity.
  - right. exact Hneg.
Defined.

Lemma decoded_buffer_contents_witness :
  cache st_demo !! "snd/birds.ogg" = None /\
  loadOggFile env_demo "snd/birds.ogg" st_demo = Some (Some 0%nat, st_birds) /\
  exists f sb chunks,
    ov_fopen env_demo "snd/birds.ogg" = Some f /\
    buffers st_birds !! 0%nat = Some sb /\
    (format sb = AL_FORMAT_MONO16 <-> channels f = 1) /\
    (channels f <> 1 -> format sb = AL_FORMAT_STEREO16) /\
    freq sb = rate f /\
    reads_until_eos (reads f) chunks /\
    buffer sb = concat (map chunk_data chunks).
Proof.
  split; [vm_compute; reflexivity|]. split; [vm_compute; reflexivity|].
  apply (decoded_buffer_contents env_demo "snd/birds.ogg" st_demo 0%nat st_birds);
    vm_compute; reflexivity.
Defined.


Lemma createSource_twice_same_source_witness :
  map_Forall (fun _ l => is_Some (sources st_demo !! l)) (m_sound_source st_demo) /\
  createSource env_demo "steps" "birds" st_demo = Some (Some 0%nat, st_steps) /\
  exists l src,
    Some 0%nat = Some l /\
    m_sound_source st_steps !! "steps" = Some l /\
    sources st_steps !! l = Some src /\
    exists st2,
      createSource env_demo "steps" "wind" st_steps = Some (Some l, st2) /\
      m_sound_source st2 !! "steps" = Some l /\
      sources st2 !! l = Some src /\
      infostream st2 = infostream st_steps ++ [recreate_line "steps"] /\
      m_sound_source st2 = m_sound_source st_steps /\
      sources st2 = sources st_steps /\
      cache st2 = cache st_steps /\ buffers st2 = buffers st_steps /\
      calls st2 = calls st_steps.
Proof.
  assert (Hvalid : map_Forall (fun _ l => is_Some (sources st_demo !! l))
                     (m_sound_source st_demo))
    by (apply (bool_decide_unpack _); vm_compute; exact I).
  split; [exact Hvalid|]. split; [vm_compute; reflexivity|].
  apply (createSource_twice_same_source env_demo "steps" "birds" "wind" st_demo
           (Some 0%nat) st_steps);
    [exact Hvalid | vm_compute; reflexivity].
Defined.

Lemma getSource_never_created_witness :
  never_created "ghost" ghost_history /\
  (Audio_ctor env_demo ≫= fun _ => run_ops env_demo ghost_history)
    (process_start (replicate 12 f32_zero)) = Some (tt, st_ghost) /\
  exists l st1,
    getSource "ghost" st_ghost = Some (Some l, st1) /\
    sources st1 !! l = Some empty_source /\
    m_buffer empty_source = None /\
    m_sound_source st1 !! "ghost" = Some l /\
    forall os' st2,
      run_ops env_demo os' st1 = Some (tt, st2) ->
      getSource "ghost" st2 = Some (Some l, st2) /\
      sources st2 !! l = Some empty_source.
Proof.
  assert (Hnever : never_created "ghost" ghost_history).
  { repeat constructor; simpl; [tauto | tauto | discriminate]. }
  split; [exact Hnever|]. split; [vm_compute; reflexivity|].
  apply (getSource_never_created env_demo "ghost" (replicate 12 f32_zero)
           ghost_history st_ghost Hnever).
  vm_compute; reflexivity.
Defined.

Lemma no_device_operations_witness :
  alcOpenDevice env_nodev = None /\
  (Audio_ctor env_nodev ≫= fun _ => init env_nodev "snd/" ≫= fun _ =>
     run_ops env_nodev nodev_history) (process_start (replicate 12 f32_zero))
    = Some (tt, st_nodev_after) /\
  isAvailable st_nodev_after = false /\
  (forall slot s ap,
     setAmbient env_nodev slot s ap st_nodev_after = Some (tt, st_nodev_after)) /\
  (forall cam vel, updateListener cam vel st_nodev_after = Some (tt, st_nodev_after)) /\
  (forall a x, exists l st',
     createSource env_nodev a x st_nodev_after = Some (Some l, st') /\
     isAvailable st' = false /\
     cache st' = cache st_nodev_after /\ buffers st' = buffers st_nodev_after /\
     m_ambient_sound st' = m_ambient_sound st_nodev_after /\
     m_ambient_slot st' = m_ambient_slot st_nodev_after /\
     ambients st' = ambients st_nodev_after /\ calls st' = calls st_nodev_after /\
     match m_sound_source st_nodev_after !! a with
     | Some v =>
         l = v /\ m_sound_source st' = m_sound_source st_nodev_after /\
         sources st' = sources st_nodev_after /\
         infostream st' = infostream st_nodev_after ++ [recreate_line a]
     | None =>
         l = length (sources st_nodev_after) /\
         m_sound_source st' = <[a := l]> (m_sound_source st_nodev_after) /\
         sources st' = sources st_nodev_after ++ [empty_source] /\
         infostream st' = infostream st_nodev_after ++ [not_available_line a x]
     end).
Proof.
  split; [reflexivity|]. split; [vm_compute; reflexivity|].
  apply (no_device_operations env_nodev "snd/" nodev_history
           (process_start (replicate 12 f32_zero)) st_nodev_after);
    [reflexivity | vm_compute; reflexivity].
Defined.

Lemma setAmbient_twice_witness :
  wf st_rain /\ is_Some (m_ambient_sound st_rain !! EmptyString) /\
  exists st1 st2,
    setAmbient env_demo "weather" "birds" false st_rain = Some (tt, st1) /\
    setAmbient env_demo "weather" "birds" false st1 = Some (tt, st2) /\
    m_ambient_slot st2 = m_ambient_slot st1 /\
    (isAvailable st_rain = false \/ is_Some (m_ambient_sound st1 !! "birds") ->
     st2 = st1) /\
    (isAvailable st_rain = true -> m_ambient_sound st1 !! "birds" = None ->
     m_ambient_slot st1 !! "weather" = m_ambient_sound st1 !! EmptyString /\
     playback (calls st2) = playback (calls st1) ++ occupant_stops "weather" st1).
Proof.
  assert (Hwf : wf st_rain) by (apply (bool_decide_unpack _); vm_compute; exact I).
  assert (Hp : is_Some (m_ambient_sound st_rain !! EmptyString))
    by (exists 0%nat; vm_compute; reflexivity).
  split; [exact Hwf|]. split; [exact Hp|].
  exact (setAmbient_twice env_demo "weather" "birds" false st_rain Hwf Hp).
Defined.

Lemma setAmbient_switches_slot_witness :
  isAvailable st_rain = true /\ wf st_rain /\
  m_ambient_sound st_rain !! EmptyString = Some 0%nat /\
  exists snd sa st',
    getAmbientSound env_demo "birds" st_rain = Some (snd, sa) /\
    setAmbient env_demo "weather" "birds" false st_rain = Some (tt, st') /\
    ((forall old, m_ambient_slot st_rain !! "weather" = Some old -> snd <> Some old) ->
     playback (calls st') =
       playback (calls st_rain) ++ occupant_stops "weather" st_rain
         ++ sound_plays "weather" false snd st_rain /\
     match snd with
     | Some n => m_ambient_slot st' = <["weather" := n]> (m_ambient_slot st_rain)
     | None => m_ambient_slot st' = <["weather" := 0%nat]> (m_ambient_slot st_rain)
     end /\
     (forall old, m_ambient_slot st_rain !! "weather" = Some old ->
                  is_playing old st' = false) /\
     (forall n, snd = Some n -> occupant_playing "weather" st_rain || false = true ->
                is_playing n st' = true)).
Proof.
  assert (Hwf : wf st_rain) by (apply (bool_decide_unpack _); vm_compute; exact I).
  split; [reflexivity|]. split; [exact Hwf|]. split; [vm_compute; reflexivity|].
  apply (setAmbient_switches_slot env_demo "weather" "birds" false st_rain 0%nat);
    [reflexivity | exact Hwf | vm_compute; reflexivity].
Defined.

Lemma wav_is_found_but_never_loaded_witness :
  PathExists env_demo (sound_base st_demo "wind" +:+ "ogg") = false /\
  PathExists env_demo (sound_base st_demo "wind" +:+ "wav") = true /\
  findSoundFile env_demo "wind" st_demo =
    Some ((sound_base st_demo "wind" +:+ "wav", LOADER_WAV), st_demo) /\
  (exists st',
     loadSound env_demo "wind" st_demo = Some (None, st') /\
     cache st' = cache st_demo /\ buffers st' = buffers st_demo /\
     calls st' = calls st_demo /\
     (isAvailable st_demo = true ->
      infostream st' =
        infostream st_demo ++
          [found_line "wind" (sound_base st_demo "wind" +:+ "wav");
           no_loader_line (sound_base st_demo "wind" +:+ "wav")])) /\
  (forall name s d s',
     loadSound env_demo name s = Some (Some d, s') ->
     PathExists env_demo (sound_base s name +:+ "ogg") = true).
Proof.
  split; [vm_compute; reflexivity|]. split; [vm_compute; reflexivity|].
  apply (wav_is_found_but_never_loaded env_demo "wind" st_demo);
    vm_compute; reflexivity.
Defined.

(** * Further properties of the code *)

(** ** The constructor, [shutdown] and the destructor *)

Ltac ctor_run :=
  repeat (progress (munfold; cbv beta iota delta [negb] in *));
  try change (1 =? 0) with false; try change (0 =? 0) with true;
  repeat (progress (munfold; cbv beta iota delta [negb] in *)).

Section Lifetime.
Variable env : Env.

(** The constructor returns, with both handles null or with the handles
    the device gave. *)
Lemma Audio_ctor_runs st :
  exists st',
    Audio_ctor env st = Some (tt, st') /\
    ((m_device st' = None /\ m_context st' = None /\
      ~ exists dev ctx,
          alcOpenDevice env = Some dev /\ alcCreateContext env = Some ctx /\
          alcMakeContextCurrent env (Some ctx) = true /\
          alcGetError env (Some dev) = ALC_NO_ERROR) \/
     (exists dev ctx,
        alcOpenDevice env = Some dev /\ alcCreateContext env = Some ctx /\
        alcMakeContextCurrent env (Some ctx) = true /\
        alcGetError env (Some dev) = ALC_NO_ERROR /\
        m_device st' = Some dev /\ m_context st' = Some ctx /\
        m_can_vorbis st' = alcIsExtensionPresent env)).
Proof.
  unfold Audio_ctor, shutdown. cbv zeta.
  destruct (alcOpenDevice env) as [dev|] eqn:Hdev; munfold.
  2:{ eexists. split; [reflexivity|]. left. split_and!; [done..|].
      by intros (? & ? & ? & _). }
  destruct (alcIsExtensionPresent env) eqn:Hext; munfold.
  all: destruct (alcCreateContext env) as [ctx|] eqn:Hctx; munfold.
  all: destruct (alcMakeContextCurrent env _) eqn:Hcur; ctor_run.
  all: try (destruct (alcGetError env _ =? ALC_NO_ERROR) eqn:E; ctor_run).
  all: eexists; (split; [reflexivity|]).
  all: first [apply Z.eqb_eq in E | apply Z.eqb_neq in E | idtac].
  all: first
    [ right; exists dev, ctx; by split_and!
    | left; (split_and!; [done..|]);
      intros (d & c & [= <-] & [= <-] & Hc & Herr); congruence
    | left; (split_and!; [done..|]); by intros (d & c & _ & ? & _) ].
Qed.

(** X1. The constructor always returns, and it leaves the system available
    exactly when the device opened, the context was created, the context
    could be made current and the device then held no error; the members
    then hold the handles the device gave and the extension flag. *)
Theorem Audio_ctor_available_iff st :
  exists st',
    Audio_ctor env st = Some (tt, st') /\
    (isAvailable st' = true <->
     exists dev ctx,
       alcOpenDevice env = Some dev /\ alcCreateContext env = Some ctx /\
       alcMakeContextCurrent env (Some ctx) = true /\
       alcGetError env (Some dev) = ALC_NO_ERROR) /\
    (isAvailable st' = true ->
     m_device st' = alcOpenDevice env /\ m_context st' = alcCreateContext env /\
     m_can_vorbis st' = alcIsExtensionPresent env).
Proof.
  destruct (Audio_ctor_runs st) as (st' & Hrun & Hcases).
  exists st'. split; [done|]. unfold isAvailable.
  destruct Hcases as [(Hd & Hc & Hno) | (dev & ctx & H1 & H2 & H3 & H4 & Hd & Hc & Hv)].
  - rewrite Hc. split; [|done]. split; [done|]. intros H. destruct (Hno H).
  - rewrite Hc, Hd, H1, H2. split; [|done]. split; [|done].
    intros _. by exists dev, ctx.
Qed.



Lemma shutdown_eq st :
  shutdown st =
    Some (tt,
          set_infostream (fun l => l ++ ["OpenAL context and devices cleared"])
            (set_m_device None
               (set_m_context None
                  (set_calls
                     (fun l => l ++ shutdown_calls (m_device st) (m_context st))
                     st)))).
Proof.
  unfold shutdown, shutdown_calls. munfold. by rewrite <- !app_assoc.
Qed.

(** X4. [shutdown] always returns and leaves the system unavailable, with
    both handles null, after releasing the context before the device.  It
    stops no sound and removes nothing: the cache, the registries and the
    objects stay; but the lookups that check availability no longer reach
    them: [loadSound] and [getAmbientSound] return null for every name,
    cached or not, while [getSource] still returns the registered
    sources.  A second [shutdown] returns as well, and makes the same three
    calls on null handles. *)
Theorem shutdown_hides_the_sounds st :
  exists st',
    shutdown st = Some (tt, st') /\
    isAvailable st' = false /\ m_device st' = None /\
    calls st' = calls st ++ shutdown_calls (m_device st) (m_context st) /\
    cache st' = cache st /\ buffers st' = buffers st /\
    sources st' = sources st /\ ambients st' = ambients st /\
    m_sound_source st' = m_sound_source st /\
    m_ambient_sound st' = m_ambient_sound st /\
    m_ambient_slot st' = m_ambient_slot st /\
    (forall b, loadSound env b st' = Some (None, st')) /\
    (forall b, getAmbientSound env b st' = Some (None, st')) /\
    (forall name l, m_sound_source st !! name = Some l ->
                    getSource name st' = Some (Some l, st')) /\
    (exists st'',
       shutdown st' = Some (tt, st'') /\ isAvailable st'' = false /\
       calls st'' = calls st' ++ shutdown_calls None None).
Proof.
  rewrite shutdown_eq. eexists. split; [reflexivity|].
  split_and!; try reflexivity.
  - intros name l Hl. by apply getSource_present.
  - rewrite shutdown_eq. eexists. by split_and!.
Qed.

Lemma Audio_dtor_eq st :
  Audio_dtor st = if isAvailable st then shutdown st else Some (tt, st).
Proof. unfold Audio_dtor. munfold. by destruct (isAvailable st). Qed.

(** X5. The destructor always returns and leaves the system unavailable;
    it releases nothing twice: on an unavailable system, and so after
    [shutdown] or after a first destruction, it makes no call and changes
    nothing. *)
Theorem Audio_dtor_releases_once st :
  exists st1,
    Audio_dtor st = Some (tt, st1) /\
    isAvailable st1 = false /\
    (isAvailable st = false -> st1 = st) /\
    Audio_dtor st1 = Some (tt, st1) /\
    (shutdown ≫= fun _ => Audio_dtor) st = shutdown st.
Proof.
  rewrite Audio_dtor_eq.
  assert (Hafter : (shutdown ≫= fun _ => Audio_dtor) st = shutdown st).
  { unfold mbind, M_bind. rewrite shutdown_eq. cbv beta iota.
    by rewrite Audio_dtor_eq. }
  destruct (isAvailable st) eqn:Hav.
  - rewrite Hafter, shutdown_eq. eexists. split; [reflexivity|].
    split_and!; try done.
  - exists st. split_and!; try done. rewrite Audio_dtor_eq. by rewrite Hav.
Qed.

End Lifetime.

(** ** The device and the context handle *)

#[local] Instance same_handles_preorder : PreOrder same_handles.
Proof.
  split; [by intros s | intros s1 s2 s3 [H1 H2] [H3 H4]].
  unfold same_handles in *. split; congruence.
Qed.

Ltac handles_bind :=
  repeat first
    [ steps_step
    | lazymatch goal with
      | |- steps _ (modify _) =>
          apply (steps_modify _); intros ?; split; reflexivity
      end
    | solve [auto] ].

Section Handles.
Variable env : Env.

Lemma handles_loadOggFile fname : steps same_handles (loadOggFile env fname).
Proof.
  unfold loadOggFile, log, call, new_SoundBuffer, al_gen_name. handles_bind.
Qed.

Lemma handles_loadSound b : steps same_handles (loadSound env b).
Proof.
  pose proof handles_loadOggFile.
  unfold loadSound, findSoundFile, log. handles_bind.
Qed.

Lemma handles_SoundSource_ctor buf : steps same_handles (SoundSource_ctor buf).
Proof. unfold SoundSource_ctor, call, al_gen_name. handles_bind. Qed.

Lemma handles_getAmbientSound b : steps same_handles (getAmbientSound env b).
Proof.
  pose proof handles_loadSound. pose proof handles_SoundSource_ctor.
  unfold getAmbientSound, AmbientSound_ctor, new_AmbientSound. handles_bind.
Qed.

Lemma handles_run_op o : o <> op_shutdown -> steps same_handles (run_op env o).
Proof.
  pose proof handles_loadOggFile. pose proof handles_loadSound.
  pose proof handles_SoundSource_ctor. pose proof handles_getAmbientSound.
  intros Ho.
  destruct o; [..|done]; unfold run_op, init, findSoundFile, setAmbient,
    createSource, getSource, updateListener, AmbientSound_ctor,
    AmbientSound_isPlaying, AmbientSound_play, AmbientSound_stop,
    new_AmbientSound, new_SoundSource, log, call; handles_bind.
Qed.

Lemma paired_run_ops os st st' :
  run_ops env os st = Some (tt, st') ->
  (is_Some (m_device st) <-> is_Some (m_context st)) ->
  (is_Some (m_device st') <-> is_Some (m_context st')).
Proof.
  revert st. induction os as [|o os IH]; intros st; simpl.
  - by intros [= <-].
  - unfold mbind, M_bind.
    destruct (run_op env o st) as [[[] s1]|] eqn:Hop; [|done].
    intros Hrun Hp. apply (IH _ Hrun).
    assert (o = op_shutdown \/ o <> op_shutdown) as [-> | Ho]
      by (destruct o; first [by left | by right]).
    + simpl in Hop. rewrite shutdown_eq in Hop. injection Hop as <-.
      state_simpl. split; intros []; done.
    + destruct (handles_run_op o Ho _ _ _ Hop) as [-> ->]. exact Hp.
Qed.

(** X6. In every state the program reaches after the constructor, the
    device handle and the context handle are both set or both null: no
    operation leaves a device open without a context, or a context on a
    closed device. *)
Theorem device_and_context_together os st0 st :
  (Audio_ctor env ≫= fun _ => run_ops env os) st0 = Some (tt, st) ->
  (is_Some (m_device st) <-> is_Some (m_context st)).
Proof.
  unfold mbind at 1, M_bind at 1.
  destruct (Audio_ctor_runs env st0) as (s1 & Hctor & Hcases).
  rewrite Hctor. intros Hrun. apply (paired_run_ops _ _ _ Hrun).
  destruct Hcases as [(-> & -> & _) | (dev & ctx & _ & _ & _ & _ & -> & -> & _)].
  - split; intros []; done.
  - split; by eexists.
Qed.

End Handles.

(** ** The singleton *)

Section Singleton.
Variable env : Env.

Lemma device_opens_app cs cs' :
  device_opens (cs ++ cs') = (device_opens cs + device_opens cs')%nat.
Proof. unfold device_opens. by rewrite List.filter_app, length_app. Qed.

Ltac count_opens :=
  state_simpl; rewrite !device_opens_app;
  repeat match goal with
         | |- context [device_opens [?c]] =>
             let v := eval vm_compute in (device_opens [c]) in
             change (device_opens [c]) with v
         end;
  lia.

Lemma Audio_ctor_opens_once st :
  exists st',
    Audio_ctor env st = Some (tt, st') /\
    device_opens (calls st') = S (device_opens (calls st)).
Proof.
  unfold Audio_ctor, shutdown. cbv zeta.
  destruct (alcOpenDevice env) as [dev|] eqn:Hdev; munfold.
  2:{ eexists. split; [reflexivity|]. count_opens. }
  destruct (alcIsExtensionPresent env) eqn:Hext; munfold.
  all: destruct (alcCreateContext env) as [ctx|] eqn:Hctx; munfold.
  all: destruct (alcMakeContextCurrent env _) eqn:Hcur; ctor_run.
  all: try (destruct (alcGetError env _ =? ALC_NO_ERROR) eqn:E; ctor_run).
  all: eexists; (split; [reflexivity|]).
  all: count_opens.
Qed.

Lemma system_calls_set n p :
  m_system p = true -> system_calls env n p = Some p.
Proof.
  intros Hp. induction n as [|n IH]; [done|].
  simpl. unfold system. by rewrite Hp.
Qed.

(** X7. [Audio::system()] builds the audio system on the first call only:
    however many calls follow, they return the object of the first, and the
    device has been opened exactly once, also when that failed: a failed
    start is never tried again. *)
Theorem system_opens_device_once n p :
  m_system p = false ->
  exists p1,
    system env p = Some p1 /\
    m_system p1 = true /\
    system_calls env (S n) p = Some p1 /\
    device_opens (calls (audio p1)) = S (device_opens (calls (audio p))).
Proof.
  intros Hnull. simpl. unfold system at 1 2. rewrite Hnull.
  unfold new_Audio. munfold.
  match goal with
  | |- context [Audio_ctor env ?s] =>
      destruct (Audio_ctor_opens_once s) as (s1 & -> & Hopens)
  end.
  eexists. split_and!; [reflexivity..| |].
  - by apply system_calls_set.
  - exact Hopens.
Qed.

End Singleton.

(** ** Finding and loading a sound *)

Section Loading.
Variable env : Env.

(** The object put on a heap last is at the index the heap had as
    length. *)
Lemma lookup_new_object {A} (h : list A) (x : A) : (h ++ [x]) !! length h = Some x.
Proof. rewrite lookup_app_r by lia. by rewrite Nat.sub_diag. Qed.

(** X8. The loop of [findSoundFile], on any table of extensions, returns
    the first candidate that exists, with the format tag advanced once for
    every candidate tried before it; when no candidate exists it returns
    the empty string, with the tag advanced once for every entry of the
    table.  The tag is a [u8]: it advances modulo 256. *)
Theorem findSoundFile_loop_first_match base pre fmt :
  0 <= fmt < 256 ->
  Forall (fun x => PathExists env (base +:+ x) = false) pre ->
  findSoundFile_loop env base pre fmt =
    (EmptyString, (fmt + Z.of_nat (length pre)) mod 256) /\
  forall e post,
    PathExists env (base +:+ e) = true ->
    findSoundFile_loop env base (pre ++ e :: post) fmt =
      (base +:+ e, (fmt + Z.of_nat (length pre)) mod 256).
Proof.
  intros Hfmt Hpre. revert fmt Hfmt.
  induction Hpre as [|x pre Hx Hpre IH]; intros fmt Hfmt.
  - simpl. rewrite Z.add_0_r, Z.mod_small by lia. split; [done|].
    intros e post He. by rewrite He.
  - assert (Hnext : 0 <= (fmt + 1) mod 256 < 256) by (apply Z.mod_pos_bound; lia).
    destruct (IH _ Hnext) as [IH1 IH2].
    assert (Hmod : ((fmt + 1) mod 256 + Z.of_nat (length pre)) mod 256 =
                   (fmt + Z.of_nat (length (x :: pre))) mod 256).
    { rewrite Zplus_mod_idemp_l. f_equal. simpl length. lia. }
    split.
    + simpl findSoundFile_loop. rewrite Hx, IH1. by rewrite Hmod.
    + intros e post He. simpl findSoundFile_loop. rewrite Hx, (IH2 _ _ He).
      by rewrite Hmod.
Qed.

(** X9. [findSoundFile] never changes the state, and what it returns is
    sound: a non-empty path names an existing file, with the Vorbis tag
    for the ".ogg" candidate and the WAV tag for the ".wav" candidate, the
    latter only when there is no ".ogg" candidate; the path is empty, with
    the tag past the table, exactly when neither candidate exists. *)
Theorem findSoundFile_finds_an_existing_file basename st :
  let ogg := sound_base st basename +:+ "ogg" in
  let wav := sound_base st basename +:+ "wav" in
  exists fname fmt,
    findSoundFile env basename st = Some ((fname, fmt), st) /\
    (fname = EmptyString <->
     PathExists env ogg = false /\ PathExists env wav = false) /\
    (fname = EmptyString -> fmt = LOADER_UNK) /\
    (fname <> EmptyString ->
     PathExists env fname = true /\
     (fname = ogg /\ fmt = LOADER_VORBIS \/
      fname = wav /\ fmt = LOADER_WAV /\ PathExists env ogg = false)).
Proof.
  cbv zeta. rewrite findSoundFile_eq.
  assert (Hne : forall e, e <> EmptyString ->
                          sound_base st basename +:+ e <> EmptyString)
    by (intros e; apply append_nonempty).
  destruct (PathExists env (sound_base st basename +:+ "ogg")) eqn:Hogg;
    [|destruct (PathExists env (sound_base st basename +:+ "wav")) eqn:Hwav];
    eexists _, _; (split; [reflexivity|]); split_and!.
  - split; [intros H; by apply Hne in H | by intros [? _]].
  - intros H. by apply Hne in H.
  - intros _. split; [done|]. by left.
  - split; [intros H; by apply Hne in H | by intros [_ ?]].
  - intros H. by apply Hne in H.
  - intros _. split; [done|]. by right.
  - done.
  - done.
  - done.
Qed.

Lemma read_loop_partial chunks bytes array rest acc :
  Forall (fun r => 0 < r.1) chunks -> bytes < 0 ->
  read_loop (chunks ++ (bytes, array) :: rest) acc =
    DecodeError (acc ++ concat (map chunk_data chunks)).
Proof.
  intros Hpos Hneg. revert acc.
  induction Hpos as [|[n a] chunks Hn Hpos IH]; intros acc; simpl.
  - destruct (Z.ltb_spec bytes 0); [|lia]. by rewrite app_nil_r.
  - simpl in Hn. destruct (Z.ltb_spec n 0); [lia|].
    destruct (Z.ltb_spec 0 n); [|lia].
    rewrite IH. unfold chunk_data at 2. simpl. by rewrite app_assoc.
Qed.

(** A stream with samples decodes to a payload that is not empty. *)
Lemma read_loop_not_empty f pcm :
  has_samples f -> read_loop (reads f) [] = DecodeDone pcm -> pcm <> [].
Proof.
  unfold has_samples. destruct (reads f) as [|[n a] rs]; [done|].
  intros [Hn Ha]. simpl.
  destruct (Z.ltb_spec n 0); [done|]. destruct (Z.ltb_spec 0 n); [|lia].
  intros Hr.
  pose proof (read_loop_inv rs (take (Z.to_nat n) a)) as Hinv.
  rewrite Hr in Hinv. destruct Hinv as (chunks & _ & ->).
  destruct a as [|x a]; [by destruct Ha|].
  destruct (Z.to_nat n) eqn:E; [lia|]. done.
Qed.

(** X10. For a sound whose stream, if the decoder opens one, has samples,
    [loadSound] returns, and it returns a buffer exactly when the system
    is available, the ".ogg" candidate exists, and its file is in the
    cache or can be opened and read to the end of the stream.  A buffer
    that was not in the cache before holds a payload that is not empty. *)
Theorem loadSound_returns_a_buffer_iff basename st :
  let ogg := sound_base st basename +:+ "ogg" in
  (forall f, ov_fopen env ogg = Some f -> has_samples f) ->
  exists r st',
    loadSound env basename st = Some (r, st') /\
    (is_Some r <->
     isAvailable st = true /\ PathExists env ogg = true /\
     (is_Some (cache st !! ogg) \/
      exists f chunks,
        ov_fopen env ogg = Some f /\ reads_until_eos (reads f) chunks)) /\
    (cache st !! ogg = None ->
     forall d, r = Some d ->
       exists sb, buffers st' !! d = Some sb /\ buffer sb <> []).
Proof.
  cbv zeta. intros Hsamples.
  destruct (loadSound_runs env basename st) as (r & st' & Hrun & Hout).
  exists r, st'. split; [done|].
  inversion Hout as [Hav | Hav Hogg Hwav | Hav Hogg Hwav | r' s' Hav Hogg Hin];
    subst.
  - split; [|by intros _ d [=]].
    split; [by intros [? [=]] | intros (? & _); congruence].
  - split; [|by intros _ d [=]].
    split; [by intros [? [=]] | intros (_ & ? & _); congruence].
  - split; [|by intros _ d [=]].
    split; [by intros [? [=]] | intros (_ & ? & _); congruence].
  - inversion Hin as [b Hb | Hc Ho | f partial Hc Ho Hr | f pcm Hc Ho Hr]; subst;
      change (cache (set_infostream ?g st)) with (cache st) in *.
    + split; [|intros Hmiss; congruence].
      split; [|by eexists]. intros _. split_and!; [done..|]. left. by eexists.
    + split; [|by intros _ d [=]].
      split; [by intros [? [=]]|]. intros (_ & _ & [[? Hhit] | (f & ? & Hf & _)]);
        congruence.
    + split; [|by intros _ d [=]].
      split; [by intros [? [=]]|].
      intros (_ & _ & [[? Hhit] | (f' & chunks & Hf & Heos)]); [congruence|].
      assert (f' = f) as -> by congruence.
      rewrite (read_loop_done _ _ [] Heos) in Hr. done.
    + split.
      * split; [|by eexists]. intros _. split_and!; [done..|]. right.
        pose proof (read_loop_inv (reads f) []) as Hinv. rewrite Hr in Hinv.
        destruct Hinv as (chunks & Heos & _). by exists f, chunks.
      * intros _ d [= <-].
        pose proof (read_loop_not_empty f pcm (Hsamples f Ho) Hr) as Hpcm.
        eexists. split.
        { unfold decoded_state. state_simpl. apply lookup_new_object. }
        exact Hpcm.
Qed.


(** X12. When a read fails in the middle of a stream, the buffer object
    built so far is left allocated: it holds the chunks read before the
    failure and no buffer name, and nothing refers to it, as the cache, the
    sources and the ambient sounds are what they were.  The decoder is
    released, and the device is not touched.  Whatever operations follow,
    the object stays allocated as it is. *)
Theorem failed_decode_leaves_the_buffer fname st f chunks bytes array rest :
  cache st !! fname = None ->
  ov_fopen env fname = Some f ->
  Forall (fun r => 0 < r.1) chunks -> bytes < 0 ->
  reads f = chunks ++ (bytes, array) :: rest ->
  exists st',
    loadOggFile env fname st = Some (None, st') /\
    buffers st' =
      buffers st ++
        [mkSoundBuffer (ogg_format f) (rate f) 0 (concat (map chunk_data chunks))] /\
    cache st' = cache st /\ sources st' = sources st /\
    ambients st' = ambients st /\ al_names st' = al_names st /\
    calls st' = calls st ++ [ov_fopen_call fname; ov_clear_call fname] /\
    (wf_cache st ->
     map_Forall (fun _ b => b <> length (buffers st)) (cache st')) /\
    (forall os st2,
       run_ops env os st' = Some (tt, st2) ->
       buffers st2 !! length (buffers st) =
         Some (mkSoundBuffer (ogg_format f) (rate f) 0
                 (concat (map chunk_data chunks)))).
Proof.
  intros Hmiss Hopen Hpos Hneg Hreads.
  pose proof (read_loop_partial chunks bytes array rest [] Hpos Hneg) as Hr.
  rewrite <- Hreads in Hr. simpl in Hr.
  rewrite (loadOggFile_decode_error env _ _ _ _ Hmiss Hopen Hr).
  eexists. split; [reflexivity|]. split_and!; try reflexivity.
  - state_simpl. by rewrite <- app_assoc.
  - intros Hwf k b Hk. destruct (Hwf k b Hk) as [sb Hsb].
    apply lookup_lt_Some in Hsb. lia.
  - intros os st2 Hops. apply extends_run_ops in Hops as (_ & Hpre & _ & _).
    eapply prefix_lookup_Some; [|exact Hpre]. state_simpl.
    apply lookup_new_object.
Qed.

Lemma decoder_opens_app fname cs cs' :
  decoder_opens fname (cs ++ cs') =
    (decoder_opens fname cs + decoder_opens fname cs')%nat.
Proof. unfold decoder_opens. by rewrite List.filter_app, length_app. Qed.

Lemma decoder_opens_one fname :
  decoder_opens fname [ov_fopen_call fname] = 1%nat.
Proof. unfold decoder_opens. simpl. by rewrite bool_decide_eq_true_2. Qed.

Lemma loadSound_broken basename st ogg :
  sound_base st basename +:+ "ogg" = ogg ->
  isAvailable st = true -> PathExists env ogg = true ->
  cache st !! ogg = None ->
  (ov_fopen env ogg = None \/
   exists f, ov_fopen env ogg = Some f /\ negative_read (reads f)) ->
  exists st1,
    loadSound env basename st = Some (None, st1) /\
    cache st1 = cache st /\ m_path st1 = m_path st /\
    m_context st1 = m_context st /\
    decoder_opens ogg (calls st1) = S (decoder_opens ogg (calls st)).
Proof.
  intros Hbase Hav Hogg Hmiss [Hopen | (f & Hopen & Hneg)].
  - eexists. split.
    + apply loadSound_outcome_run. apply sound_vorbis; [done|by rewrite Hbase|].
      rewrite Hbase. by apply ogg_open_error.
    + split_and!; try reflexivity. state_simpl.
      rewrite decoder_opens_app, decoder_opens_one. lia.
  - destruct (read_loop_error _ [] Hneg) as [partial Hr]. eexists. split.
    + apply loadSound_outcome_run. apply sound_vorbis; [done|by rewrite Hbase|].
      rewrite Hbase. by eapply ogg_decode_error.
    + split_and!; try reflexivity. state_simpl.
      rewrite !decoder_opens_app, decoder_opens_one.
      change (decoder_opens ogg [ov_clear_call ogg]) with 0%nat. lia.
Qed.

(** X13. A failure is not remembered: while a file cannot be opened, or
    fails to decode, every [loadSound] of its name finds the file again,
    opens it for decoding again and leaves the cache as it was. *)
Theorem broken_file_is_opened_every_time basename st n :
  let ogg := sound_base st basename +:+ "ogg" in
  isAvailable st = true -> PathExists env ogg = true ->
  cache st !! ogg = None ->
  (ov_fopen env ogg = None \/
   exists f, ov_fopen env ogg = Some f /\ negative_read (reads f)) ->
  exists st',
    run_ops env (replicate n (op_loadSound basename)) st = Some (tt, st') /\
    cache st' = cache st /\
    decoder_opens ogg (calls st') = (decoder_opens ogg (calls st) + n)%nat.
Proof.
  intros ogg Hav Hogg Hmiss Hfail.
  assert (Hbase : sound_base st basename +:+ "ogg" = ogg) by done.
  clearbody ogg. revert st Hbase Hav Hmiss.
  induction n as [|n IH]; intros st Hbase Hav Hmiss.
  - exists st. split_and!; [done..|]. lia.
  - destruct (loadSound_broken basename st ogg Hbase Hav Hogg Hmiss Hfail)
      as (st1 & Hload & Hc & Hp & Hctx & Hcount).
    destruct (IH st1) as (st' & Hrun & Hc' & Hcount').
    { unfold sound_base in *. by rewrite Hp. }
    { unfold isAvailable in *. by rewrite Hctx. }
    { by rewrite Hc. }
    exists st'. split_and!.
    + simpl. unfold mbind, M_bind. rewrite Hload. exact Hrun.
    + congruence.
    + lia.
Qed.

Lemma length_chunks chunks :
  Forall (fun r : Z * list Byte.byte => 0 < r.1 /\ r.1 <= Z.of_nat (length r.2))
    chunks ->
  Z.of_nat (length (concat (map chunk_data chunks))) = total_bytes chunks.
Proof.
  induction 1 as [|[n a] chunks [Hn Ha] _ IH]; [done|].
  simpl in *. rewrite length_app, Nat2Z.inj_add, IH. f_equal.
  unfold chunk_data. simpl. rewrite length_take. lia.
Qed.

(** X15. For a stream with samples, in which every read delivers the
    bytes it reports, with a total and a rate in the range of the 32-bit
    [ALsizei]: the payload of the decoded buffer is not empty and has as
    many bytes as the reads reported in total; that is the size passed to
    the device, and it and the rate are in the range of [ALsizei], so they
    reach the device as they are.  The decoder is opened, the buffer name
    generated, the payload uploaded and the decoder released, in that
    order. *)
Theorem upload_size_is_bytes_read fname st f chunks :
  cache st !! fname = None ->
  ov_fopen env fname = Some f ->
  reads_until_eos (reads f) chunks ->
  chunks <> [] ->
  Forall (fun r => r.1 <= Z.of_nat (length r.2)) chunks ->
  fits_ALsizei (total_bytes chunks) ->
  fits_ALsizei (rate f) ->
  exists b st' sb,
    loadOggFile env fname st = Some (Some b, st') /\
    buffers st' !! b = Some sb /\
    bufferID sb = al_names st /\
    buffer sb <> [] /\
    Z.of_nat (length (buffer sb)) = total_bytes chunks /\
    fits_ALsizei (Z.of_nat (length (buffer sb))) /\
    freq sb = rate f /\ fits_ALsizei (freq sb) /\
    calls st' =
      calls st ++
        [ ov_fopen_call fname;
          alGenBuffers_call (al_names st);
          alBufferData_call (al_names st) (format sb) (buffer sb)
            (total_bytes chunks) (freq sb);
          ov_clear_call fname ].
Proof.
  intros Hmiss Hopen Heos Hsome Hfull Hsize Hrate.
  pose proof (read_loop_done _ _ [] Heos) as Hr. simpl in Hr.
  assert (Hlen : Z.of_nat (length (concat (map chunk_data chunks))) =
                 total_bytes chunks).
  { apply length_chunks. destruct Heos as [Hpos _].
    rewrite Forall_forall in *. intros r Hin. split; auto. }
  assert (Hpcm : concat (map chunk_data chunks) <> []).
  { destruct Heos as [Hpos _].
    destruct chunks as [|[n a] chunks]; [done|].
    apply Forall_cons in Hpos as [Hn _]. apply Forall_cons in Hfull as [Ha _].
    simpl in *. unfold chunk_data. simpl.
    destruct a as [|x a]; [simpl in Ha; lia|].
    destruct (Z.to_nat n) eqn:E; [lia|]. done. }
  rewrite (loadOggFile_decoded env _ _ _ _ Hmiss Hopen Hr).
  eexists _, _, _. split; [reflexivity|]. state_simpl. split_and!.
  - rewrite lookup_app_r by lia. by rewrite Nat.sub_diag.
  - reflexivity.
  - exact Hpcm.
  - exact Hlen.
  - simpl. by rewrite Hlen.
  - reflexivity.
  - exact Hrate.
  - simpl. by rewrite Hlen.
Qed.

End Loading.

(** ** Sources *)

Section MoreSources.
Variable env : Env.

(** [createSource] on a name that is not registered. *)
Lemma createSource_absent name b st :
  m_sound_source st !! name = None -> wf_cache st ->
  exists data st0 l st1 src,
    loadSound env b st = Some (data, st0) /\
    createSource env name b st = Some (Some l, st1) /\
    l = length (sources st0) /\
    sources st1 = sources st0 ++ [src] /\
    m_sound_source st1 = <[name := l]> (m_sound_source st0) /\
    m_buffer src = data /\ m_relative src = false.
Proof.
  intros Hp Hwf.
  destruct (loadSound_runs env b st) as (data & st0 & Hload & Hout).
  apply loadSound_frame in Hout. destruct Hout as [_ _ Hwf1 Hsome _].
  exists data, st0. destruct data as [d|].
  - destruct (Hsome d eq_refl) as [fname Hf].
    destruct (Hwf1 Hwf fname d Hf) as [sb Hd].
    rewrite (createSource_absent_loaded env _ _ _ _ _ _ Hp Hload Hd).
    eexists _, _, _. by split_and!.
  - rewrite (createSource_absent_unloadable env _ _ _ _ Hp Hload).
    eexists _, _, _. by split_and!.
Qed.

(** X16. A source created under a new name is bound to what [loadSound]
    returned for the sound, null included, and is not relative; from then
    on, whatever operations run, [getSource] on that name returns this
    very source, changes nothing, and the source object stays what it
    was. *)
Theorem getSource_returns_the_created_source a x st :
  m_sound_source st !! a = None -> wf_cache st ->
  exists data st0 l st1 src,
    loadSound env x st = Some (data, st0) /\
    createSource env a x st = Some (Some l, st1) /\
    sources st1 !! l = Some src /\
    m_buffer src = data /\ m_relative src = false /\
    forall os st2,
      run_ops env os st1 = Some (tt, st2) ->
      getSource a st2 = Some (Some l, st2) /\
      sources st2 !! l = Some src.
Proof.
  intros Hp Hwf.
  destruct (createSource_absent a x st Hp Hwf)
    as (data & st0 & l & st1 & src & Hload & Hrun & Hl & Hsrc & Hreg & Hbuf & Hrel).
  exists data, st0, l, st1, src.
  assert (Hobj : sources st1 !! l = Some src).
  { rewrite Hsrc, Hl. apply lookup_new_object. }
  split_and!; try done.
  intros os st2 Hops. apply extends_run_ops in Hops as (_ & _ & Hregs & Hsrcs).
  split.
  - apply getSource_present. eapply lookup_weaken; [|exact Hregs].
    rewrite Hreg. by rewrite lookup_insert_eq.
  - by eapply prefix_lookup_Some.
Qed.

(** A successful lookup leaves the file in the cache, the system
    available and the candidate in place. *)
Lemma loadSound_loaded x st d st0 :
  loadSound env x st = Some (Some d, st0) ->
  isAvailable st = true /\
  PathExists env (sound_base st x +:+ "ogg") = true /\
  cache st0 !! (sound_base st x +:+ "ogg") = Some d /\
  m_path st0 = m_path st /\ m_context st0 = m_context st /\
  m_sound_source st0 = m_sound_source st /\ sources st0 = sources st.
Proof.
  intros Hload. pose proof (loadSound_inv env _ _ _ _ Hload) as Hout.
  pose proof (loadSound_frame env _ _ _ _ Hout)
    as [(Es & _ & _ & Ectx & _ & Epath & Ereg & _) _ _ _ _].
  inversion Hout as [ | | | r s' Hav Hogg Hin]; subst.
  split_and!; try done.
  inversion Hin as [b Hb | | | f pcm Hc Ho Hr]; subst.
  - exact Hb.
  - unfold decoded_state. state_simpl. by rewrite lookup_insert_eq.
Qed.

(** X17. Two sources created on the same sound share its buffer: the
    second [createSource] finds the file in the cache, so the decoder is
    not called again and no buffer is added; the two sources are distinct
    objects with distinct device names, both bound to the one buffer. *)
Theorem sources_share_the_buffer a b x st d st0 :
  a <> b ->
  m_sound_source st !! a = None -> m_sound_source st !! b = None ->
  wf_cache st ->
  loadSound env x st = Some (Some d, st0) ->
  exists la lb st1 st2 sb,
    createSource env a x st = Some (Some la, st1) /\
    createSource env b x st1 = Some (Some lb, st2) /\
    la <> lb /\
    buffers st2 !! d = Some sb /\
    sources st2 !! la = Some (mkSoundSource (Some d) false (Some (al_names st0))) /\
    sources st2 !! lb =
      Some (mkSoundSource (Some d) false (Some (al_names st0 + 1))) /\
    buffers st2 = buffers st1 /\ cache st2 = cache st1 /\
    calls st2 = calls st1 ++ source_calls (al_names st0 + 1) sb.
Proof.
  intros Hab Ha Hb Hwf Hload.
  destruct (loadSound_loaded _ _ _ _ Hload)
    as (Hav & Hogg & Hhit & Hpath & Hctx & Hreg & Hsrc).
  pose proof (loadSound_frame env _ _ _ _ (loadSound_inv env _ _ _ _ Hload))
    as [_ _ Hwf0 _ _].
  destruct (Hwf0 Hwf _ _ Hhit) as [sb Hd].
  pose proof (createSource_absent_loaded env _ _ _ _ _ _ Ha Hload Hd) as Hfirst.
  set (st1 := set_m_sound_source _ _) in Hfirst.
  assert (Hload1 : loadSound env x st1 =
            Some (Some d,
                  set_infostream
                    (fun l => l ++ [cached_line (sound_base st x +:+ "ogg")])
                    (set_infostream
                       (fun l => l ++ [found_line x (sound_base st x +:+ "ogg")])
                       st1))).
  { assert (Hbase : sound_base st1 x = sound_base st x)
      by (unfold sound_base, st1; state_simpl; by rewrite Hpath).
    apply loadSound_outcome_run. apply sound_vorbis.
    - unfold isAvailable in *. unfold st1. state_simpl. by rewrite Hctx.
    - by rewrite Hbase.
    - rewrite Hbase. by apply ogg_cached. }
  assert (Hb1 : m_sound_source st1 !! b = None).
  { unfold st1. state_simpl. rewrite lookup_insert_ne by done. by rewrite Hreg. }
  pose proof (createSource_absent_loaded env _ _ _ _ _ _ Hb1 Hload1 Hd) as Hsecond.
  assert (Hlen : length (sources st1) = S (length (sources st0))).
  { unfold st1. state_simpl. rewrite length_app. simpl. lia. }
  exists (length (sources st0)), (length (sources st1)), st1.
  eexists _, sb. split; [exact Hfirst|]. split; [exact Hsecond|].
  rewrite Hlen. unfold st1. state_simpl. split_and!; try done.
  - rewrite lookup_app_l by (rewrite length_app; simpl; lia). apply lookup_new_object.
  - rewrite <- Hlen. unfold st1. state_simpl. apply lookup_new_object.
Qed.

End MoreSources.

(** ** Ambient slots that share a sound *)

Section SharedAmbient.
Variable env : Env.

(** What a [setAmbient] call on a resolved name leaves. *)
Lemma setAmbient_resolved slot s ap st e n st0 :
  isAvailable st = true -> wf st -> m_ambient_sound st !! EmptyString = Some e ->
  getAmbientSound env s st = Some (Some n, st0) ->
  exists st1,
    setAmbient env slot s ap st = Some (tt, st1) /\
    m_ambient_slot st1 = <[slot := n]> (m_ambient_slot st0) /\
    m_ambient_sound st1 = m_ambient_sound st0 /\
    m_ambient_sound st1 !! s = Some n /\
    m_ambient_sound st1 !! EmptyString = Some e /\
    isAvailable st1 = true /\ wf st1 /\
    length (ambients st1) = length (ambients st0).
Proof.
  intros Hav Hwf He Hget.
  destruct (setAmbient_runs env slot s ap st e Hav Hwf He)
    as (snd & sa & Hget' & Hout & Hset).
  rewrite Hget in Hget'. injection Hget' as <- <-.
  pose proof (getAmbientSound_frame env _ _ _ _ Hout)
    as [Hslot Hctx _ _ Hsub _ _ Hsome _].
  eexists. split; [exact Hset|].
  assert (Hframe :
    let st1 := if bool_decide (is_Some (Some n) /\ m_ambient_slot st0 !! slot = Some n)
               then st0 else switched slot s ap (Some n) n st0 in
    m_ambient_slot st1 = <[slot := n]> (m_ambient_slot st0) /\
    m_context st1 = m_context st0 /\
    m_ambient_sound st1 = m_ambient_sound st0 /\
    length (ambients st1) = length (ambients st0)).
  { cbv zeta. case_bool_decide as Hb.
    - destruct Hb as [_ Hheld]. split_and!; try done.
      symmetry. by apply insert_id.
    - pose proof (switched_frame slot s ap (Some n) n st0) as (_&_&E1&_&E2&E3).
      split_and!; try done. by rewrite switched_slot. }
  cbv zeta in Hframe. simpl default in *.
  destruct Hframe as (F1 & F2 & F3 & F4).
  split_and!; try done.
  - rewrite F3. by apply Hsome.
  - rewrite F3. by eapply lookup_weaken.
  - unfold isAvailable in *. by rewrite F2, Hctx.
  - by apply (wf_setAmbient env _ _ _ _ _ Hset).
Qed.

(** X18. Two slots set to the same sound share one [AmbientSound] object:
    after [setAmbient] on each of them with a name that resolves, both
    slots hold the object registered under that name, and the second call
    has created no object. *)
Theorem slots_share_the_ambient_sound slot1 slot2 s ap1 ap2 st e n st0 :
  isAvailable st = true -> wf st -> m_ambient_sound st !! EmptyString = Some e ->
  getAmbientSound env s st = Some (Some n, st0) ->
  exists st1 st2,
    setAmbient env slot1 s ap1 st = Some (tt, st1) /\
    setAmbient env slot2 s ap2 st1 = Some (tt, st2) /\
    m_ambient_slot st2 !! slot1 = Some n /\
    m_ambient_slot st2 !! slot2 = Some n /\
    m_ambient_sound st2 !! s = Some n /\
    length (ambients st2) = length (ambients st0).
Proof.
  intros Hav Hwf He Hget.
  destruct (setAmbient_resolved slot1 s ap1 st e n st0 Hav Hwf He Hget)
    as (st1 & Hset1 & Hslot1 & _ & Hreg1 & He1 & Hav1 & Hwf1 & Hlen1).
  pose proof (getAmbientSound_cached env _ _ _ Hav1 Hreg1) as Hget1.
  destruct (setAmbient_resolved slot2 s ap2 st1 e n st1 Hav1 Hwf1 He1 Hget1)
    as (st2 & Hset2 & Hslot2 & _ & Hreg2 & _ & _ & _ & Hlen2).
  exists st1, st2. split_and!; try done.
  - rewrite Hslot2, Hslot1.
    destruct (decide (slot2 = slot1)) as [-> | Hne].
    + by rewrite lookup_insert_eq.
    + rewrite lookup_insert_ne by done. by rewrite lookup_insert_eq.
  - rewrite Hslot2. by rewrite lookup_insert_eq.
  - congruence.
Qed.

(** X19. A shared sound is stopped for every slot that holds it: when
    two slots hold the same object and one of them is switched to another
    sound, or to the placeholder, the object is not playing afterwards,
    although the other slot still holds it. *)
Theorem switching_a_slot_silences_the_shared_sound slot1 slot2 t ap st e n :
  isAvailable st = true -> wf st -> m_ambient_sound st !! EmptyString = Some e ->
  slot1 <> slot2 ->
  m_ambient_slot st !! slot1 = Some n -> m_ambient_slot st !! slot2 = Some n ->
  exists snd st0 st',
    getAmbientSound env t st = Some (snd, st0) /\
    setAmbient env slot1 t ap st = Some (tt, st') /\
    (snd <> Some n ->
     m_ambient_slot st' !! slot2 = Some n /\ is_playing n st' = false).
Proof.
  intros Hav Hwf He Hne H1 H2.
  destruct (setAmbient_runs env slot1 t ap st e Hav Hwf He)
    as (snd & sa & Hget & Hout & Hset).
  pose proof (getAmbientSound_frame env _ _ _ _ Hout)
    as [Hslot _ _ _ _ _ _ _ _].
  exists snd, sa. eexists. split_and!; [done..|].
  intros Hother. rewrite bool_decide_eq_false_2.
  2:{ intros [_ Hheld]. rewrite Hslot, H1 in Hheld. by apply Hother. }
  split.
  - rewrite switched_slot, Hslot. by rewrite lookup_insert_ne.
  - apply switched_old_stopped; [by rewrite Hslot | done].
Qed.

(** X20. [autoplay] does not start a sound the slot already holds: when
    the slot holds the object registered under the name, [setAmbient]
    returns at once whatever [autoplay] is, so a sound that was stopped
    stays stopped. *)
Theorem setAmbient_does_not_restart slot s ap st n :
  isAvailable st = true ->
  m_ambient_sound st !! s = Some n ->
  m_ambient_slot st !! slot = Some n ->
  setAmbient env slot s ap st = Some (tt, st).
Proof.
  intros Hav Hreg Hheld.
  rewrite (setAmbient_available env _ _ _ _ _ _ Hav
             (getAmbientSound_cached env _ _ _ Hav Hreg)).
  rewrite Hheld. by rewrite bool_decide_eq_true_2.
Qed.

Lemma stop_occupant_quiet slot st :
  occupant_playing slot st = false -> stop_occupant slot st = st.
Proof.
  unfold occupant_playing, stop_occupant.
  destruct (m_ambient_slot st !! slot) as [old|]; [|done].
  destruct (ambients st !! old) as [a|]; [|done]. by intros ->.
Qed.

(** X21. A switch without [autoplay] on a slot that is free, or whose
    occupant is not playing, is quiet: no [play()] and no [stop()] is
    issued and no object changes its [playing] flag; in particular a sound
    that is playing through another slot goes on playing. *)
Theorem quiet_switch slot s st e :
  isAvailable st = true -> wf st -> m_ambient_sound st !! EmptyString = Some e ->
  occupant_playing slot st = false ->
  exists st',
    setAmbient env slot s false st = Some (tt, st') /\
    playback (calls st') = playback (calls st) /\
    forall l, is_Some (ambients st !! l) -> is_playing l st' = is_playing l st.
Proof.
  intros Hav Hwf He Hquiet.
  destruct (setAmbient_runs env slot s false st e Hav Hwf He)
    as (snd & sa & Hget & Hout & Hset).
  pose proof (getAmbientSound_frame env _ _ _ _ Hout)
    as [Hslot _ _ Hpre _ Hq _ _ _].
  destruct (occupant_same slot st sa Hslot Hpre (proj2 (proj2 Hwf)))
    as [Hplaying _].
  rewrite Hquiet in Hplaying.
  assert (Hsame : forall l, is_Some (ambients st !! l) ->
                            is_playing l sa = is_playing l st).
  { intros l [a Ha]. unfold is_playing.
    by rewrite Ha, (prefix_lookup_Some _ _ _ _ Ha Hpre). }
  eexists. split; [exact Hset|].
  case_bool_decide; [done|].
  unfold switched. rewrite Hplaying, (stop_occupant_quiet _ _ Hplaying).
  destruct snd as [n|]; split; try done; intros l Hl;
    rewrite <- (Hsame l Hl); reflexivity.
Qed.

End SharedAmbient.

(** ** An ambient sound is created once *)

#[local] Instance keeps_ambient_names_preorder : PreOrder keeps_ambient_names.
Proof.
  split; [intros s k v _ H; exact H|].
  intros s1 s2 s3 H1 H2 k v Hk H. exact (H2 k v Hk (H1 k v Hk H)).
Qed.

Ltac names_bind :=
  repeat first
    [ steps_step
    | lazymatch goal with
      | |- steps _ (modify (set_m_ambient_sound (insert EmptyString _))) =>
          let Hk := fresh in let Hv := fresh in
          apply (steps_modify _); intros ? ? ? Hk Hv;
          state_simpl; rewrite lookup_insert_ne by done; exact Hv
      | |- steps _ (modify (set_m_ambient_sound _)) => fail 1
      | |- steps _ (modify _) =>
          let Hv := fresh in
          apply (steps_modify _); intros ? ? ? _ Hv; exact Hv
      end
    | solve [auto] ].

Section AmbientNames.
Variable env : Env.

Lemma names_getAmbientSound b : steps keeps_ambient_names (getAmbientSound env b).
Proof.
  intros s r s' Hrun k v _ Hv.
  apply getAmbientSound_inv, getAmbientSound_frame in Hrun.
  destruct Hrun as [_ _ _ _ Hsub _ _ _ _]. by eapply lookup_weaken.
Qed.

Lemma names_loadOggFile fname : steps keeps_ambient_names (loadOggFile env fname).
Proof.
  unfold loadOggFile, log, call, new_SoundBuffer, al_gen_name. names_bind.
Qed.

Lemma names_loadSound b : steps keeps_ambient_names (loadSound env b).
Proof.
  pose proof names_loadOggFile.
  unfold loadSound, findSoundFile, log. names_bind.
Qed.

Lemma names_SoundSource_ctor buf : steps keeps_ambient_names (SoundSource_ctor buf).
Proof. unfold SoundSource_ctor, call, al_gen_name. names_bind. Qed.

Lemma names_run_op o : steps keeps_ambient_names (run_op env o).
Proof.
  pose proof names_loadOggFile. pose proof names_loadSound.
  pose proof names_SoundSource_ctor. pose proof names_getAmbientSound.
  destruct o; unfold run_op, init, findSoundFile, setAmbient, createSource,
    getSource, updateListener, shutdown, AmbientSound_ctor,
    AmbientSound_isPlaying, AmbientSound_play, AmbientSound_stop,
    new_AmbientSound, new_SoundSource, log, call; names_bind.
Qed.

Lemma names_run_ops os : steps keeps_ambient_names (run_ops env os).
Proof.
  induction os as [|o os IH]; simpl.
  - apply (steps_ret _).
  - apply (steps_bind _); [apply names_run_op | intros _; exact IH].
Qed.

(** X22. An ambient sound is created once per name: after
    [getAmbientSound] has returned an object for a name other than the
    empty one, the name stays registered with that object whatever
    operations run, and every later [getAmbientSound] of the name returns
    it without changing anything while the system is available; once the
    system is unavailable the lookup returns null, although the object is
    still registered. *)
Theorem ambient_sound_is_created_once s st n st1 :
  s <> EmptyString ->
  getAmbientSound env s st = Some (Some n, st1) ->
  forall os st2,
    run_ops env os st1 = Some (tt, st2) ->
    m_ambient_sound st2 !! s = Some n /\
    (isAvailable st2 = true -> getAmbientSound env s st2 = Some (Some n, st2)) /\
    (isAvailable st2 = false -> getAmbientSound env s st2 = Some (None, st2)).
Proof.
  intros Hs Hget os st2 Hops.
  apply getAmbientSound_inv, getAmbientSound_frame in Hget.
  destruct Hget as [_ _ _ _ _ _ _ Hsome _].
  pose proof (names_run_ops os _ _ _ Hops s n Hs (Hsome n eq_refl)) as Hreg.
  split_and!; [done| |].
  - intros Hav. by apply getAmbientSound_cached.
  - intros Hav. unfold getAmbientSound. munfold. by rewrite Hav.
Qed.

End AmbientNames.

(** ** Every upload has a payload *)

#[local] Instance keeps_uploads_preorder : PreOrder keeps_uploads.
Proof.
  split; [intros s H; exact H | intros s1 s2 s3 H1 H2 H; exact (H2 (H1 H))].
Qed.

Lemma uploads_call c : upload_ok c -> steps keeps_uploads (call c).
Proof.
  intros Hc s a s' Hrun Hs. unfold call, modify in Hrun.
  injection Hrun as _ <-. unfold uploads_ok in *. state_simpl.
  apply Forall_app. split; [exact Hs | by constructor].
Qed.

Ltac uploads_bind :=
  repeat first
    [ steps_step
    | lazymatch goal with
      | |- steps _ (call _) => apply uploads_call; exact I
      | |- steps _ (modify _) =>
          apply (steps_modify _); intros ? Hs; exact Hs
      end
    | solve [auto] ].

Section Uploads.
Variable env : Env.
Hypothesis Hsamples : streams_have_samples env.

Lemma uploads_loadOggFile fname : steps keeps_uploads (loadOggFile env fname).
Proof.
  intros st r st' Hrun Hok. apply loadOggFile_inv in Hrun.
  inversion Hrun as [b Hb | Hc Ho | f partial Hc Ho Hr | f pcm Hc Ho Hr]; subst;
    unfold uploads_ok, decoded_state in *; state_simpl.
  - exact Hok.
  - apply Forall_app. split; [exact Hok | by repeat constructor].
  - rewrite !Forall_app. split_and!; [exact Hok | by repeat constructor..].
  - pose proof (read_loop_not_empty f pcm (Hsamples _ _ Ho) Hr) as Hpcm.
    apply Forall_app. split; [exact Hok | by repeat constructor].
Qed.

Lemma uploads_loadSound b : steps keeps_uploads (loadSound env b).
Proof.
  pose proof uploads_loadOggFile.
  unfold loadSound, findSoundFile, log. uploads_bind.
Qed.

Lemma uploads_SoundSource_ctor buf : steps keeps_uploads (SoundSource_ctor buf).
Proof. unfold SoundSource_ctor, al_gen_name. uploads_bind. Qed.

Lemma uploads_getAmbientSound b : steps keeps_uploads (getAmbientSound env b).
Proof.
  pose proof uploads_loadSound. pose proof uploads_SoundSource_ctor.
  unfold getAmbientSound, AmbientSound_ctor, new_AmbientSound. uploads_bind.
Qed.

Lemma uploads_run_op o : steps keeps_uploads (run_op env o).
Proof.
  pose proof uploads_loadOggFile. pose proof uploads_loadSound.
  pose proof uploads_SoundSource_ctor. pose proof uploads_getAmbientSound.
  destruct o; unfold run_op, init, shutdown, findSoundFile, setAmbient,
    createSource, getSource, updateListener, AmbientSound_ctor,
    AmbientSound_isPlaying, AmbientSound_play, AmbientSound_stop,
    new_AmbientSound, new_SoundSource, log; uploads_bind.
Qed.

Lemma uploads_run_ops os : steps keeps_uploads (run_ops env os).
Proof.
  induction os as [|o os IH]; simpl.
  - apply (steps_ret _).
  - apply (steps_bind _); [apply uploads_run_op | intros _; exact IH].
Qed.

Lemma uploads_Audio_ctor : steps keeps_uploads (Audio_ctor env).
Proof. unfold Audio_ctor, shutdown, log. cbv zeta. uploads_bind. Qed.

End Uploads.

Lemma uploads_process_start listener : uploads_ok (process_start listener).
Proof. unfold uploads_ok, process_start. state_simpl. constructor. Qed.

(** ** No access violation once [init] has run *)

Section Safety.
Variable env : Env.

Lemma run_op_runs o st :
  wf st -> is_Some (m_ambient_sound st !! EmptyString) ->
  exists st', run_op env o st = Some (tt, st').
Proof.
  intros Hwf [e He]. destruct o; unfold run_op.
  - rewrite init_eq. by eexists.
  - unfold mbind, M_bind. rewrite findSoundFile_eq. by eexists.
  - unfold mbind, M_bind.
    destruct (loadSound_runs env basename st) as (r & st' & -> & _). by eexists.
  - unfold mbind, M_bind.
    destruct (loadOggFile_runs env fname st) as (r & st' & -> & _). by eexists.
  - unfold mbind, M_bind.
    destruct (getAmbientSound_runs env basename st (proj1 Hwf)) as (r & st' & ->).
    by eexists.
  - destruct (isAvailable st) eqn:Hav.
    + destruct (setAmbient_runs env slotname basename autoplay st e Hav Hwf He)
        as (snd & sa & _ & _ & ->). by eexists.
    + rewrite setAmbient_unavailable by done. by eexists.
  - unfold mbind, M_bind.
    destruct (createSource_runs env sourcename basename st (proj1 Hwf))
      as (r & st' & ->). by eexists.
  - unfold mbind, M_bind.
    destruct (m_sound_source st !! sourcename) as [v|] eqn:Hp.
    + rewrite (getSource_present _ _ _ Hp). by eexists.
    + rewrite (getSource_absent _ _ Hp). by eexists.
  - unfold updateListener. munfold.
    destruct (isAvailable st); cbv beta iota delta [negb]; by eexists.
  - rewrite shutdown_eq. by eexists.
Qed.

Lemma run_ops_runs os st :
  wf st -> is_Some (m_ambient_sound st !! EmptyString) ->
  exists st', run_ops env os st = Some (tt, st').
Proof.
  revert st. induction os as [|o os IH]; intros st Hwf Hp; simpl.
  - by eexists.
  - destruct (run_op_runs o st Hwf Hp) as [s1 Hop].
    unfold mbind, M_bind. rewrite Hop. apply IH.
    + by apply (wf_run_op env _ _ _ Hop).
    + by apply (placeholder_run_op env _ _ _ _ Hop).
Qed.

(** X23. On a machine where every stream the decoder opens has samples,
    once the constructor and [init] have run no sequence of operations
    ends in an access violation: every read through a pointer and every
    read of a registry entry finds its object, the state reached is well
    formed and holds the placeholder, and every payload that was uploaded
    to the device has a first byte. *)
Theorem no_access_violation_after_init listener path os :
  streams_have_samples env ->
  exists st,
    (Audio_ctor env ≫= fun _ => init env path ≫= fun _ => run_ops env os)
      (process_start listener) = Some (tt, st) /\
    wf st /\ is_Some (m_ambient_sound st !! EmptyString) /\
    uploads_ok st.
Proof.
  intros Hsamples.
  destruct (Audio_ctor_runs env (process_start listener)) as (s1 & Hctor & _).
  pose proof (keeps_wf_Audio_ctor env _ _ _ Hctor (wf_process_start listener))
    as Hwf1.
  pose proof (init_eq env path s1) as Hinit.
  destruct (wf_init env _ _ _ Hinit Hwf1) as [Hwf2 Hp2].
  destruct (run_ops_runs os _ Hwf2 Hp2) as [st Hrun].
  exists st. split_and!.
  - unfold mbind at 1, M_bind at 1. rewrite Hctor.
    unfold mbind at 1, M_bind at 1. rewrite Hinit. exact Hrun.
  - by apply (wf_run_ops env _ _ _ Hrun).
  - by apply (placeholder_run_ops env _ _ _ _ Hrun).
  - apply (uploads_run_ops env Hsamples os _ _ _ Hrun).
    apply (uploads_run_op env Hsamples (op_init path) _ _ _ Hinit).
    apply (uploads_Audio_ctor env _ _ _ Hctor).
    apply uploads_process_start.
Qed.

(** X24. [setAmbient] needs [init]: on an available system without the
    placeholder, a call whose name does not resolve reads the entry of the
    empty name, which is not there, and ends in an access violation,
    whatever the slot holds. *)
Theorem setAmbient_needs_init slot s ap st sa :
  isAvailable st = true ->
  m_ambient_sound st !! EmptyString = None ->
  getAmbientSound env s st = Some (None, sa) ->
  setAmbient env slot s ap st = None.
Proof.
  intros Hav He Hget.
  rewrite (setAmbient_available env _ _ _ _ _ _ Hav Hget).
  apply getAmbientSound_inv, getAmbientSound_frame in Hget.
  destruct Hget as [_ _ _ _ _ _ _ _ Hnone].
  destruct (Hnone eq_refl) as (Hreg & _ & _). rewrite Hreg, He.
  destruct (m_ambient_slot sa !! slot) as [old|]; [|done].
  rewrite bool_decide_eq_false_2 by done.
  by destruct (ambients sa !! old).
Qed.

End Safety.

(** ** The listener *)

#[local] Instance same_listener_preorder : PreOrder same_listener.
Proof.
  split; [by intros s | intros s1 s2 s3 H1 H2].
  unfold same_listener in *. congruence.
Qed.

Ltac listener_bind :=
  repeat first
    [ steps_step
    | lazymatch goal with
      | |- steps _ (modify (set_m_listener _)) => fail 1
      | |- steps _ (modify _) =>
          apply (steps_modify _); intros ?; reflexivity
      end
    | solve [auto] ].

Section Listener.
Variable env : Env.

Lemma listener_loadOggFile fname : steps same_listener (loadOggFile env fname).
Proof.
  unfold loadOggFile, log, call, new_SoundBuffer, al_gen_name. listener_bind.
Qed.

Lemma listener_loadSound b : steps same_listener (loadSound env b).
Proof.
  pose proof listener_loadOggFile.
  unfold loadSound, findSoundFile, log. listener_bind.
Qed.

Lemma listener_SoundSource_ctor buf : steps same_listener (SoundSource_ctor buf).
Proof. unfold SoundSource_ctor, call, al_gen_name. listener_bind. Qed.

Lemma listener_getAmbientSound b : steps same_listener (getAmbientSound env b).
Proof.
  pose proof listener_loadSound. pose proof listener_SoundSource_ctor.
  unfold getAmbientSound, AmbientSound_ctor, new_AmbientSound. listener_bind.
Qed.

Lemma listener_run_op o :
  ~ updates_listener o -> steps same_listener (run_op env o).
Proof.
  pose proof listener_loadOggFile. pose proof listener_loadSound.
  pose proof listener_SoundSource_ctor. pose proof listener_getAmbientSound.
  intros Ho.
  destruct o; try (by destruct Ho);
    unfold run_op, init, findSoundFile, setAmbient,
    createSource, getSource, shutdown, AmbientSound_ctor,
    AmbientSound_isPlaying, AmbientSound_play, AmbientSound_stop,
    new_AmbientSound, new_SoundSource, log, call; listener_bind.
Qed.

Lemma listener_run_ops os :
  Forall (fun o => ~ updates_listener o) os ->
  steps same_listener (run_ops env os).
Proof.
  induction 1 as [|o os Ho _ IH]; simpl.
  - apply (steps_ret _).
  - apply (steps_bind _); [by apply listener_run_op | intros _; exact IH].
Qed.

Lemma updateListener_available cam vel st :
  isAvailable st = true ->
  updateListener cam vel st =
    Some (tt,
          set_calls
            (fun l => l ++ [ alListenerfv_call AL_POSITION
                               (take 3 (listener_vector cam vel));
                             alListenerfv_call AL_VELOCITY
                               (take 3 (drop 3 (listener_vector cam vel)));
                             alListenerfv_call AL_ORIENTATION
                               (drop 6 (listener_vector cam vel));
                             alListenerf_call AL_GAIN f32_0_3 ])
            (set_m_listener (listener_vector cam vel) st)).
Proof.
  intros Hav. unfold updateListener, listener_vector. cbv zeta. munfold.
  rewrite Hav. cbv beta iota delta [negb]. by rewrite <- !app_assoc.
Qed.

(** X25. Only [updateListener] writes the listener.  An update on an
    available system stores twelve values: the position, the velocity, the
    direction (position minus target in x and y, target minus position in
    z) and the up vector; it pushes the position, the velocity and the
    orientation to the device from the stored values and sets the gain to
    0.3.  Whatever other operations follow, the listener holds the values
    of that update. *)
Theorem listener_holds_the_last_update cam vel os st st' :
  isAvailable st = true ->
  Forall (fun o => ~ updates_listener o) os ->
  run_ops env (op_updateListener cam vel :: os) st = Some (tt, st') ->
  m_listener st' = listener_vector cam vel /\
  length (m_listener st') = 12%nat /\
  exists st1,
    updateListener cam vel st = Some (tt, st1) /\
    run_ops env os st1 = Some (tt, st') /\
    calls st1 =
      calls st ++
        [ alListenerfv_call AL_POSITION (take 3 (m_listener st1));
          alListenerfv_call AL_VELOCITY (take 3 (drop 3 (m_listener st1)));
          alListenerfv_call AL_ORIENTATION (drop 6 (m_listener st1));
          alListenerf_call AL_GAIN f32_0_3 ].
Proof.
  intros Hav Hos. simpl. unfold mbind, M_bind.
  rewrite (updateListener_available _ _ _ Hav). intros Hrun.
  pose proof (listener_run_ops os Hos _ _ _ Hrun) as Hsame.
  unfold same_listener in Hsame. rewrite Hsame.
  split_and!; [done..|]. eexists. by split_and!.
Qed.

End Listener.

(** ** The search path *)

Section SearchPath.
Variable env : Env.

(** X26. [init] takes the path as the prefix of the candidates when the
    path exists and keeps the previous prefix when it does not; the
    candidates are the prefix, the name, a dot and the extension, with
    nothing added in between.  In both cases it registers a new, silent
    placeholder under the empty name, and leaves the availability and the
    slots as they were. *)
Theorem init_sets_the_search_prefix path st :
  exists st' e,
    init env path st = Some (tt, st') /\
    (forall b,
       sound_base st' b =
         ((if PathExists env path then path else m_path st) +:+ b) +:+ ".") /\
    (forall b,
       findSoundFile env b st' =
         Some (findSoundFile_loop env (sound_base st' b) ["ogg"; "wav"] 0, st')) /\
    m_ambient_sound st' !! EmptyString = Some e /\
    ambients st !! e = None /\
    ambients st' !! e = Some placeholder /\
    isAvailable st' = isAvailable st /\
    m_ambient_slot st' = m_ambient_slot st.
Proof.
  rewrite init_eq. eexists _, (length (ambients st)).
  split; [reflexivity|].
  destruct (PathExists env path); state_simpl; unfold sound_base; state_simpl;
    split_and!; try done.
  all: first [ by rewrite lookup_insert_eq
             | by apply lookup_ge_None_2
             | apply lookup_new_object ].
Qed.

End SearchPath.

(** ** The unavailable system *)

Section Unavailable.
Variable env : Env.

Lemma silent_refl st : isAvailable st = false -> silent st st.
Proof. intros H. unfold silent. by split_and!. Qed.

Lemma silent_run_op o st st' :
  isAvailable st = false -> checks_availability o ->
  run_op env o st = Some (tt, st') -> silent st st'.
Proof.
  intros Hav Ho.
  destruct (unavailable_state_operations env st Hav) as (Hset & Hupd & Hcreate).
  destruct o; try (by destruct Ho); unfold run_op.
  - rewrite init_eq. intros [= <-].
    unfold silent, isAvailable in *.
    by destruct (PathExists env path); state_simpl; split_and!.
  - unfold mbind, M_bind. rewrite findSoundFile_eq. intros [= <-].
    by apply silent_refl.
  - unfold mbind, M_bind.
    destruct (loadSound env basename st) as [[r s1]|] eqn:Hload; [|done].
    intros [= <-]. apply loadSound_inv in Hload.
    inversion Hload; subst; try congruence. by apply silent_refl.
  - unfold mbind, M_bind, getAmbientSound. munfold. rewrite Hav.
    cbv beta iota delta [negb]. intros [= <-]. by apply silent_refl.
  - rewrite Hset. intros [= <-]. by apply silent_refl.
  - unfold mbind, M_bind. specialize (Hcreate sourcename basename).
    destruct (m_sound_source st !! sourcename); rewrite Hcreate;
      intros [= <-]; unfold silent; by split_and!.
  - unfold mbind, M_bind.
    destruct (m_sound_source st !! sourcename) as [v|] eqn:Hp.
    + rewrite (getSource_present _ _ _ Hp). intros [= <-]. by apply silent_refl.
    + rewrite (getSource_absent _ _ Hp). intros [= <-]. unfold silent.
      by split_and!.
  - rewrite Hupd. intros [= <-]. by apply silent_refl.
Qed.

(** X27. An unavailable system is silent: whatever operations of [Audio]
    run on it, [shutdown] apart, they make no call on the decoder or the
    device, decode nothing, and leave the slots and the listener alone;
    the system stays unavailable.  (The sources and the placeholder that
    [createSource], [getSource] and [init] register are empty.) *)
Theorem unavailable_system_is_silent os st st' :
  isAvailable st = false ->
  Forall checks_availability os ->
  run_ops env os st = Some (tt, st') ->
  isAvailable st' = false /\ calls st' = calls st /\ cache st' = cache st /\
  buffers st' = buffers st /\ al_names st' = al_names st /\
  m_ambient_slot st' = m_ambient_slot st /\ m_listener st' = m_listener st.
Proof.
  intros Hav Hos. revert st Hav.
  induction Hos as [|o os Ho _ IH]; intros st Hav; simpl.
  - intros [= <-]. by apply silent_refl.
  - unfold mbind, M_bind.
    destruct (run_op env o st) as [[[] s1]|] eqn:Hop; [|done].
    intros Hrun.
    destruct (silent_run_op o st s1 Hav Ho Hop) as (A1&A2&A3&A4&A5&A6&A7).
    destruct (IH s1 A1 Hrun) as (B1&B2&B3&B4&B5&B6&B7).
    split_and!; congruence.
Qed.

End Unavailable.

(** ** No source is left with a dangling buffer *)

#[local] Instance keeps_live_preorder : PreOrder keeps_live.
Proof.
  split; [intros s H; exact H | intros s1 s2 s3 H1 H2 H; exact (H2 (H1 H))].
Qed.

Section Live.
Variable env : Env.

Lemma source_ok_grow s s' x :
  buffers s `prefix_of` buffers s' -> source_ok s x -> source_ok s' x.
Proof.
  intros Hpre. unfold source_ok. destruct (m_buffer x) as [d|]; [|done].
  intros [[sb Hd] Hid]. split; [|done].
  exists sb. by eapply prefix_lookup_Some.
Qed.

Lemma live_grow s s' :
  buffers s `prefix_of` buffers s' ->
  sources s' = sources s -> ambients s' = ambients s ->
  m_sound_source s' = m_sound_source s ->
  live s -> live s'.
Proof.
  intros Hpre E1 E2 E3 (L1 & L2 & L3). unfold live. rewrite E1, E2, E3.
  split_and!; [| |done].
  - eapply Forall_impl; [exact L1|]. intros x. by apply source_ok_grow.
  - eapply Forall_impl; [exact L2|]. intros a. by apply source_ok_grow.
Qed.

Lemma live_same s s' :
  buffers s' = buffers s -> sources s' = sources s ->
  ambients s' = ambients s -> m_sound_source s' = m_sound_source s ->
  live s -> live s'.
Proof. intros E. apply live_grow. by rewrite E. Qed.

Lemma live_loadSound b st r st' :
  loadSound env b st = Some (r, st') -> live st -> live st'.
Proof.
  intros Hrun.
  pose proof (extends_loadSound env b _ _ _ Hrun) as (_ & Hpre & _ & _).
  apply loadSound_inv, loadSound_frame in Hrun.
  destruct Hrun as [(E1 & E2 & _ & _ & _ & _ & E3 & _) _ _ _ _].
  by apply live_grow.
Qed.

Lemma live_loadOggFile f st r st' :
  loadOggFile env f st = Some (r, st') -> live st -> live st'.
Proof.
  intros Hrun.
  pose proof (extends_loadOggFile env f _ _ _ Hrun) as (_ & Hpre & _ & _).
  apply loadOggFile_inv, loadOggFile_frame in Hrun.
  destruct Hrun as [(E1 & E2 & _ & _ & _ & _ & E3 & _) _ _ _ _].
  by apply live_grow.
Qed.

Lemma live_new_source st x name log_line :
  source_ok st x -> live st ->
  live (set_m_sound_source (insert name (length (sources st)))
          (set_sources (fun h => h ++ [x])
             (set_infostream log_line st))).
Proof.
  intros Hx (L1 & L2 & L3). unfold live. state_simpl. split_and!.
  - apply Forall_app. split; [exact L1|]. by apply Forall_singleton.
  - exact L2.
  - apply map_Forall_insert_2.
    + rewrite lookup_new_object. by eexists.
    + intros k l Hk. destruct (L3 k l Hk) as [y Hy]. exists y.
      by apply lookup_app_l_Some.
Qed.

Lemma live_getSource name st r st' :
  getSource name st = Some (r, st') -> live st -> live st'.
Proof.
  intros Hrun.
  destruct (m_sound_source st !! name) as [v|] eqn:Hp.
  - rewrite (getSource_present _ _ _ Hp) in Hrun. by injection Hrun as _ <-.
  - rewrite (getSource_absent _ _ Hp) in Hrun. injection Hrun as _ <-.
    by apply live_new_source.
Qed.

Lemma live_createSource name b st r st' :
  createSource env name b st = Some (r, st') -> live st -> live st'.
Proof.
  intros Hrun Hlive.
  destruct (m_sound_source st !! name) as [v|] eqn:Hp.
  { rewrite (createSource_present env _ _ _ _ Hp) in Hrun.
    injection Hrun as _ <-. revert Hlive. by apply live_same. }
  destruct (loadSound_runs env b st) as (data & st1 & Hload & _).
  pose proof (live_loadSound _ _ _ _ Hload Hlive) as Hlive1.
  destruct data as [d|].
  - destruct (buffers st1 !! d) as [sb|] eqn:Hd.
    + rewrite (createSource_absent_loaded env _ _ _ _ _ _ Hp Hload Hd) in Hrun.
      injection Hrun as _ <-.
      destruct Hlive1 as (L1 & L2 & L3). unfold live. state_simpl. split_and!.
      * apply Forall_app. split; [exact L1|]. apply Forall_singleton.
        unfold source_ok. simpl. split; by eexists.
      * exact L2.
      * apply map_Forall_insert_2.
        -- rewrite lookup_new_object. by eexists.
        -- intros k l Hk. destruct (L3 k l Hk) as [y Hy]. exists y.
           by apply lookup_app_l_Some.
    + unfold createSource, SoundSource_ctor in Hrun. munfold.
      rewrite Hp, Hload in Hrun.
      rewrite (bool_decide_eq_false_2 (Some d = None)) in Hrun by done.
      cbv beta iota in Hrun. by rewrite Hd in Hrun.
  - rewrite (createSource_absent_unloadable env _ _ _ _ Hp Hload) in Hrun.
    injection Hrun as _ <-. by apply live_new_source.
Qed.

Lemma live_getAmbientSound b st r st' :
  getAmbientSound env b st = Some (r, st') -> live st -> live st'.
Proof.
  intros Hrun Hlive. apply getAmbientSound_inv in Hrun.
  inversion Hrun as [ | | s1 Hav Hmiss Hload | d s1 sb Hav Hmiss Hload Hd]; subst;
    try done.
  - apply loadSound_outcome_run in Hload. by eapply live_loadSound.
  - apply loadSound_outcome_run in Hload.
    destruct (live_loadSound _ _ _ _ Hload Hlive) as (L1 & L2 & L3).
    unfold live, ambient_created. state_simpl. split_and!; [done| |done].
    apply Forall_app. split; [exact L2|]. apply Forall_singleton.
    unfold source_ok. simpl. split; by eexists.
Qed.

Lemma live_set_flag st l flag calls_made :
  live st ->
  live (set_ambients
          (fun h => match h !! l with
                    | Some a => <[l := mkAmbientSound (source a) flag]> h
                    | None => h
                    end)
          (set_calls calls_made st)).
Proof.
  intros (L1 & L2 & L3). unfold live. state_simpl. split_and!; [done| |done].
  destruct (ambients st !! l) as [a|] eqn:Ha; [|done].
  apply Forall_insert; [done|]. simpl.
  by apply (Forall_lookup_1 _ _ _ _ L2 Ha).
Qed.

Lemma live_stop_occupant slot st : live st -> live (stop_occupant slot st).
Proof.
  intros Hlive. unfold stop_occupant.
  destruct (m_ambient_slot st !! slot) as [old|]; [|done].
  destruct (ambients st !! old) as [a|] eqn:Ha; [|done].
  destruct (playing a); [|done].
  pose proof (live_set_flag st old false
                (fun l => l ++ stop_call old :: device_stop a) Hlive) as H.
  state_simpl. by rewrite Ha in H.
Qed.

Lemma live_play_sound n st : live st -> live (play_sound n st).
Proof.
  intros Hlive. unfold play_sound.
  destruct (ambients st !! n) as [a|] eqn:Ha; [|done].
  pose proof (live_set_flag st n true
                (fun l => l ++ play_call n :: device_play a) Hlive) as H.
  state_simpl. by rewrite Ha in H.
Qed.

Lemma live_switched slot b ap snd e sa :
  live sa -> live (switched slot b ap snd e sa).
Proof.
  intros Hlive. unfold switched.
  pose proof (live_stop_occupant slot sa Hlive) as H1.
  destruct snd as [n|].
  - destruct (_ || _).
    + pose proof (live_play_sound n _ H1) as H2. revert H2. by apply live_same.
    + revert H1. by apply live_same.
  - revert H1. by apply live_same.
Qed.

Lemma live_setAmbient slot b ap st st' :
  setAmbient env slot b ap st = Some (tt, st') -> live st -> live st'.
Proof.
  intros Hrun Hlive.
  destruct (isAvailable st) eqn:Hav.
  2:{ rewrite setAmbient_unavailable in Hrun by done. by injection Hrun as <-. }
  destruct (getAmbientSound env b st) as [[snd sa]|] eqn:Hget.
  2:{ unfold setAmbient in Hrun. munfold. rewrite Hav in Hrun.
      cbv beta iota delta [negb] in Hrun. by rewrite Hget in Hrun. }
  pose proof (live_getAmbientSound _ _ _ _ Hget Hlive) as Hsa.
  rewrite (setAmbient_available env _ _ _ _ _ _ Hav Hget) in Hrun.
  assert (Hsw : forall e, Some (tt, switched slot b ap snd e sa) = Some (tt, st') ->
                          live st').
  { intros e Heq. assert (st' = switched slot b ap snd e sa) as -> by congruence.
    by apply live_switched. }
  repeat case_match; try done; try (by eapply Hsw).
  by injection Hrun as <-.
Qed.

Lemma live_run_op o st st' :
  run_op env o st = Some (tt, st') -> live st -> live st'.
Proof.
  destruct o; unfold run_op; intros Hrun Hlive.
  - rewrite init_eq in Hrun. injection Hrun as <-.
    destruct Hlive as (L1 & L2 & L3). unfold live.
    destruct (PathExists env path); state_simpl; split_and!; try done;
      (apply Forall_app; split; [exact L2|]); by apply Forall_singleton.
  - unfold mbind, M_bind in Hrun. rewrite findSoundFile_eq in Hrun.
    by injection Hrun as <-.
  - unfold mbind, M_bind in Hrun.
    destruct (loadSound env basename st) as [[r s1]|] eqn:Hload; [|done].
    injection Hrun as <-. by eapply live_loadSound.
  - unfold mbind, M_bind in Hrun.
    destruct (loadOggFile env fname st) as [[r s1]|] eqn:Hload; [|done].
    injection Hrun as <-. by eapply live_loadOggFile.
  - unfold mbind, M_bind in Hrun.
    destruct (getAmbientSound env basename st) as [[r s1]|] eqn:Hget; [|done].
    injection Hrun as <-. by eapply live_getAmbientSound.
  - by eapply live_setAmbient.
  - unfold mbind, M_bind in Hrun.
    destruct (createSource env sourcename basename st) as [[r s1]|] eqn:Hc; [|done].
    injection Hrun as <-. by eapply live_createSource.
  - unfold mbind, M_bind in Hrun.
    destruct (getSource sourcename st) as [[r s1]|] eqn:Hc; [|done].
    injection Hrun as <-. by eapply live_getSource.
  - unfold updateListener in Hrun. munfold.
    destruct (isAvailable st); cbv beta iota delta [negb] in Hrun;
      injection Hrun as <-; [revert Hlive; by apply live_same | done].
  - rewrite shutdown_eq in Hrun. injection Hrun as <-.
    revert Hlive. by apply live_same.
Qed.

Lemma live_run_ops os st st' :
  run_ops env os st = Some (tt, st') -> live st -> live st'.
Proof.
  revert st. induction os as [|o os IH]; intros st; simpl.
  - by intros [= <-].
  - unfold mbind, M_bind.
    destruct (run_op env o st) as [[[] s1]|] eqn:Hop; [|done].
    intros Hrun Hlive. apply (IH _ Hrun). by apply (live_run_op _ _ _ Hop).
Qed.

Lemma keeps_live_Audio_ctor : steps keeps_live (Audio_ctor env).
Proof.
  unfold Audio_ctor, shutdown, log, call. cbv zeta.
  repeat first
    [ steps_step
    | lazymatch goal with
      | |- steps _ (modify _) =>
          apply (steps_modify _); intros ?; unfold keeps_live;
          apply live_same; reflexivity
      end ].
Qed.

Lemma live_process_start listener : live (process_start listener).
Proof.
  unfold live, process_start. state_simpl.
  split_and!; [constructor | constructor | apply map_Forall_empty].
Qed.

(** X28. No pointer dangles: in every state the program reaches from the
    process start, every source object, registered or owned by an ambient
    sound, is either empty, and then holds no device name, or bound to a
    buffer object that exists, and then holds a device name; every
    registered source name, every cache entry, every registered ambient
    sound and every slot points to an object. *)
Theorem no_dangling_pointer listener os st :
  (Audio_ctor env ≫= fun _ => run_ops env os) (process_start listener)
    = Some (tt, st) ->
  live st /\ wf st.
Proof.
  unfold mbind at 1, M_bind at 1.
  destruct (Audio_ctor env (process_start listener)) as [[[] s1]|] eqn:Hctor;
    [|done].
  intros Hrun. split.
  - apply (live_run_ops _ _ _ Hrun).
    apply (keeps_live_Audio_ctor _ _ _ Hctor). apply live_process_start.
  - apply (wf_run_ops env _ _ _ Hrun).
    apply (keeps_wf_Audio_ctor env _ _ _ Hctor). apply wf_process_start.
Qed.

End Live.

(** ** Witnesses on the concrete machines *)

Lemma device_and_context_together_witness :
  (Audio_ctor env_demo ≫= fun _ => run_ops env_demo closing_history)
    (process_start (replicate 12 f32_zero)) = Some (tt, st_closed) /\
  (is_Some (m_device st_closed) <-> is_Some (m_context st_closed)).
Proof.
  split; [vm_compute; reflexivity|].
  apply (device_and_context_together env_demo closing_history
           (process_start (replicate 12 f32_zero)) st_closed).
  vm_compute; reflexivity.
Defined.



Lemma system_opens_device_once_witness :
  m_system process_nodev = false /\
  exists p1,
    system env_nodev process_nodev = Some p1 /\
    m_system p1 = true /\
    system_calls env_nodev 3 process_nodev = Some p1 /\
    device_opens (calls (audio p1)) =
      S (device_opens (calls (audio process_nodev))).
Proof.
  split; [reflexivity|].
  apply (system_opens_device_once env_nodev 2 process_nodev). reflexivity.
Defined.

Lemma findSoundFile_loop_first_match_witness :
  0 <= 0 < 256 /\
  Forall (fun x => PathExists env_demo ("snd/wind." +:+ x) = false) ["ogg"] /\
  findSoundFile_loop env_demo "snd/wind." ["ogg"] 0 =
    (EmptyString, (0 + Z.of_nat (length ["ogg"])) mod 256) /\
  forall e post,
    PathExists env_demo ("snd/wind." +:+ e) = true ->
    findSoundFile_loop env_demo "snd/wind." (["ogg"] ++ e :: post) 0 =
      ("snd/wind." +:+ e, (0 + Z.of_nat (length ["ogg"])) mod 256).
Proof.
  assert (Hpre : Forall (fun x => PathExists env_demo ("snd/wind." +:+ x) = false)
                   ["ogg"]).
  { repeat constructor. }
  split; [lia|]. split; [exact Hpre|].
  apply (findSoundFile_loop_first_match env_demo "snd/wind." ["ogg"] 0);
    [lia | exact Hpre].
Defined.


Lemma failed_decode_leaves_the_buffer_witness :
  cache st_demo !! "snd/torn.ogg" = None /\
  ov_fopen env_demo "snd/torn.ogg" = Some torn_ogg /\
  Forall (fun r : Z * list Byte.byte => 0 < r.1) [(1, [Byte.x05])] /\
  -3 < 0 /\
  reads torn_ogg = [(1, [Byte.x05])] ++ (-3, []) :: [] /\
  exists st',
    loadOggFile env_demo "snd/torn.ogg" st_demo = Some (None, st') /\
    buffers st' =
      buffers st_demo ++
        [mkSoundBuffer (ogg_format torn_ogg) (rate torn_ogg) 0
           (concat (map chunk_data [(1, [Byte.x05])]))] /\
    cache st' = cache st_demo /\ sources st' = sources st_demo /\
    ambients st' = ambients st_demo /\ al_names st' = al_names st_demo /\
    calls st' =
      calls st_demo ++ [ov_fopen_call "snd/torn.ogg"; ov_clear_call "snd/torn.ogg"] /\
    (wf_cache st_demo ->
     map_Forall (fun _ b => b <> length (buffers st_demo)) (cache st')) /\
    (forall os st2,
       run_ops env_demo os st' = Some (tt, st2) ->
       buffers st2 !! length (buffers st_demo) =
         Some (mkSoundBuffer (ogg_format torn_ogg) (rate torn_ogg) 0
                 (concat (map chunk_data [(1, [Byte.x05])])))).
Proof.
  assert (Hpos : Forall (fun r : Z * list Byte.byte => 0 < r.1) [(1, [Byte.x05])]).
  { repeat constructor. }
  split; [vm_compute; reflexivity|]. split; [vm_compute; reflexivity|].
  split; [exact Hpos|]. split; [lia|]. split; [reflexivity|].
  apply (failed_decode_leaves_the_buffer env_demo "snd/torn.ogg" st_demo torn_ogg
           [(1, [Byte.x05])] (-3) [] []);
    [vm_compute; reflexivity | vm_compute; reflexivity | exact Hpos | lia
    | reflexivity].
Defined.

Lemma broken_file_is_opened_every_time_witness :
  isAvailable st_demo = true /\
  PathExists env_demo (sound_base st_demo "hiss" +:+ "ogg") = true /\
  cache st_demo !! (sound_base st_demo "hiss" +:+ "ogg") = None /\
  ov_fopen env_demo (sound_base st_demo "hiss" +:+ "ogg") = None /\
  exists st',
    run_ops env_demo (replicate 3 (op_loadSound "hiss")) st_demo = Some (tt, st') /\
    cache st' = cache st_demo /\
    decoder_opens (sound_base st_demo "hiss" +:+ "ogg") (calls st') =
      (decoder_opens (sound_base st_demo "hiss" +:+ "ogg") (calls st_demo) + 3)%nat.
Proof.
  split; [reflexivity|]. split; [vm_compute; reflexivity|].
  split; [vm_compute; reflexivity|]. split; [vm_compute; reflexivity|].
  apply (broken_file_is_opened_every_time env_demo "hiss" st_demo 3);
    [reflexivity | vm_compute; reflexivity | vm_compute; reflexivity
    | left; vm_compute; reflexivity].
Defined.

Lemma loadSound_returns_a_buffer_iff_witness :
  (forall f, ov_fopen env_demo (sound_base st_demo "birds" +:+ "ogg") = Some f ->
             has_samples f) /\
  exists r st',
    loadSound env_demo "birds" st_demo = Some (r, st') /\
    (is_Some r <->
     isAvailable st_demo = true /\
     PathExists env_demo (sound_base st_demo "birds" +:+ "ogg") = true /\
     (is_Some (cache st_demo !! (sound_base st_demo "birds" +:+ "ogg")) \/
      exists f chunks,
        ov_fopen env_demo (sound_base st_demo "birds" +:+ "ogg") = Some f /\
        reads_until_eos (reads f) chunks)) /\
    (cache st_demo !! (sound_base st_demo "birds" +:+ "ogg") = None ->
     forall d, r = Some d ->
       exists sb, buffers st' !! d = Some sb /\ buffer sb <> []).
Proof.
  assert (Hsamples : forall f,
            ov_fopen env_demo (sound_base st_demo "birds" +:+ "ogg") = Some f ->
            has_samples f).
  { intros f Hf. vm_compute in Hf. injection Hf as <-.
    unfold has_samples. simpl. by split. }
  split; [exact Hsamples|].
  apply (loadSound_returns_a_buffer_iff env_demo "birds" st_demo).
  exact Hsamples.
Defined.

Lemma no_access_violation_after_init_witness :
  streams_have_samples env_demo /\
  exists st,
    (Audio_ctor env_demo ≫= fun _ => init env_demo "snd/" ≫= fun _ =>
       run_ops env_demo
         [op_loadSound "birds"; op_createSource "steps" "rain";
          op_setAmbient "weather" "torn" true])
      (process_start (replicate 12 f32_zero)) = Some (tt, st) /\
    wf st /\ is_Some (m_ambient_sound st !! EmptyString) /\
    uploads_ok st.
Proof.
  assert (Hsamples : streams_have_samples env_demo).
  { intros fname f Hf. unfold env_demo in Hf. simpl in Hf.
    repeat case_bool_decide; try discriminate; injection Hf as <-;
      unfold has_samples; simpl; by split. }
  split; [exact Hsamples|].
  apply (no_access_violation_after_init env_demo (replicate 12 f32_zero) "snd/"
           [op_loadSound "birds"; op_createSource "steps" "rain";
            op_setAmbient "weather" "torn" true]).
  exact Hsamples.
Defined.

Lemma upload_size_is_bytes_read_witness :
  cache st_demo !! "snd/birds.ogg" = None /\
  ov_fopen env_demo "snd/birds.ogg" = Some birds_ogg /\
  reads_until_eos (reads birds_ogg) birds_chunks /\
  birds_chunks <> [] /\
  Forall (fun r : Z * list Byte.byte => r.1 <= Z.of_nat (length r.2)) birds_chunks /\
  fits_ALsizei (total_bytes birds_chunks) /\
  fits_ALsizei (rate birds_ogg) /\
  exists b st' sb,
    loadOggFile env_demo "snd/birds.ogg" st_demo = Some (Some b, st') /\
    buffers st' !! b = Some sb /\
    bufferID sb = al_names st_demo /\
    buffer sb <> [] /\
    Z.of_nat (length (buffer sb)) = total_bytes birds_chunks /\
    fits_ALsizei (Z.of_nat (length (buffer sb))) /\
    freq sb = rate birds_ogg /\ fits_ALsizei (freq sb) /\
    calls st' =
      calls st_demo ++
        [ ov_fopen_call "snd/birds.ogg";
          alGenBuffers_call (al_names st_demo);
          alBufferData_call (al_names st_demo) (format sb) (buffer sb)
            (total_bytes birds_chunks) (freq sb);
          ov_clear_call "snd/birds.ogg" ].
Proof.
  assert (Heos : reads_until_eos (reads birds_ogg) birds_chunks).
  { split; [repeat constructor|]. right. by exists [], []. }
  assert (Hsome : birds_chunks <> []) by discriminate.
  assert (Hfull : Forall (fun r : Z * list Byte.byte => r.1 <= Z.of_nat (length r.2))
                    birds_chunks).
  { repeat constructor; simpl; lia. }
  assert (Hsize : fits_ALsizei (total_bytes birds_chunks))
    by (unfold fits_ALsizei; simpl; lia).
  assert (Hrate : fits_ALsizei (rate birds_ogg))
    by (unfold fits_ALsizei; simpl; lia).
  split; [vm_compute; reflexivity|]. split; [vm_compute; reflexivity|].
  split; [exact Heos|]. split; [exact Hsome|]. split; [exact Hfull|].
  split; [exact Hsize|]. split; [exact Hrate|].
  apply (upload_size_is_bytes_read env_demo "snd/birds.ogg" st_demo birds_ogg
           birds_chunks);
    [vm_compute; reflexivity | vm_compute; reflexivity | exact Heos | exact Hsome
    | exact Hfull | exact Hsize | exact Hrate].
Defined.

Lemma getSource_returns_the_created_source_witness :
  m_sound_source st_demo !! "steps" = None /\ wf_cache st_demo /\
  exists data st0 l st1 src,
    loadSound env_demo "birds" st_demo = Some (data, st0) /\
    createSource env_demo "steps" "birds" st_demo = Some (Some l, st1) /\
    sources st1 !! l = Some src /\
    m_buffer src = data /\ m_relative src = false /\
    forall os st2,
      run_ops env_demo os st1 = Some (tt, st2) ->
      getSource "steps" st2 = Some (Some l, st2) /\
      sources st2 !! l = Some src.
Proof.
  assert (Hwf : wf_cache st_demo)
    by (apply (bool_decide_unpack _); vm_compute; exact I).
  split; [vm_compute; reflexivity|]. split; [exact Hwf|].
  apply (getSource_returns_the_created_source env_demo "steps" "birds" st_demo);
    [vm_compute; reflexivity | exact Hwf].
Defined.

Lemma sources_share_the_buffer_witness :
  "steps" <> "wings" /\
  m_sound_source st_demo !! "steps" = None /\
  m_sound_source st_demo !! "wings" = None /\
  wf_cache st_demo /\
  loadSound env_demo "birds" st_demo = Some (Some 0%nat, st_birds_loaded) /\
  exists la lb st1 st2 sb,
    createSource env_demo "steps" "birds" st_demo = Some (Some la, st1) /\
    createSource env_demo "wings" "birds" st1 = Some (Some lb, st2) /\
    la <> lb /\
    buffers st2 !! 0%nat = Some sb /\
    sources st2 !! la =
      Some (mkSoundSource (Some 0%nat) false (Some (al_names st_birds_loaded))) /\
    sources st2 !! lb =
      Some (mkSoundSource (Some 0%nat) false (Some (al_names st_birds_loaded + 1))) /\
    buffers st2 = buffers st1 /\ cache st2 = cache st1 /\
    calls st2 = calls st1 ++ source_calls (al_names st_birds_loaded + 1) sb.
Proof.
  assert (Hwf : wf_cache st_demo)
    by (apply (bool_decide_unpack _); vm_compute; exact I).
  split; [discriminate|]. split; [vm_compute; reflexivity|].
  split; [vm_compute; reflexivity|]. split; [exact Hwf|].
  split; [vm_compute; reflexivity|].
  apply (sources_share_the_buffer env_demo "steps" "wings" "birds" st_demo 0%nat
           st_birds_loaded);
    [discriminate | vm_compute; reflexivity | vm_compute; reflexivity | exact Hwf
    | vm_compute; reflexivity].
Defined.

Lemma slots_share_the_ambient_sound_witness :
  isAvailable st_demo = true /\ wf st_demo /\
  m_ambient_sound st_demo !! EmptyString = Some 0%nat /\
  getAmbientSound env_demo "rain" st_demo = Some (Some 1%nat, st_rain_registered) /\
  exists st1 st2,
    setAmbient env_demo "weather" "rain" true st_demo = Some (tt, st1) /\
    setAmbient env_demo "cave" "rain" false st1 = Some (tt, st2) /\
    m_ambient_slot st2 !! "weather" = Some 1%nat /\
    m_ambient_slot st2 !! "cave" = Some 1%nat /\
    m_ambient_sound st2 !! "rain" = Some 1%nat /\
    length (ambients st2) = length (ambients st_rain_registered).
Proof.
  assert (Hwf : wf st_demo) by (apply (bool_decide_unpack _); vm_compute; exact I).
  split; [reflexivity|]. split; [exact Hwf|]. split; [vm_compute; reflexivity|].
  split; [vm_compute; reflexivity|].
  apply (slots_share_the_ambient_sound env_demo "weather" "cave" "rain" true false
           st_demo 0%nat 1%nat st_rain_registered);
    [reflexivity | exact Hwf | vm_compute; reflexivity | vm_compute; reflexivity].
Defined.

Lemma switching_a_slot_silences_the_shared_sound_witness :
  isAvailable st_shared = true /\ wf st_shared /\
  m_ambient_sound st_shared !! EmptyString = Some 0%nat /\
  "weather" <> "cave" /\
  m_ambient_slot st_shared !! "weather" = Some 1%nat /\
  m_ambient_slot st_shared !! "cave" = Some 1%nat /\
  exists snd st0 st',
    getAmbientSound env_demo "birds" st_shared = Some (snd, st0) /\
    setAmbient env_demo "weather" "birds" false st_shared = Some (tt, st') /\
    (snd <> Some 1%nat ->
     m_ambient_slot st' !! "cave" = Some 1%nat /\ is_playing 1 st' = false).
Proof.
  assert (Hwf : wf st_shared) by (apply (bool_decide_unpack _); vm_compute; exact I).
  split; [reflexivity|]. split; [exact Hwf|]. split; [vm_compute; reflexivity|].
  split; [discriminate|]. split; [vm_compute; reflexivity|].
  split; [vm_compute; reflexivity|].
  apply (switching_a_slot_silences_the_shared_sound env_demo "weather" "cave"
           "birds" false st_shared 0%nat 1%nat);
    [reflexivity | exact Hwf | vm_compute; reflexivity | discriminate
    | vm_compute; reflexivity | vm_compute; reflexivity].
Defined.

Lemma setAmbient_does_not_restart_witness :
  isAvailable st_rain = true /\
  m_ambient_sound st_rain !! "rain" = Some 1%nat /\
  m_ambient_slot st_rain !! "weather" = Some 1%nat /\
  setAmbient env_demo "weather" "rain" true st_rain = Some (tt, st_rain).
Proof.
  split; [reflexivity|]. split; [vm_compute; reflexivity|].
  split; [vm_compute; reflexivity|].
  apply (setAmbient_does_not_restart env_demo "weather" "rain" true st_rain 1%nat);
    [reflexivity | vm_compute; reflexivity | vm_compute; reflexivity].
Defined.

Lemma quiet_switch_witness :
  isAvailable st_rain = true /\ wf st_rain /\
  m_ambient_sound st_rain !! EmptyString = Some 0%nat /\
  occupant_playing "cave" st_rain = false /\
  exists st',
    setAmbient env_demo "cave" "rain" false st_rain = Some (tt, st') /\
    playback (calls st') = playback (calls st_rain) /\
    forall l, is_Some (ambients st_rain !! l) ->
              is_playing l st' = is_playing l st_rain.
Proof.
  assert (Hwf : wf st_rain) by (apply (bool_decide_unpack _); vm_compute; exact I).
  split; [reflexivity|]. split; [exact Hwf|]. split; [vm_compute; reflexivity|].
  split; [vm_compute; reflexivity|].
  apply (quiet_switch env_demo "cave" "rain" st_rain 0%nat);
    [reflexivity | exact Hwf | vm_compute; reflexivity | vm_compute; reflexivity].
Defined.

Lemma ambient_sound_is_created_once_witness :
  "rain" <> EmptyString /\
  getAmbientSound env_demo "rain" st_demo = Some (Some 1%nat, st_rain_registered) /\
  forall os st2,
    run_ops env_demo os st_rain_registered = Some (tt, st2) ->
    m_ambient_sound st2 !! "rain" = Some 1%nat /\
    (isAvailable st2 = true ->
     getAmbientSound env_demo "rain" st2 = Some (Some 1%nat, st2)) /\
    (isAvailable st2 = false ->
     getAmbientSound env_demo "rain" st2 = Some (None, st2)).
Proof.
  split; [discriminate|]. split; [vm_compute; reflexivity|].
  apply (ambient_sound_is_created_once env_demo "rain" st_demo 1%nat
           st_rain_registered);
    [discriminate | vm_compute; reflexivity].
Defined.

Lemma listener_holds_the_last_update_witness :
  isAvailable st_demo = true /\
  Forall (fun o => ~ updates_listener o) [op_getSource "ghost"] /\
  run_ops env_demo [op_updateListener cam_demo vel_demo; op_getSource "ghost"]
    st_demo = Some (tt, st_listening) /\
  m_listener st_listening = listener_vector cam_demo vel_demo /\
  length (m_listener st_listening) = 12%nat /\
  exists st1,
    updateListener cam_demo vel_demo st_demo = Some (tt, st1) /\
    run_ops env_demo [op_getSource "ghost"] st1 = Some (tt, st_listening) /\
    calls st1 =
      calls st_demo ++
        [ alListenerfv_call AL_POSITION (take 3 (m_listener st1));
          alListenerfv_call AL_VELOCITY (take 3 (drop 3 (m_listener st1)));
          alListenerfv_call AL_ORIENTATION (drop 6 (m_listener st1));
          alListenerf_call AL_GAIN f32_0_3 ].
Proof.
  assert (Hos : Forall (fun o => ~ updates_listener o) [op_getSource "ghost"]).
  { repeat constructor. simpl. tauto. }
  split; [reflexivity|]. split; [exact Hos|]. split; [vm_compute; reflexivity|].
  apply (listener_holds_the_last_update env_demo cam_demo vel_demo
           [op_getSource "ghost"] st_demo st_listening);
    [reflexivity | exact Hos | vm_compute; reflexivity].
Defined.

Lemma setAmbient_needs_init_witness :
  isAvailable st_constructed = true /\
  m_ambient_sound st_constructed !! EmptyString = None /\
  getAmbientSound env_demo "drip" st_constructed = Some (None, st_constructed) /\
  setAmbient env_demo "cave" "drip" true st_constructed = None.
Proof.
  split; [reflexivity|]. split; [vm_compute; reflexivity|].
  split; [vm_compute; reflexivity|].
  apply (setAmbient_needs_init env_demo "cave" "drip" true st_constructed
           st_constructed);
    [reflexivity | vm_compute; reflexivity | vm_compute; reflexivity].
Defined.

Lemma unavailable_system_is_silent_witness :
  isAvailable st_nodev = false /\
  Forall checks_availability nodev_history /\
  run_ops env_nodev nodev_history st_nodev = Some (tt, st_nodev_after) /\
  isAvailable st_nodev_after = false /\
  calls st_nodev_after = calls st_nodev /\
  cache st_nodev_after = cache st_nodev /\
  buffers st_nodev_after = buffers st_nodev /\
  al_names st_nodev_after = al_names st_nodev /\
  m_ambient_slot st_nodev_after = m_ambient_slot st_nodev /\
  m_listener st_nodev_after = m_listener st_nodev.
Proof.
  assert (Hos : Forall checks_availability nodev_history).
  { repeat constructor. }
  split; [reflexivity|]. split; [exact Hos|]. split; [vm_compute; reflexivity|].
  apply (unavailable_system_is_silent env_nodev nodev_history st_nodev
           st_nodev_after);
    [reflexivity | exact Hos | vm_compute; reflexivity].
Defined.

Lemma no_dangling_pointer_witness :
  (Audio_ctor env_demo ≫= fun _ => run_ops env_demo closing_history)
    (process_start (replicate 12 f32_zero)) = Some (tt, st_closed) /\
  live st_closed /\ wf st_closed.
Proof.
  split; [vm_compute; reflexivity|].
  apply (no_dangling_pointer env_demo (replicate 12 f32_zero) closing_history
           st_closed).
  vm_compute; reflexivity.
Defined.
